(** * Shutorary: the frame simulation core of [main.go], embedded in Rocq

    The Go program keeps one mutable [Game] value and advances it once per
    frame with [Update].  This development embeds the simulation part of
    [main.go] as functions on an explicit game state:

    - Go's [int] is a 64-bit two's complement integer, modelled as a [Z]
      with the wrap-around written out ([Int.wrap]);
    - [float32] and [float64] are IEEE-754 binary32 / binary64 values,
      modelled by the standard library's [spec_float] with the operations
      of [SpecFloat] at precision 24 / 53 (round to nearest, ties to even);
    - slices used as fixed pools are lists read with [!!] and written with
      [<[i:=x]>]; an index outside the slice is a run-time panic in Go and
      the [Panic] result here;
    - [math/rand], the trigonometric functions of [math] and raylib's input
      queries are not part of the program: they are parameters of the
      embedding (section [Simulation]).

    Rendering, audio and asset fields of the structs (models, colours,
    camera, bobbing and tilt of the player model, sounds) take no part in
    the simulation and are left out of the records. *)

From Stdlib Require Import ZArith QArith Lia Lqa Bool String SpecFloat.
From stdpp Require Import base option list.

Local Open Scope Z_scope.

(** ** Go's [int] *)

Module Int.
Definition min_int : Z := - 2 ^ 63.
Definition max_int : Z := 2 ^ 63 - 1.

(** Reduction of a mathematical integer to the 64-bit signed range. *)
Definition wrap (z : Z) : Z := (z + 2 ^ 63) mod 2 ^ 64 - 2 ^ 63.

Definition add (a b : Z) : Z := wrap (a + b).
Definition sub (a b : Z) : Z := wrap (a - b).
Definition mul (a b : Z) : Z := wrap (a * b).
(** [/] and [%] truncate toward zero; the divisors of the program are
    positive constants. *)
Definition quot (a b : Z) : Z := wrap (Z.quot a b).
Definition rem (a b : Z) : Z := Z.rem a b.

Definition in_range (z : Z) : Prop := min_int <= z <= max_int.
End Int.

(** ** IEEE-754 numbers *)

Definition float32 : Type := spec_float.
Definition float64 : Type := spec_float.

(** Re-rounding of a floating-point value to the format [(prec, emax)]. *)
Definition SFround (prec emax : Z) (x : spec_float) : spec_float :=
  match x with
  | S754_finite s m e => binary_normalize prec emax (cond_Zopp s (Zpos m)) e s
  | _ => x
  end.

(** The second half of [binary_round_aux]: the rounded mantissa [m] at
    exponent [e] is brought back into the format. *)
Definition round_finish (prec emax : Z) (s : bool) (m e : Z) : spec_float :=
  let '(mrs, e') := shr_fexp prec emax m e loc_Exact in
  match shr_m mrs with
  | Z0 => S754_zero s
  | Zpos m' => if e' <=? emax - prec then S754_finite s m' e' else S754_infinity s
  | Zneg _ => S754_nan
  end.

Module F32.
Definition prec : Z := 24.
Definition emax : Z := 128.

Definition add : float32 -> float32 -> float32 := SFadd prec emax.
Definition sub : float32 -> float32 -> float32 := SFsub prec emax.
Definition mul : float32 -> float32 -> float32 := SFmul prec emax.
Definition div : float32 -> float32 -> float32 := SFdiv prec emax.
Definition neg : float32 -> float32 := SFopp.
Definition ltb : float32 -> float32 -> bool := SFltb.
Definition leb : float32 -> float32 -> bool := SFleb.
Definition eqb : float32 -> float32 -> bool := SFeqb.
Definition gtb (x y : float32) : bool := SFltb y x.
Definition geb (x y : float32) : bool := SFleb y x.

(** [float32(n)] for an integer [n]. *)
Definition of_int (n : Z) : float32 := binary_normalize prec emax n 0 false.
(** [float32(x)] for a [float64] [x]. *)
Definition of_f64 (x : float64) : float32 := SFround prec emax x.
(** The constant [n/d] converted to [float32]; [n] and [d] are below
    [2^24], so that both are exact and the quotient is rounded once. *)
Definition lit (n d : Z) : float32 := div (of_int n) (of_int d).

Definition zero : float32 := S754_zero false.
Definition valid (x : float32) : bool := valid_binary prec emax x.

(** [math.Pi] and [math.Pi / 2] converted to [float32]. *)
Definition Pi : float32 := S754_finite false 0xC90FDB (-22).
Definition half_Pi : float32 := S754_finite false 0xC90FDB (-23).
End F32.

Module F64.
Definition prec : Z := 53.
Definition emax : Z := 1024.

Definition add : float64 -> float64 -> float64 := SFadd prec emax.
Definition sub : float64 -> float64 -> float64 := SFsub prec emax.
Definition mul : float64 -> float64 -> float64 := SFmul prec emax.
Definition div : float64 -> float64 -> float64 := SFdiv prec emax.
Definition ltb : float64 -> float64 -> bool := SFltb.
Definition leb : float64 -> float64 -> bool := SFleb.
Definition eqb : float64 -> float64 -> bool := SFeqb.
Definition gtb (x y : float64) : bool := SFltb y x.

Definition of_int (n : Z) : float64 := binary_normalize prec emax n 0 false.
(** [float64(x)] for a [float32] [x]: exact. *)
Definition of_f32 (x : float32) : float64 := SFround prec emax x.
Definition lit (n d : Z) : float64 := div (of_int n) (of_int d).

Definition zero : float64 := S754_zero false.
Definition valid (x : float64) : bool := valid_binary prec emax x.

(** [math.Sqrt], [math.Abs]. *)
Definition Sqrt : float64 -> float64 := SFsqrt prec emax.
Definition Abs : float64 -> float64 := SFabs.

Definition is_nan (x : float64) : bool :=
  match x with S754_nan => true | _ => false end.
Definition is_inf (s : bool) (x : float64) : bool :=
  match x with S754_infinity s' => Bool.eqb s s' | _ => false end.
Definition signbit (x : float64) : bool :=
  match x with
  | S754_zero s | S754_infinity s | S754_finite s _ _ => s
  | S754_nan => false
  end.

(** [math.Min] and [math.Max], with the special cases of package [math]
    in the order the package tests them. *)
Definition Min (x y : float64) : float64 :=
  if is_inf true x || is_inf true y then S754_infinity true
  else if is_nan x || is_nan y then S754_nan
  else if eqb x zero && eqb x y then (if signbit x then x else y)
  else if ltb x y then x else y.

Definition Max (x y : float64) : float64 :=
  if is_inf false x || is_inf false y then S754_infinity false
  else if is_nan x || is_nan y then S754_nan
  else if eqb x zero && eqb x y then (if signbit x then y else x)
  else if gtb x y then x else y.

(** [int(x)]: truncation toward zero.  Outside the range of [int] (and
    for NaN) Go leaves the result to the implementation; amd64 yields
    the smallest [int]. *)
Definition to_int (x : float64) : Z :=
  match x with
  | S754_zero _ => 0
  | S754_finite s m e =>
      let a := if 0 <=? e then Z.shiftl (Zpos m) e else Z.shiftr (Zpos m) (- e) in
      let v := cond_Zopp s a in
      if (Int.min_int <=? v) && (v <=? Int.max_int) then v else Int.min_int
  | _ => Int.min_int
  end.

(** [math.Pi] as a [float64]. *)
Definition Pi : float64 := S754_finite false 0x1921FB54442D18 (-51).
End F64.

(** [int(math.Min(float64(a), float64(b)))], the shape of every capped
    heal in the program. *)
Definition int_min_via_float (a b : Z) : Z :=
  F64.to_int (F64.Min (F64.of_int a) (F64.of_int b)).

(** ** Results of a call

    A Go call either returns, panics (an index outside a slice,
    [rand.Intn] with a non-positive argument) or ends the process
    ([os.Exit] from the menu). *)

Inductive result (A : Type) : Type :=
| Ok (a : A)
| Panic
| Exit.
Arguments Ok {A} a.
Arguments Panic {A}.
Arguments Exit {A}.

#[global] Instance result_ret : MRet result := fun A a => Ok a.
#[global] Instance result_bind : MBind result := fun A B f m =>
  match m with
  | Ok a => f a
  | Panic => Panic
  | Exit => Exit
  end.

(** [xs[i]] as an rvalue. *)
Definition elem_at {A : Type} (xs : list A) (i : nat) : result A :=
  match xs !! i with
  | Some x => Ok x
  | None => Panic
  end.

(** [for i := range] over [n] indices starting at [i]; the body threads
    the state. *)
Fixpoint for_range {S : Type} (body : nat -> S -> result S)
    (i n : nat) (s : S) : result S :=
  match n with
  | O => Ok s
  | Datatypes.S n' => s' ← body i s; for_range body (Datatypes.S i) n' s'
  end.

(** The same loop when the body may [break]: the body returns [true] to
    leave the loop. *)
Fixpoint for_range_break {S : Type} (body : nat -> S -> result (bool * S))
    (i n : nat) (s : S) : result S :=
  match n with
  | O => Ok s
  | Datatypes.S n' =>
      '(stop, s') ← body i s;
      if stop : bool then Ok s' else for_range_break body (Datatypes.S i) n' s'
  end.

(** ** Data model *)

Inductive GameState : Type :=
| StateMenu
| StateSettings
| StatePlaying
| StatePaused
| StateUpgrade
| StateGameOver.

#[global] Instance GameState_eq_dec : EqDecision GameState.
Proof. solve_decision. Defined.

(** [StageType] is an [int] computed by arithmetic on the level. *)
Definition StageType : Type := Z.
Definition StageBasic : StageType := 0.
Definition StageMaze : StageType := 1.
Definition StageHazard : StageType := 2.
Definition StageArena : StageType := 3.

Definition maxEnemies : nat := 80.
Definition maxBullets : nat := 20.
Definition maxParticles : nat := 200.
Definition maxPowerUps : nat := 5.
Definition maxObstacles : nat := 30.
Definition stageInterval : Z := 10.

Module Vector3.
Record t : Type := New { X : float32; Y : float32; Z : float32 }.
Definition with_X (v : float32) (p : t) : t := New v (Y p) (Z p).
Definition with_Y (v : float32) (p : t) : t := New (X p) v (Z p).
Definition with_Z (v : float32) (p : t) : t := New (X p) (Y p) v.
Definition zero : t := New F32.zero F32.zero F32.zero.
End Vector3.

Module PlayerStats.
Record t : Type := mk {
  maxHealth : Z;
  damage : Z;
  speed : float32;
  fireRate : float32;
  critChance : float32;
  statPoints : Z
}.

Definition with_maxHealth (v : Z) (x : t) : t :=
  mk v (damage x) (speed x) (fireRate x) (critChance x) (statPoints x).
Definition with_damage (v : Z) (x : t) : t :=
  mk (maxHealth x) v (speed x) (fireRate x) (critChance x) (statPoints x).
Definition with_speed (v : float32) (x : t) : t :=
  mk (maxHealth x) (damage x) v (fireRate x) (critChance x) (statPoints x).
Definition with_fireRate (v : float32) (x : t) : t :=
  mk (maxHealth x) (damage x) (speed x) v (critChance x) (statPoints x).
Definition with_critChance (v : float32) (x : t) : t :=
  mk (maxHealth x) (damage x) (speed x) (fireRate x) v (statPoints x).
Definition with_statPoints (v : Z) (x : t) : t :=
  mk (maxHealth x) (damage x) (speed x) (fireRate x) (critChance x) v.
End PlayerStats.

Module Skill.
Record t : Type := mk {
  name : string;
  cooldown : float32;
  maxCooldown : float32;
  ready : bool
}.

Definition with_name (v : string) (x : t) : t :=
  mk v (cooldown x) (maxCooldown x) (ready x).
Definition with_cooldown (v : float32) (x : t) : t :=
  mk (name x) v (maxCooldown x) (ready x).
Definition with_maxCooldown (v : float32) (x : t) : t :=
  mk (name x) (cooldown x) v (ready x).
Definition with_ready (v : bool) (x : t) : t :=
  mk (name x) (cooldown x) (maxCooldown x) v.
End Skill.

Module Player.
Record t : Type := mk {
  position : Vector3.t;
  angle : float32;
  health : Z;
  stats : PlayerStats.t;
  lastShot : float32;
  skills : list Skill.t;
  id : Z
}.

Definition with_position (v : Vector3.t) (x : t) : t :=
  mk v (angle x) (health x) (stats x) (lastShot x) (skills x) (id x).
Definition with_angle (v : float32) (x : t) : t :=
  mk (position x) v (health x) (stats x) (lastShot x) (skills x) (id x).
Definition with_health (v : Z) (x : t) : t :=
  mk (position x) (angle x) v (stats x) (lastShot x) (skills x) (id x).
Definition with_stats (v : PlayerStats.t) (x : t) : t :=
  mk (position x) (angle x) (health x) v (lastShot x) (skills x) (id x).
Definition with_lastShot (v : float32) (x : t) : t :=
  mk (position x) (angle x) (health x) (stats x) v (skills x) (id x).
Definition with_skills (v : list Skill.t) (x : t) : t :=
  mk (position x) (angle x) (health x) (stats x) (lastShot x) v (id x).
Definition with_id (v : Z) (x : t) : t :=
  mk (position x) (angle x) (health x) (stats x) (lastShot x) (skills x) v.
End Player.

Module Enemy.
Record t : Type := mk {
  position : Vector3.t;
  velocity : Vector3.t;
  active : bool;
  health : Z;
  maxHealth : Z;
  size : float32;
  isBoss : bool
}.

Definition with_position (v : Vector3.t) (x : t) : t :=
  mk v (velocity x) (active x) (health x) (maxHealth x) (size x) (isBoss x).
Definition with_velocity (v : Vector3.t) (x : t) : t :=
  mk (position x) v (active x) (health x) (maxHealth x) (size x) (isBoss x).
Definition with_active (v : bool) (x : t) : t :=
  mk (position x) (velocity x) v (health x) (maxHealth x) (size x) (isBoss
    x).
Definition with_health (v : Z) (x : t) : t :=
  mk (position x) (velocity x) (active x) v (maxHealth x) (size x) (isBoss
    x).
Definition with_maxHealth (v : Z) (x : t) : t :=
  mk (position x) (velocity x) (active x) (health x) v (size x) (isBoss x).
Definition with_size (v : float32) (x : t) : t :=
  mk (position x) (velocity x) (active x) (health x) (maxHealth x) v (isBoss
    x).
Definition with_isBoss (v : bool) (x : t) : t :=
  mk (position x) (velocity x) (active x) (health x) (maxHealth x) (size x)
    v.
End Enemy.

Module Bullet.
Record t : Type := mk {
  position : Vector3.t;
  velocity : Vector3.t;
  active : bool;
  damage : Z;
  playerId : Z
}.

Definition with_position (v : Vector3.t) (x : t) : t :=
  mk v (velocity x) (active x) (damage x) (playerId x).
Definition with_velocity (v : Vector3.t) (x : t) : t :=
  mk (position x) v (active x) (damage x) (playerId x).
Definition with_active (v : bool) (x : t) : t :=
  mk (position x) (velocity x) v (damage x) (playerId x).
Definition with_damage (v : Z) (x : t) : t :=
  mk (position x) (velocity x) (active x) v (playerId x).
Definition with_playerId (v : Z) (x : t) : t :=
  mk (position x) (velocity x) (active x) (damage x) v.
End Bullet.

Module Particle.
Record t : Type := mk {
  position : Vector3.t;
  velocity : Vector3.t;
  lifetime : float32;
  active : bool
}.

Definition with_position (v : Vector3.t) (x : t) : t :=
  mk v (velocity x) (lifetime x) (active x).
Definition with_velocity (v : Vector3.t) (x : t) : t :=
  mk (position x) v (lifetime x) (active x).
Definition with_lifetime (v : float32) (x : t) : t :=
  mk (position x) (velocity x) v (active x).
Definition with_active (v : bool) (x : t) : t :=
  mk (position x) (velocity x) (lifetime x) v.
End Particle.

Module PowerUp.
Record t : Type := mk {
  position : Vector3.t;
  active : bool;
  pType : Z;
  rotation : float32
}.

Definition with_position (v : Vector3.t) (x : t) : t :=
  mk v (active x) (pType x) (rotation x).
Definition with_active (v : bool) (x : t) : t :=
  mk (position x) v (pType x) (rotation x).
Definition with_pType (v : Z) (x : t) : t :=
  mk (position x) (active x) v (rotation x).
Definition with_rotation (v : float32) (x : t) : t :=
  mk (position x) (active x) (pType x) v.
End PowerUp.

Module Obstacle.
Record t : Type := mk {
  position : Vector3.t;
  size : Vector3.t;
  active : bool;
  obsType : Z
}.

Definition with_position (v : Vector3.t) (x : t) : t :=
  mk v (size x) (active x) (obsType x).
Definition with_size (v : Vector3.t) (x : t) : t :=
  mk (position x) v (active x) (obsType x).
Definition with_active (v : bool) (x : t) : t :=
  mk (position x) (size x) v (obsType x).
Definition with_obsType (v : Z) (x : t) : t :=
  mk (position x) (size x) (active x) v.
End Obstacle.

Module Settings.
Record t : Type := mk {
  soundEnabled : bool;
  musicEnabled : bool;
  soundVolume : float32;
  musicVolume : float32;
  difficulty : Z
}.

Definition with_soundEnabled (v : bool) (x : t) : t :=
  mk v (musicEnabled x) (soundVolume x) (musicVolume x) (difficulty x).
Definition with_musicEnabled (v : bool) (x : t) : t :=
  mk (soundEnabled x) v (soundVolume x) (musicVolume x) (difficulty x).
Definition with_soundVolume (v : float32) (x : t) : t :=
  mk (soundEnabled x) (musicEnabled x) v (musicVolume x) (difficulty x).
Definition with_musicVolume (v : float32) (x : t) : t :=
  mk (soundEnabled x) (musicEnabled x) (soundVolume x) v (difficulty x).
Definition with_difficulty (v : Z) (x : t) : t :=
  mk (soundEnabled x) (musicEnabled x) (soundVolume x) (musicVolume x) v.
End Settings.

Module Game.
(** [randPos] is not a field of the Go struct: it counts the draws made so
    far from the global source of [math/rand]. *)
Record t : Type := mk {
  state : GameState;
  players : list Player.t;
  enemies : list Enemy.t;
  bullets : list Bullet.t;
  particles : list Particle.t;
  powerUps : list PowerUp.t;
  obstacles : list Obstacle.t;
  settings : Settings.t;
  score : Z;
  highScore : Z;
  level : Z;
  spawnTimer : float32;
  spawnInterval : float32;
  enemiesKilled : Z;
  gameTime : float32;
  bossActive : bool;
  bossSpawned : bool;
  upgradeChoice : Z;
  coopMode : bool;
  menuSelection : Z;
  settingsSelection : Z;
  currentStage : StageType;
  randPos : nat
}.

Definition with_state (v : GameState) (x : t) : t :=
  mk v (players x) (enemies x) (bullets x) (particles x) (powerUps x)
    (obstacles x) (settings x) (score x) (highScore x) (level x) (spawnTimer
    x) (spawnInterval x) (enemiesKilled x) (gameTime x) (bossActive x)
    (bossSpawned x) (upgradeChoice x) (coopMode x) (menuSelection x)
    (settingsSelection x) (currentStage x) (randPos x).
Definition with_players (v : list Player.t) (x : t) : t :=
  mk (state x) v (enemies x) (bullets x) (particles x) (powerUps x)
    (obstacles x) (settings x) (score x) (highScore x) (level x) (spawnTimer
    x) (spawnInterval x) (enemiesKilled x) (gameTime x) (bossActive x)
    (bossSpawned x) (upgradeChoice x) (coopMode x) (menuSelection x)
    (settingsSelection x) (currentStage x) (randPos x).
Definition with_enemies (v : list Enemy.t) (x : t) : t :=
  mk (state x) (players x) v (bullets x) (particles x) (powerUps x)
    (obstacles x) (settings x) (score x) (highScore x) (level x) (spawnTimer
    x) (spawnInterval x) (enemiesKilled x) (gameTime x) (bossActive x)
    (bossSpawned x) (upgradeChoice x) (coopMode x) (menuSelection x)
    (settingsSelection x) (currentStage x) (randPos x).
Definition with_bullets (v : list Bullet.t) (x : t) : t :=
  mk (state x) (players x) (enemies x) v (particles x) (powerUps x)
    (obstacles x) (settings x) (score x) (highScore x) (level x) (spawnTimer
    x) (spawnInterval x) (enemiesKilled x) (gameTime x) (bossActive x)
    (bossSpawned x) (upgradeChoice x) (coopMode x) (menuSelection x)
    (settingsSelection x) (currentStage x) (randPos x).
Definition with_particles (v : list Particle.t) (x : t) : t :=
  mk (state x) (players x) (enemies x) (bullets x) v (powerUps x) (obstacles
    x) (settings x) (score x) (highScore x) (level x) (spawnTimer x)
    (spawnInterval x) (enemiesKilled x) (gameTime x) (bossActive x)
    (bossSpawned x) (upgradeChoice x) (coopMode x) (menuSelection x)
    (settingsSelection x) (currentStage x) (randPos x).
Definition with_powerUps (v : list PowerUp.t) (x : t) : t :=
  mk (state x) (players x) (enemies x) (bullets x) (particles x) v (obstacles
    x) (settings x) (score x) (highScore x) (level x) (spawnTimer x)
    (spawnInterval x) (enemiesKilled x) (gameTime x) (bossActive x)
    (bossSpawned x) (upgradeChoice x) (coopMode x) (menuSelection x)
    (settingsSelection x) (currentStage x) (randPos x).
Definition with_obstacles (v : list Obstacle.t) (x : t) : t :=
  mk (state x) (players x) (enemies x) (bullets x) (particles x) (powerUps x)
    v (settings x) (score x) (highScore x) (level x) (spawnTimer x)
    (spawnInterval x) (enemiesKilled x) (gameTime x) (bossActive x)
    (bossSpawned x) (upgradeChoice x) (coopMode x) (menuSelection x)
    (settingsSelection x) (currentStage x) (randPos x).
Definition with_settings (v : Settings.t) (x : t) : t :=
  mk (state x) (players x) (enemies x) (bullets x) (particles x) (powerUps x)
    (obstacles x) v (score x) (highScore x) (level x) (spawnTimer x)
    (spawnInterval x) (enemiesKilled x) (gameTime x) (bossActive x)
    (bossSpawned x) (upgradeChoice x) (coopMode x) (menuSelection x)
    (settingsSelection x) (currentStage x) (randPos x).
Definition with_score (v : Z) (x : t) : t :=
  mk (state x) (players x) (enemies x) (bullets x) (particles x) (powerUps x)
    (obstacles x) (settings x) v (highScore x) (level x) (spawnTimer x)
    (spawnInterval x) (enemiesKilled x) (gameTime x) (bossActive x)
    (bossSpawned x) (upgradeChoice x) (coopMode x) (menuSelection x)
    (settingsSelection x) (currentStage x) (randPos x).
Definition with_highScore (v : Z) (x : t) : t :=
  mk (state x) (players x) (enemies x) (bullets x) (particles x) (powerUps x)
    (obstacles x) (settings x) (score x) v (level x) (spawnTimer x)
    (spawnInterval x) (enemiesKilled x) (gameTime x) (bossActive x)
    (bossSpawned x) (upgradeChoice x) (coopMode x) (menuSelection x)
    (settingsSelection x) (currentStage x) (randPos x).
Definition with_level (v : Z) (x : t) : t :=
  mk (state x) (players x) (enemies x) (bullets x) (particles x) (powerUps x)
    (obstacles x) (settings x) (score x) (highScore x) v (spawnTimer x)
    (spawnInterval x) (enemiesKilled x) (gameTime x) (bossActive x)
    (bossSpawned x) (upgradeChoice x) (coopMode x) (menuSelection x)
    (settingsSelection x) (currentStage x) (randPos x).
Definition with_spawnTimer (v : float32) (x : t) : t :=
  mk (state x) (players x) (enemies x) (bullets x) (particles x) (powerUps x)
    (obstacles x) (settings x) (score x) (highScore x) (level x) v
    (spawnInterval x) (enemiesKilled x) (gameTime x) (bossActive x)
    (bossSpawned x) (upgradeChoice x) (coopMode x) (menuSelection x)
    (settingsSelection x) (currentStage x) (randPos x).
Definition with_spawnInterval (v : float32) (x : t) : t :=
  mk (state x) (players x) (enemies x) (bullets x) (particles x) (powerUps x)
    (obstacles x) (settings x) (score x) (highScore x) (level x) (spawnTimer
    x) v (enemiesKilled x) (gameTime x) (bossActive x) (bossSpawned x)
    (upgradeChoice x) (coopMode x) (menuSelection x) (settingsSelection x)
    (currentStage x) (randPos x).
Definition with_enemiesKilled (v : Z) (x : t) : t :=
  mk (state x) (players x) (enemies x) (bullets x) (particles x) (powerUps x)
    (obstacles x) (settings x) (score x) (highScore x) (level x) (spawnTimer
    x) (spawnInterval x) v (gameTime x) (bossActive x) (bossSpawned x)
    (upgradeChoice x) (coopMode x) (menuSelection x) (settingsSelection x)
    (currentStage x) (randPos x).
Definition with_gameTime (v : float32) (x : t) : t :=
  mk (state x) (players x) (enemies x) (bullets x) (particles x) (powerUps x)
    (obstacles x) (settings x) (score x) (highScore x) (level x) (spawnTimer
    x) (spawnInterval x) (enemiesKilled x) v (bossActive x) (bossSpawned x)
    (upgradeChoice x) (coopMode x) (menuSelection x) (settingsSelection x)
    (currentStage x) (randPos x).
Definition with_bossActive (v : bool) (x : t) : t :=
  mk (state x) (players x) (enemies x) (bullets x) (particles x) (powerUps x)
    (obstacles x) (settings x) (score x) (highScore x) (level x) (spawnTimer
    x) (spawnInterval x) (enemiesKilled x) (gameTime x) v (bossSpawned x)
    (upgradeChoice x) (coopMode x) (menuSelection x) (settingsSelection x)
    (currentStage x) (randPos x).
Definition with_bossSpawned (v : bool) (x : t) : t :=
  mk (state x) (players x) (enemies x) (bullets x) (particles x) (powerUps x)
    (obstacles x) (settings x) (score x) (highScore x) (level x) (spawnTimer
    x) (spawnInterval x) (enemiesKilled x) (gameTime x) (bossActive x) v
    (upgradeChoice x) (coopMode x) (menuSelection x) (settingsSelection x)
    (currentStage x) (randPos x).
Definition with_upgradeChoice (v : Z) (x : t) : t :=
  mk (state x) (players x) (enemies x) (bullets x) (particles x) (powerUps x)
    (obstacles x) (settings x) (score x) (highScore x) (level x) (spawnTimer
    x) (spawnInterval x) (enemiesKilled x) (gameTime x) (bossActive x)
    (bossSpawned x) v (coopMode x) (menuSelection x) (settingsSelection x)
    (currentStage x) (randPos x).
Definition with_coopMode (v : bool) (x : t) : t :=
  mk (state x) (players x) (enemies x) (bullets x) (particles x) (powerUps x)
    (obstacles x) (settings x) (score x) (highScore x) (level x) (spawnTimer
    x) (spawnInterval x) (enemiesKilled x) (gameTime x) (bossActive x)
    (bossSpawned x) (upgradeChoice x) v (menuSelection x) (settingsSelection
    x) (currentStage x) (randPos x).
Definition with_menuSelection (v : Z) (x : t) : t :=
  mk (state x) (players x) (enemies x) (bullets x) (particles x) (powerUps x)
    (obstacles x) (settings x) (score x) (highScore x) (level x) (spawnTimer
    x) (spawnInterval x) (enemiesKilled x) (gameTime x) (bossActive x)
    (bossSpawned x) (upgradeChoice x) (coopMode x) v (settingsSelection x)
    (currentStage x) (randPos x).
Definition with_settingsSelection (v : Z) (x : t) : t :=
  mk (state x) (players x) (enemies x) (bullets x) (particles x) (powerUps x)
    (obstacles x) (settings x) (score x) (highScore x) (level x) (spawnTimer
    x) (spawnInterval x) (enemiesKilled x) (gameTime x) (bossActive x)
    (bossSpawned x) (upgradeChoice x) (coopMode x) (menuSelection x) v
    (currentStage x) (randPos x).
Definition with_currentStage (v : StageType) (x : t) : t :=
  mk (state x) (players x) (enemies x) (bullets x) (particles x) (powerUps x)
    (obstacles x) (settings x) (score x) (highScore x) (level x) (spawnTimer
    x) (spawnInterval x) (enemiesKilled x) (gameTime x) (bossActive x)
    (bossSpawned x) (upgradeChoice x) (coopMode x) (menuSelection x)
    (settingsSelection x) v (randPos x).
Definition with_randPos (v : nat) (x : t) : t :=
  mk (state x) (players x) (enemies x) (bullets x) (particles x) (powerUps x)
    (obstacles x) (settings x) (score x) (highScore x) (level x) (spawnTimer
    x) (spawnInterval x) (enemiesKilled x) (gameTime x) (bossActive x)
    (bossSpawned x) (upgradeChoice x) (coopMode x) (menuSelection x)
    (settingsSelection x) (currentStage x) v.
End Game.


(** ** Notations for the two floating-point formats *)

Declare Scope f32_scope.
Delimit Scope f32_scope with f32.
Infix "+" := F32.add : f32_scope.
Infix "-" := F32.sub : f32_scope.
Infix "*" := F32.mul : f32_scope.
Infix "/" := F32.div : f32_scope.
Infix "<?" := F32.ltb : f32_scope.
Infix "<=?" := F32.leb : f32_scope.
Infix ">?" := F32.gtb : f32_scope.

Declare Scope f64_scope.
Delimit Scope f64_scope with f64.
Infix "+" := F64.add : f64_scope.
Infix "-" := F64.sub : f64_scope.
Infix "*" := F64.mul : f64_scope.
Infix "/" := F64.div : f64_scope.
Infix "<?" := F64.ltb : f64_scope.
Infix "<=?" := F64.leb : f64_scope.
Infix ">?" := F64.gtb : f64_scope.

(** Index of the first slot of a pool that satisfies [free]: the scan
    [for i := range pool { if free(pool[i]) { ...; break } }]. *)
Fixpoint first_slot {A : Type} (free : A -> bool) (pool : list A) : option nat :=
  match pool with
  | [] => None
  | x :: rest => if free x then Some O else S <$> first_slot free rest
  end.

(** ** Input of one frame

    What raylib reports during one call of [Update]: the keys pressed in
    this frame, the keys held down, the left mouse button, the mouse
    position and the projection of a world position to the screen (with
    the camera of the frame). *)

Inductive Key : Type :=
| KeyUp | KeyDown | KeyLeft | KeyRight | KeyEnter | KeySpace | KeyEscape
| KeyP | KeyR | KeyW | KeyA | KeyS | KeyD | KeyQ | KeyE | KeyF
| KeyOne | KeyTwo | KeyThree | KeyFour | KeyFive
| KeyKp0 | KeyKp1 | KeyKp2 | KeyKp3 | KeyKp4 | KeyKp6 | KeyKp8.

Record Input : Type := {
  IsKeyPressed : Key -> bool;
  IsKeyDown : Key -> bool;
  IsMouseLeftDown : bool;
  GetMousePosition : float32 * float32;
  GetWorldToScreen : Vector3.t -> float32 * float32
}.

(** ** The simulation *)

(** [math/rand] and the trigonometric functions of [math]:
    [randFloat64 k], [randFloat32 k] and [randIntn k n] are the [k]-th
    draw from the global source, read as the result of [rand.Float64()],
    [rand.Float32()] or [rand.Intn(n)]. *)
Record Env : Type := {
  randFloat64 : nat -> float64;
  randFloat32 : nat -> float32;
  randIntn : nat -> Z -> Z;
  math_Cos : float64 -> float64;
  math_Sin : float64 -> float64;
  math_Atan2 : float64 -> float64 -> float64
}.

Section Simulation.

Variable env : Env.

Local Abbreviation randFloat64 := (randFloat64 env).
Local Abbreviation randFloat32 := (randFloat32 env).
Local Abbreviation randIntn := (randIntn env).
Local Abbreviation Cos := (math_Cos env).
Local Abbreviation Sin := (math_Sin env).
Local Abbreviation Atan2 := (math_Atan2 env).

Definition rand_Float64 (g : Game.t) : float64 * Game.t :=
  (randFloat64 (Game.randPos g), Game.with_randPos (S (Game.randPos g)) g).

Definition rand_Float32 (g : Game.t) : float32 * Game.t :=
  (randFloat32 (Game.randPos g), Game.with_randPos (S (Game.randPos g)) g).

(** [rand.Intn] panics when its argument is not positive. *)
Definition rand_Intn (n : Z) (g : Game.t) : result (Z * Game.t) :=
  if n <=? 0 then Panic
  else Ok (randIntn (Game.randPos g) n, Game.with_randPos (S (Game.randPos g)) g).

(** *** CheckObstacleCollision *)

(** The test of the loop body for one obstacle ("Simple AABB collision"). *)
Definition aabb_hit (pos : Vector3.t) (radius : float32) (obs : Obstacle.t) : bool :=
  let c := Obstacle.position obs in
  let sz := Obstacle.size obs in
  ((Vector3.X pos + radius >? Vector3.X c - Vector3.X sz / F32.of_int 2)
   && (Vector3.X pos - radius <? Vector3.X c + Vector3.X sz / F32.of_int 2)
   && (Vector3.Z pos + radius >? Vector3.Z c - Vector3.Z sz / F32.of_int 2)
   && (Vector3.Z pos - radius <? Vector3.Z c + Vector3.Z sz / F32.of_int 2))%f32.

Fixpoint scan_obstacles (obstacles : list Obstacle.t) (pos : Vector3.t)
    (radius : float32) : bool :=
  match obstacles with
  | [] => false
  | obs :: rest =>
      if negb (Obstacle.active obs) then scan_obstacles rest pos radius
      else if aabb_hit pos radius obs then true
      else scan_obstacles rest pos radius
  end.

Definition CheckObstacleCollision (g : Game.t) (pos : Vector3.t)
    (radius : float32) : bool :=
  scan_obstacles (Game.obstacles g) pos radius.

(** *** Stage generation *)

(** [g.obstacles[obsIndex] = o]. *)
Definition store_obstacle (obsIndex : nat) (o : Obstacle.t) (g : Game.t)
    : result Game.t :=
  if (obsIndex <? length (Game.obstacles g))%nat
  then Ok (Game.with_obstacles (<[obsIndex := o]> (Game.obstacles g)) g)
  else Panic.

(** One of the wall loops of [GenerateMaze] and [GenerateArena]: the items
    are stored at consecutive indices until the pool bound is met. *)
Fixpoint place_walls (walls : list (Vector3.t * Vector3.t)) (obsIndex : nat)
    (g : Game.t) : result (nat * Game.t) :=
  match walls with
  | [] => Ok (obsIndex, g)
  | (pos, size) :: rest =>
      if (maxObstacles <=? obsIndex)%nat then Ok (obsIndex, g)
      else
        g' ← store_obstacle obsIndex (Obstacle.mk pos size true 0) g;
        place_walls rest (S obsIndex) g'
  end.

Definition vec3 (x y z : float32) : Vector3.t := Vector3.New x y z.

Definition GenerateMaze (g : Game.t) : result Game.t :=
  '(obsIndex, g) ← place_walls
      (map (fun i => (vec3 (F32.of_int i) (F32.of_int 1) (F32.of_int 0),
                      vec3 (F32.of_int 2) (F32.of_int 3) (F32.of_int 15)))
           [-20; -10; 0; 10; 20]) O g;
  '(_, g) ← place_walls
      (map (fun i => (vec3 (F32.of_int 0) (F32.of_int 1) (F32.of_int i),
                      vec3 (F32.of_int 15) (F32.of_int 3) (F32.of_int 2)))
           [-15; -5; 5; 15]) obsIndex g;
  Ok g.

(** The loop [for i := 0; i < 10 && obsIndex < maxObstacles; i++] of
    [GenerateHazards]; [n] counts the remaining values of [i]. *)
Fixpoint hazards_loop (n : nat) (obsIndex : nat) (g : Game.t) : result Game.t :=
  match n with
  | O => Ok g
  | S n' =>
      if negb (obsIndex <? maxObstacles)%nat then Ok g
      else
        let '(r, g) := rand_Float64 g in
        let angle := (r * F64.of_int 2 * F64.Pi)%f64 in
        let '(r, g) := rand_Float64 g in
        let distance := (F64.of_int 10 + r * F64.of_int 10)%f64 in
        g ← store_obstacle obsIndex
              (Obstacle.mk
                 (vec3 (F32.of_f64 (Cos angle * distance)%f64)
                       (F32.lit 1 2)
                       (F32.of_f64 (Sin angle * distance)%f64))
                 (vec3 (F32.of_int 3) (F32.of_int 1) (F32.of_int 3))
                 true 1) g;
        hazards_loop n' (S obsIndex) g
  end.

Definition GenerateHazards (g : Game.t) : result Game.t :=
  hazards_loop 10 O g.

Definition GenerateArena (g : Game.t) : result Game.t :=
  '(_, g) ← place_walls
      [ (vec3 (F32.of_int 0) (F32.of_int 1) (F32.of_int (-18)),
         vec3 (F32.of_int 30) (F32.of_int 3) (F32.of_int 2));
        (vec3 (F32.of_int 0) (F32.of_int 1) (F32.of_int 18),
         vec3 (F32.of_int 30) (F32.of_int 3) (F32.of_int 2));
        (vec3 (F32.of_int (-18)) (F32.of_int 1) (F32.of_int 0),
         vec3 (F32.of_int 2) (F32.of_int 3) (F32.of_int 30));
        (vec3 (F32.of_int 18) (F32.of_int 1) (F32.of_int 0),
         vec3 (F32.of_int 2) (F32.of_int 3) (F32.of_int 30)) ] O g;
  Ok g.

(** The stage type that [GenerateStage] stores for a level. *)
Definition stage_of_level (level : Z) : StageType :=
  let stageNum := Int.quot (Int.sub level 1) stageInterval in
  Int.rem stageNum 4.

Definition GenerateStage (g : Game.t) : result Game.t :=
  let g := Game.with_obstacles
             (map (Obstacle.with_active false) (Game.obstacles g)) g in
  let g := Game.with_currentStage (stage_of_level (Game.level g)) g in
  if Game.currentStage g =? StageMaze then GenerateMaze g
  else if Game.currentStage g =? StageHazard then GenerateHazards g
  else if Game.currentStage g =? StageArena then GenerateArena g
  else Ok g.

(** *** Particles and pickups *)

(** One round of the outer loop of [CreateExplosion]: the first inactive
    particle is started; the four draws are made only when a slot is
    found. *)
Definition emit_particle (pos : Vector3.t) (g : Game.t) : Game.t :=
  match first_slot (fun p => negb (Particle.active p)) (Game.particles g) with
  | None => g
  | Some i =>
      let '(r, g) := rand_Float64 g in
      let angle := (r * F64.of_int 2 * F64.Pi)%f64 in
      let '(r, g) := rand_Float64 g in
      let speed := (F64.of_int 5 + r * F64.of_int 10)%f64 in
      let '(r, g) := rand_Float64 g in
      let velocity :=
        vec3 (F32.of_f64 (Cos angle * speed)%f64)
             (F32.of_f64 (r * F64.of_int 10)%f64)
             (F32.of_f64 (Sin angle * speed)%f64) in
      let '(r32, g) := rand_Float32 g in
      let lifetime := (F32.lit 1 2 + r32 * F32.lit 1 2)%f32 in
      Game.with_particles
        (<[i := Particle.mk pos velocity lifetime true]> (Game.particles g)) g
  end.

Definition CreateExplosion (pos : Vector3.t) (count : Z) (g : Game.t) : Game.t :=
  let count := int_min_via_float count 15 in
  Nat.iter (Z.to_nat count) (emit_particle pos) g.

Definition SpawnPowerUp (pos : Vector3.t) (g : Game.t) : Game.t :=
  let '(r32, g) := rand_Float32 g in
  if (r32 >? F32.lit 3 10)%f32 then g
  else
    match first_slot (fun p => negb (PowerUp.active p)) (Game.powerUps g) with
    | None => g
    | Some i =>
        (* rand.Intn(3) *)
        let pType := randIntn (Game.randPos g) 3 in
        let g := Game.with_randPos (S (Game.randPos g)) g in
        let fill pu :=
          PowerUp.with_active true
            (PowerUp.with_pType pType
               (PowerUp.with_position (Vector3.with_Y (F32.of_int 1) pos) pu)) in
        Game.with_powerUps (alter fill i (Game.powerUps g)) g
    end.

(** *** KillEnemy *)

(** The two checks that follow every level increment. *)
Definition after_level_up (g : Game.t) : result Game.t :=
  g ← (if Int.rem (Game.level g) stageInterval =? 1 then GenerateStage g
       else Ok g);
  Ok (if (Int.rem (Game.level g) 3 =? 1) && (Game.level g >? 1)
      then Game.with_state StateUpgrade g else g).

Definition KillEnemy (index : nat) (g : Game.t) : result Game.t :=
  e ← elem_at (Game.enemies g) index;
  let e := Enemy.with_active false e in
  let g := Game.with_enemies (<[index := e]> (Game.enemies g)) g in
  g ← (if Enemy.isBoss e then
         let g := Game.with_score (Int.add (Game.score g) 500) g in
         let g := Game.with_bossActive false g in
         let g := CreateExplosion (Enemy.position e) 50 g in
         let g := Game.with_level (Int.add (Game.level g) 1) g in
         let g := Game.with_bossSpawned false g in
         after_level_up g
       else
         Ok (Game.with_score
               (Int.add (Game.score g) (Int.mul 10 (Game.level g))) g));
  let g := Game.with_enemiesKilled (Int.add (Game.enemiesKilled g) 1) g in
  let g := CreateExplosion (Enemy.position e) 15 g in
  let g := SpawnPowerUp (Enemy.position e) g in
  if negb (Enemy.isBoss e)
     && (Int.rem (Game.enemiesKilled g) 20 =? 0)
     && negb (Int.rem (Game.level g) 10 =? 0)
  then
    let g := Game.with_level (Int.add (Game.level g) 1) g in
    let g := Game.with_spawnInterval
               (F32.of_f64
                  (F64.Max (F64.lit 1 2)
                     (F64.of_f32
                        (F32.lit 3 2
                         - F32.of_int (Game.level g) * F32.lit 1 20)%f32))) g in
    after_level_up g
  else Ok g.

(** *** Spawning *)

Definition SpawnBoss (g : Game.t) : Game.t :=
  match first_slot (fun e => negb (Enemy.active e)) (Game.enemies g) with
  | None => g
  | Some i =>
      let '(r, g) := rand_Float64 g in
      let angle := (r * F64.of_int 2 * F64.Pi)%f64 in
      let distance := F64.of_int 30 in
      let bossHealth := Int.add 50 (Int.mul (Game.level g) 10) in
      let bossSize := F32.of_int 4 in
      let boss :=
        Enemy.mk
          (vec3 (F32.of_f64 (Cos angle * distance)%f64)
                (F32.lit 3 2)
                (F32.of_f64 (Sin angle * distance)%f64))
          (vec3 (F32.of_int 0) (F32.of_int 0) (F32.of_int 0))
          true bossHealth bossHealth bossSize true in
      let g := Game.with_enemies (<[i := boss]> (Game.enemies g)) g in
      let g := Game.with_bossActive true g in
      Game.with_bossSpawned true g
  end.

(** The loop of [SpawnEnemy] from slot [i] on; [slots] are the slots
    [i, i+1, ...] of the pool.  A candidate position that hits an obstacle
    makes the loop [continue] with the next slot. *)
Fixpoint spawn_enemy_scan (slots : list Enemy.t) (i : nat) (g : Game.t)
    : result Game.t :=
  match slots with
  | [] => Ok g
  | slot :: rest =>
      if Enemy.active slot then spawn_enemy_scan rest (S i) g
      else
        let '(r, g) := rand_Float64 g in
        let angle := (r * F64.of_int 2 * F64.Pi)%f64 in
        let '(r, g) := rand_Float64 g in
        let distance := (F64.of_int 25 + r * F64.of_int 5)%f64 in
        let pos := vec3 (F32.of_f64 (Cos angle * distance)%f64)
                        (F32.lit 3 4)
                        (F32.of_f64 (Sin angle * distance)%f64) in
        if CheckObstacleCollision g pos (F32.of_int 1)
        then spawn_enemy_scan rest (S i) g
        else
          '(k, g) ← rand_Intn (Z.of_nat (length (Game.players g))) g;
          targetPlayer ← (if k <? 0 then Panic
                          else elem_at (Game.players g) (Z.to_nat k));
          let dx := (Vector3.X (Player.position targetPlayer) - Vector3.X pos)%f32 in
          let dz := (Vector3.Z (Player.position targetPlayer) - Vector3.Z pos)%f32 in
          let dist := F32.of_f64 (F64.Sqrt (F64.of_f32 (dx * dx + dz * dz)%f32)) in
          let '(r, g) := rand_Float64 g in
          let speed :=
            F32.of_f64 (F64.of_int 3 + r * F64.of_int 2
                        + F64.of_int (Game.level g) * F64.lit 1 2)%f64 in
          let '(r32, g) := rand_Float32 g in
          let size := (F32.of_int 1 + r32 * F32.lit 1 2)%f32 in
          (* rand.Intn(56), for the colour *)
          let g := Game.with_randPos (S (Game.randPos g)) g in
          let health := Int.add 1 (Int.quot (Int.sub (Game.level g) 1) 3) in
          let enemy :=
            Enemy.mk
              (vec3 (Vector3.X pos) (Vector3.Y pos) (Vector3.Z pos))
              (vec3 (dx / dist * speed)%f32 (F32.of_int 0) (dz / dist * speed)%f32)
              true health health size false in
          Ok (Game.with_enemies (<[i := enemy]> (Game.enemies g)) g)
  end.

Definition SpawnEnemy (g : Game.t) : result Game.t :=
  spawn_enemy_scan (Game.enemies g) O g.

(** *** Shooting and skills

    A [*Player] argument always points into [g.players]; it is the index
    [pIdx] of the player. *)

Definition store_player (pIdx : nat) (p : Player.t) (g : Game.t) : Game.t :=
  Game.with_players (<[pIdx := p]> (Game.players g)) g.

Definition ShootBullet (pIdx : nat) (g : Game.t) : result Game.t :=
  player ← elem_at (Game.players g) pIdx;
  let now := Game.gameTime g in
  if (now - Player.lastShot player <? PlayerStats.fireRate (Player.stats player))%f32
  then Ok g
  else
    match first_slot (fun b => negb (Bullet.active b)) (Game.bullets g) with
    | None => Ok g
    | Some i =>
        let position := Vector3.with_Y (F32.of_int 1) (Player.position player) in
        let dirX := F32.of_f64 (Cos (F64.of_f32 (Player.angle player))) in
        let dirZ := F32.of_f64 (Sin (F64.of_f32 (Player.angle player))) in
        let speed := F32.of_int 40 in
        let velocity := vec3 (dirX * speed)%f32 (F32.of_int 0) (dirZ * speed)%f32 in
        let damage := PlayerStats.damage (Player.stats player) in
        let '(r32, g) := rand_Float32 g in
        let damage :=
          if (r32 <? PlayerStats.critChance (Player.stats player))%f32
          then Int.mul damage 3 else damage in
        let bullet := Bullet.mk position velocity true damage (Player.id player) in
        let g := Game.with_bullets (<[i := bullet]> (Game.bullets g)) g in
        Ok (store_player pIdx (Player.with_lastShot now player) g)
    end.

(** [player.skills[skillIndex]]: the index is an [int]. *)
Definition skill_at (player : Player.t) (skillIndex : Z) : result Skill.t :=
  if skillIndex <? 0 then Panic
  else elem_at (Player.skills player) (Z.to_nat skillIndex).

(** Body of the enemy loop of the Explosion skill. *)
Definition explosion_hit (player : Player.t) (i : nat) (g : Game.t)
    : result Game.t :=
  e ← elem_at (Game.enemies g) i;
  if negb (Enemy.active e) then Ok g
  else
    let dx := (Vector3.X (Enemy.position e) - Vector3.X (Player.position player))%f32 in
    let dz := (Vector3.Z (Enemy.position e) - Vector3.Z (Player.position player))%f32 in
    let dist := F64.Sqrt (F64.of_f32 (dx * dx + dz * dz)%f32) in
    if negb (dist <? F64.of_int 10)%f64 then Ok g
    else
      let damage :=
        if Enemy.isBoss e
        then Int.mul 10 (PlayerStats.damage (Player.stats player))
        else Int.mul 3 (PlayerStats.damage (Player.stats player)) in
      let e := Enemy.with_health (Int.sub (Enemy.health e) damage) e in
      let g := Game.with_enemies (<[i := e]> (Game.enemies g)) g in
      let g := CreateExplosion (Enemy.position e) 10 g in
      if Enemy.health e <=? 0 then KillEnemy i g else Ok g.

(** One direction of the Radial Shot. *)
Definition radial_shot (player : Player.t) (g : Game.t) (deg : Z) : Game.t :=
  let rad := (F64.of_int deg * F64.Pi / F64.of_int 180)%f64 in
  match first_slot (fun b => negb (Bullet.active b)) (Game.bullets g) with
  | None => g
  | Some i =>
      let position := Vector3.with_Y (F32.of_int 1) (Player.position player) in
      let speed := F32.of_int 35 in
      let velocity := vec3 (F32.of_f64 (Cos rad) * speed)%f32
                           (F32.of_int 0)
                           (F32.of_f64 (Sin rad) * speed)%f32 in
      let bullet :=
        Bullet.mk position velocity true
          (PlayerStats.damage (Player.stats player)) (Player.id player) in
      Game.with_bullets (<[i := bullet]> (Game.bullets g)) g
  end.

Definition UseSkill (pIdx : nat) (skillIndex : Z) (g : Game.t) : result Game.t :=
  player ← elem_at (Game.players g) pIdx;
  sk ← skill_at player skillIndex;
  if negb (Skill.ready sk) then Ok g
  else
    g ← (if skillIndex =? 0 then
           g ← for_range (explosion_hit player) O (length (Game.enemies g)) g;
           Ok (CreateExplosion (Player.position player) 30 g)
         else if skillIndex =? 1 then
           Ok (foldl (radial_shot player) g
                 [0; 30; 60; 90; 120; 150; 180; 210; 240; 270; 300; 330])
         else if skillIndex =? 2 then
           let healAmount := 30 in
           let health :=
             int_min_via_float (Int.add (Player.health player) healAmount)
               (PlayerStats.maxHealth (Player.stats player)) in
           let g := store_player pIdx (Player.with_health health player) g in
           Ok (CreateExplosion (Player.position player) 20 g)
         else Ok g);
    player ← elem_at (Game.players g) pIdx;
    sk ← skill_at player skillIndex;
    let sk := Skill.with_ready false sk in
    let sk := Skill.with_cooldown (Skill.maxCooldown sk) sk in
    let skills := <[Z.to_nat skillIndex := sk]> (Player.skills player) in
    Ok (store_player pIdx (Player.with_skills skills player) g).

(** *** Players, reset and upgrades *)

Definition default_stats : PlayerStats.t :=
  PlayerStats.mk 100 1 (F32.of_int 12) (F32.lit 3 20) (F32.lit 1 20) 0.

Definition createPlayer (id : Z) (pos : Vector3.t) : Player.t :=
  let stats := default_stats in
  let skills :=
    [ Skill.mk "Explosion" (F32.of_int 0) (F32.of_int 8) true;
      Skill.mk "Radial Shot" (F32.of_int 0) (F32.of_int 10) true;
      Skill.mk "Energy Shield" (F32.of_int 0) (F32.of_int 15) true ] in
  Player.mk pos (F32.of_int 0) (PlayerStats.maxHealth stats) stats
    (F32.of_int 0) skills id.

(** [g.players[i].stats.maxHealth = h; g.players[i].health = h]. *)
Definition set_health_preset (h : Z) (p : Player.t) : Player.t :=
  Player.with_health h
    (Player.with_stats (PlayerStats.with_maxHealth h (Player.stats p)) p).

Definition reset_player (coopMode : bool) (i : nat) (p : Player.t) : Player.t :=
  let position :=
    if coopMode then
      if Nat.eqb i 0 then vec3 (F32.of_int (-3)) (F32.lit 1 2) (F32.of_int 0)
      else vec3 (F32.of_int 3) (F32.lit 1 2) (F32.of_int 0)
    else vec3 (F32.of_int 0) (F32.lit 1 2) (F32.of_int 0) in
  let p := Player.with_position position p in
  let p := Player.with_angle (F32.of_int 0) p in
  let p := Player.with_stats default_stats p in
  let p := Player.with_health (PlayerStats.maxHealth (Player.stats p)) p in
  let p := Player.with_lastShot (F32.of_int 0) p in
  Player.with_skills
    (map (fun sk => Skill.with_ready true (Skill.with_cooldown (F32.of_int 0) sk))
         (Player.skills p)) p.

Definition ResetGame (g : Game.t) : result Game.t :=
  let g := Game.with_players
             (imap (reset_player (Game.coopMode g)) (Game.players g)) g in
  let g := Game.with_score 0 g in
  let g := Game.with_level 1 g in
  let g := Game.with_spawnTimer (F32.of_int 0) g in
  let g := Game.with_spawnInterval (F32.lit 3 2) g in
  let g := Game.with_enemiesKilled 0 g in
  let g := Game.with_gameTime (F32.of_int 0) g in
  let g := Game.with_bossActive false g in
  let g := Game.with_bossSpawned false g in
  let g := Game.with_upgradeChoice (-1) g in
  let g := Game.with_currentStage StageBasic g in
  let difficulty := Settings.difficulty (Game.settings g) in
  let g :=
    if difficulty =? 0 then
      Game.with_players (map (set_health_preset 150) (Game.players g))
        (Game.with_spawnInterval (F32.of_int 2) g)
    else if difficulty =? 2 then
      Game.with_players (map (set_health_preset 75) (Game.players g))
        (Game.with_spawnInterval (F32.of_int 1) g)
    else g in
  let g := Game.with_enemies (map (Enemy.with_active false) (Game.enemies g)) g in
  let g := Game.with_bullets (map (Bullet.with_active false) (Game.bullets g)) g in
  let g := Game.with_particles
             (map (Particle.with_active false) (Game.particles g)) g in
  let g := Game.with_powerUps
             (map (PowerUp.with_active false) (Game.powerUps g)) g in
  let g := Game.with_obstacles
             (map (Obstacle.with_active false) (Game.obstacles g)) g in
  GenerateStage g.

Definition StartGame (coopMode : bool) (g : Game.t) : result Game.t :=
  let g := Game.with_coopMode coopMode g in
  let g := Game.with_state StatePlaying g in
  let g :=
    if coopMode then
      Game.with_players
        [ createPlayer 0 (vec3 (F32.of_int (-3)) (F32.lit 1 2) (F32.of_int 0));
          createPlayer 1 (vec3 (F32.of_int 3) (F32.lit 1 2) (F32.of_int 0)) ] g
    else
      Game.with_players
        [ createPlayer 0 (vec3 (F32.of_int 0) (F32.lit 1 2) (F32.of_int 0)) ] g in
  ResetGame g.

Definition upgrade_player (choice : Z) (p : Player.t) : Player.t :=
  let st := Player.stats p in
  if choice =? 0 then
    let st := PlayerStats.with_maxHealth
                (Int.add (PlayerStats.maxHealth st) 20) st in
    Player.with_health (PlayerStats.maxHealth st) (Player.with_stats st p)
  else if choice =? 1 then
    Player.with_stats
      (PlayerStats.with_damage (Int.add (PlayerStats.damage st) 1) st) p
  else if choice =? 2 then
    Player.with_stats
      (PlayerStats.with_speed (PlayerStats.speed st + F32.of_int 2)%f32 st) p
  else if choice =? 3 then
    Player.with_stats
      (PlayerStats.with_fireRate
         (F32.of_f64
            (F64.Max (F64.of_f32 (PlayerStats.fireRate st - F32.lit 1 50)%f32)
                     (F64.lit 1 20))) st) p
  else if choice =? 4 then
    Player.with_stats
      (PlayerStats.with_critChance
         (F32.of_f64
            (F64.Min (F64.of_f32 (PlayerStats.critChance st + F32.lit 1 20)%f32)
                     (F64.lit 1 2))) st) p
  else p.

Definition ApplyUpgrade (choice : Z) (g : Game.t) : Game.t :=
  let g := Game.with_players (map (upgrade_player choice) (Game.players g)) g in
  let g := Game.with_state StatePlaying g in
  Game.with_upgradeChoice (-1) g.

Definition clampPlayerToStageBounds (stage : StageType) (margin : float32)
    (p : Player.t) : Player.t :=
  let half :=
    if stage =? StageArena then (F32.of_int 18 - margin)%f32
    else if stage =? StageMaze then (F32.of_int 28 - margin)%f32
    else if stage =? StageHazard then (F32.of_int 29 - margin)%f32
    else (F32.of_int 30 - margin)%f32 in
  let pos := Player.position p in
  let pos := if (Vector3.X pos <? F32.neg half)%f32
             then Vector3.with_X (F32.neg half) pos else pos in
  let pos := if (Vector3.X pos >? half)%f32
             then Vector3.with_X half pos else pos in
  let pos := if (Vector3.Z pos <? F32.neg half)%f32
             then Vector3.with_Z (F32.neg half) pos else pos in
  let pos := if (Vector3.Z pos >? half)%f32
             then Vector3.with_Z half pos else pos in
  Player.with_position pos p.

(** *** Menu and settings *)

Definition UpdateMenu (inp : Input) (g : Game.t) : result Game.t :=
  let g :=
    if IsKeyPressed inp KeyUp then
      let g := Game.with_menuSelection (Int.sub (Game.menuSelection g) 1) g in
      if Game.menuSelection g <? 0 then Game.with_menuSelection 3 g else g
    else g in
  let g :=
    if IsKeyPressed inp KeyDown then
      let g := Game.with_menuSelection (Int.add (Game.menuSelection g) 1) g in
      if Game.menuSelection g >? 3 then Game.with_menuSelection 0 g else g
    else g in
  if IsKeyPressed inp KeyEnter || IsKeyPressed inp KeySpace then
    if Game.menuSelection g =? 0 then StartGame false g
    else if Game.menuSelection g =? 1 then StartGame true g
    else if Game.menuSelection g =? 2 then Ok (Game.with_state StateSettings g)
    else if Game.menuSelection g =? 3 then Exit
    else Ok g
  else Ok g.

Definition change_setting (right : bool) (sel : Z) (s : Settings.t) : Settings.t :=
  if sel =? 0 then Settings.with_soundEnabled (negb (Settings.soundEnabled s)) s
  else if sel =? 1 then Settings.with_musicEnabled (negb (Settings.musicEnabled s)) s
  else if sel =? 2 then
    if right then
      Settings.with_soundVolume
        (F32.of_f64 (F64.Min (F64.of_int 1)
           (F64.of_f32 (Settings.soundVolume s + F32.lit 1 10)%f32))) s
    else
      Settings.with_soundVolume
        (F32.of_f64 (F64.Max (F64.of_int 0)
           (F64.of_f32 (Settings.soundVolume s - F32.lit 1 10)%f32))) s
  else if sel =? 3 then
    if right then
      Settings.with_musicVolume
        (F32.of_f64 (F64.Min (F64.of_int 1)
           (F64.of_f32 (Settings.musicVolume s + F32.lit 1 10)%f32))) s
    else
      Settings.with_musicVolume
        (F32.of_f64 (F64.Max (F64.of_int 0)
           (F64.of_f32 (Settings.musicVolume s - F32.lit 1 10)%f32))) s
  else if sel =? 4 then
    if right then
      let s := Settings.with_difficulty (Int.add (Settings.difficulty s) 1) s in
      if Settings.difficulty s >? 2 then Settings.with_difficulty 2 s else s
    else
      let s := Settings.with_difficulty (Int.sub (Settings.difficulty s) 1) s in
      if Settings.difficulty s <? 0 then Settings.with_difficulty 0 s else s
  else s.

Definition UpdateSettings (inp : Input) (g : Game.t) : Game.t :=
  let g :=
    if IsKeyPressed inp KeyUp then
      let g := Game.with_settingsSelection
                 (Int.sub (Game.settingsSelection g) 1) g in
      if Game.settingsSelection g <? 0 then Game.with_settingsSelection 5 g else g
    else g in
  let g :=
    if IsKeyPressed inp KeyDown then
      let g := Game.with_settingsSelection
                 (Int.add (Game.settingsSelection g) 1) g in
      if Game.settingsSelection g >? 5 then Game.with_settingsSelection 0 g else g
    else g in
  let g :=
    if IsKeyPressed inp KeyLeft || IsKeyPressed inp KeyRight then
      Game.with_settings
        (change_setting (IsKeyPressed inp KeyRight) (Game.settingsSelection g)
           (Game.settings g)) g
    else g in
  if IsKeyPressed inp KeyEscape
     || ((Game.settingsSelection g =? 5)
         && (IsKeyPressed inp KeyEnter || IsKeyPressed inp KeySpace))
  then Game.with_state StateMenu g
  else g.

(** *** Update: players *)

Definition modify_player (pIdx : nat) (f : Player.t -> Player.t) (g : Game.t)
    : Game.t :=
  Game.with_players (alter f pIdx (Game.players g)) g.

(** The cooldown step of one skill. *)
Definition update_cooldown (dt : float32) (sk : Skill.t) : Skill.t :=
  if negb (Skill.ready sk) then
    let sk := Skill.with_cooldown (Skill.cooldown sk - dt)%f32 sk in
    if (Skill.cooldown sk <=? F32.of_int 0)%f32
    then Skill.with_cooldown (F32.of_int 0) (Skill.with_ready true sk)
    else sk
  else sk.

(** The movement keys of one control scheme, applied to [newPos]. *)
Definition move_keys (inp : Input) (up down left right : Key) (speed : float32)
    (newPos : Vector3.t) : Vector3.t :=
  let newPos := if IsKeyDown inp up
                then Vector3.with_Z (Vector3.Z newPos - speed)%f32 newPos
                else newPos in
  let newPos := if IsKeyDown inp down
                then Vector3.with_Z (Vector3.Z newPos + speed)%f32 newPos
                else newPos in
  if IsKeyDown inp left
  then Vector3.with_X (Vector3.X newPos - speed)%f32 newPos
  else if IsKeyDown inp right
  then Vector3.with_X (Vector3.X newPos + speed)%f32 newPos
  else newPos.

(** [float32(math.Sqrt(float64(dx*dx + dz*dz)))] and its [float64] form. *)
Definition hyp64 (dx dz : float32) : float64 :=
  F64.Sqrt (F64.of_f32 (dx * dx + dz * dz)%f32).
Definition hyp32 (dx dz : float32) : float32 := F32.of_f64 (hyp64 dx dz).

(** Player 1 shoots with the mouse button or Space, then turns to the
    mouse. *)
Definition controls_p1 (inp : Input) (pIdx : nat) (g : Game.t) : result Game.t :=
  g ← (if IsMouseLeftDown inp || IsKeyDown inp KeySpace
       then ShootBullet pIdx g else Ok g);
  player ← elem_at (Game.players g) pIdx;
  let mousePos := GetMousePosition inp in
  let screenPos := GetWorldToScreen inp (Player.position player) in
  let dx := (mousePos.1 - screenPos.1)%f32 in
  let dy := (mousePos.2 - screenPos.2)%f32 in
  Ok (modify_player pIdx
        (Player.with_angle (F32.of_f64 (Atan2 (F64.of_f32 dy) (F64.of_f32 dx)))) g).

Definition aim_and_shoot (pIdx : nat) (angle : float32) (g : Game.t)
    : result Game.t :=
  ShootBullet pIdx (modify_player pIdx (Player.with_angle angle) g).

(** The auto-aim scan of player 2: the nearest active enemy, if any. *)
Definition nearest_enemy (player : Player.t) (enemies : list Enemy.t)
    : option Enemy.t :=
  (foldl
     (fun acc e =>
        if negb (Enemy.active e) then acc
        else
          let dx := (Vector3.X (Enemy.position e)
                     - Vector3.X (Player.position player))%f32 in
          let dz := (Vector3.Z (Enemy.position e)
                     - Vector3.Z (Player.position player))%f32 in
          let d := hyp32 dx dz in
          if (d <? acc.1)%f32 then (d, Some e) else acc)
     (F32.of_int 1000000, None) enemies).2.

Definition controls_p2 (inp : Input) (pIdx : nat) (g : Game.t) : result Game.t :=
  g ← (if IsKeyDown inp KeyKp8
       then aim_and_shoot pIdx (F32.neg F32.half_Pi) g else Ok g);
  g ← (if IsKeyDown inp KeyKp2 then aim_and_shoot pIdx F32.half_Pi g else Ok g);
  g ← (if IsKeyDown inp KeyKp4 then aim_and_shoot pIdx F32.Pi g else Ok g);
  g ← (if IsKeyDown inp KeyKp6 then aim_and_shoot pIdx (F32.of_int 0) g else Ok g);
  if IsKeyPressed inp KeyKp0 then
    player ← elem_at (Game.players g) pIdx;
    match nearest_enemy player (Game.enemies g) with
    | None => Ok g
    | Some nearest =>
        let ang :=
          F32.of_f64
            (Atan2
               (F64.of_f32 (Vector3.Z (Enemy.position nearest)
                            - Vector3.Z (Player.position player))%f32)
               (F64.of_f32 (Vector3.X (Enemy.position nearest)
                            - Vector3.X (Player.position player))%f32)) in
        aim_and_shoot pIdx ang g
    end
  else Ok g.

(** The three skill keys of a player; [k0], [k1], [k2] tell whether the
    key of the skill was pressed. *)
Definition skill_keys (pIdx : nat) (k0 k1 k2 : bool) (g : Game.t)
    : result Game.t :=
  g ← (if k0 then UseSkill pIdx 0 g else Ok g);
  g ← (if k1 then UseSkill pIdx 1 g else Ok g);
  if k2 then UseSkill pIdx 2 g else Ok g.

(** Body of the loop [for pIdx := range g.players]. *)
Definition update_player (inp : Input) (dt : float32) (pIdx : nat) (g : Game.t)
    : result Game.t :=
  player ← elem_at (Game.players g) pIdx;
  let g := modify_player pIdx
             (fun p => Player.with_skills
                         (map (update_cooldown dt) (Player.skills p)) p) g in
  let speed := (PlayerStats.speed (Player.stats player) * dt)%f32 in
  let newPos := Player.position player in
  '(newPos, g) ←
     (if Nat.eqb pIdx 0 then
        let newPos := move_keys inp KeyW KeyS KeyA KeyD speed newPos in
        g ← controls_p1 inp pIdx g; Ok (newPos, g)
      else if Nat.eqb pIdx 1 && Game.coopMode g then
        let newPos := move_keys inp KeyUp KeyDown KeyLeft KeyRight speed newPos in
        g ← controls_p2 inp pIdx g; Ok (newPos, g)
      else Ok (newPos, g));
  g ← (if Nat.eqb pIdx 0 then
         skill_keys pIdx (IsKeyPressed inp KeyQ) (IsKeyPressed inp KeyE)
           (IsKeyPressed inp KeyF) g
       else if Nat.eqb pIdx 1 && Game.coopMode g then
         skill_keys pIdx
           (IsKeyPressed inp KeyKp1 || IsKeyPressed inp KeyOne)
           (IsKeyPressed inp KeyKp2 || IsKeyPressed inp KeyTwo)
           (IsKeyPressed inp KeyKp3 || IsKeyPressed inp KeyThree) g
       else Ok g);
  let g := if negb (CheckObstacleCollision g newPos (F32.lit 9 10))
           then modify_player pIdx (Player.with_position newPos) g else g in
  Ok (modify_player pIdx
        (clampPlayerToStageBounds (Game.currentStage g) (F32.lit 9 10)) g).

(** *** Update: bullets *)

Definition update_bullet (dt : float32) (i : nat) (g : Game.t) : result Game.t :=
  b ← elem_at (Game.bullets g) i;
  if negb (Bullet.active b) then Ok g
  else
    let newPos :=
      vec3 (Vector3.X (Bullet.position b) + Vector3.X (Bullet.velocity b) * dt)%f32
           (Vector3.Y (Bullet.position b))
           (Vector3.Z (Bullet.position b) + Vector3.Z (Bullet.velocity b) * dt)%f32 in
    if CheckObstacleCollision g newPos (F32.lit 3 10) then
      let g := Game.with_bullets
                 (<[i := Bullet.with_active false b]> (Game.bullets g)) g in
      Ok (CreateExplosion (Bullet.position b) 5 g)
    else
      let b := Bullet.with_position newPos b in
      let b :=
        if (F64.Abs (F64.of_f32 (Vector3.Z (Bullet.position b))) >? F64.of_int 40)%f64
           || (F64.Abs (F64.of_f32 (Vector3.X (Bullet.position b))) >? F64.of_int 40)%f64
        then Bullet.with_active false b else b in
      Ok (Game.with_bullets (<[i := b]> (Game.bullets g)) g).

(** *** Update: spawning *)

(** The block guarded by [if !g.bossActive]. *)
Definition update_spawn (dt : float32) (g : Game.t) : result Game.t :=
  if negb (Game.bossActive g) then
    let g := Game.with_spawnTimer (Game.spawnTimer g + dt)%f32 g in
    if (Game.spawnTimer g >? Game.spawnInterval g)%f32 then
      let g := Game.with_spawnTimer (F32.of_int 0) g in
      let activeCount :=
        foldl (fun n e => if Enemy.active e && negb (Enemy.isBoss e)
                          then Int.add n 1 else n) 0 (Game.enemies g) in
      if activeCount <? Int.add 10 (Int.mul (Game.level g) 2)
      then SpawnEnemy g else Ok g
    else Ok g
  else Ok g.

(** *** Update: enemies *)

(** The scan for the player nearest to [pos]; [nearest] starts as 0. *)
Fixpoint nearest_player_scan (pos : Vector3.t) (players : list Player.t)
    (pIdx : nat) (minDist : float32) (nearest : nat) : nat :=
  match players with
  | [] => nearest
  | p :: rest =>
      let dx := (Vector3.X (Player.position p) - Vector3.X pos)%f32 in
      let dz := (Vector3.Z (Player.position p) - Vector3.Z pos)%f32 in
      let dist := hyp32 dx dz in
      if (dist <? minDist)%f32
      then nearest_player_scan pos rest (S pIdx) dist pIdx
      else nearest_player_scan pos rest (S pIdx) minDist nearest
  end.

(** The new position is committed unless it hits an obstacle. *)
Definition try_move (g : Game.t) (newPos : Vector3.t) (e : Enemy.t) : Enemy.t :=
  if negb (CheckObstacleCollision g newPos (Enemy.size e / F32.of_int 2)%f32)
  then Enemy.with_position newPos e else e.

Definition move_enemy (g : Game.t) (dt : float32) (nearestPlayer : Player.t)
    (e : Enemy.t) : Enemy.t :=
  let target := Player.position nearestPlayer in
  let pos := Enemy.position e in
  let dx := (Vector3.X target - Vector3.X pos)%f32 in
  let dz := (Vector3.Z target - Vector3.Z pos)%f32 in
  let dist := hyp32 dx dz in
  if Enemy.isBoss e then
    if (dist >? F32.of_int 5)%f32 then
      let speed := F32.of_f64 (F64.of_int 6
                               + F64.of_int (Game.level g) * F64.lit 3 10)%f64 in
      let newPos := vec3 (Vector3.X pos + dx / dist * speed * dt)%f32
                         (Vector3.Y pos)
                         (Vector3.Z pos + dz / dist * speed * dt)%f32 in
      try_move g newPos e
    else
      let angle := (Game.gameTime g * F32.of_int 1)%f32 in
      let radius := F32.of_int 8 in
      let targetX := (Vector3.X target
                      + F32.of_f64 (Cos (F64.of_f32 angle)) * radius)%f32 in
      let targetZ := (Vector3.Z target
                      + F32.of_f64 (Sin (F64.of_f32 angle)) * radius)%f32 in
      let dx := (targetX - Vector3.X pos)%f32 in
      let dz := (targetZ - Vector3.Z pos)%f32 in
      let speed := F32.of_int 8 in
      let newPos := vec3 (Vector3.X pos + dx * speed * dt * F32.lit 1 10)%f32
                         (Vector3.Y pos)
                         (Vector3.Z pos + dz * speed * dt * F32.lit 1 10)%f32 in
      try_move g newPos e
  else
    let e :=
      if (dist >? F32.lit 1 10)%f32 then
        let v := Enemy.velocity e in
        let speed := hyp32 (Vector3.X v) (Vector3.Z v) in
        Enemy.with_velocity
          (Vector3.with_Z (dz / dist * speed)%f32
             (Vector3.with_X (dx / dist * speed)%f32 v)) e
      else e in
    let v := Enemy.velocity e in
    let newPos := vec3 (Vector3.X pos + Vector3.X v * dt)%f32
                       (Vector3.Y pos)
                       (Vector3.Z pos + Vector3.Z v * dt)%f32 in
    try_move g newPos e.

(** Body of the loop "Collision with players" for enemy [i]. *)
Definition enemy_contact (i : nat) (pIdx : nat) (g : Game.t) : result Game.t :=
  player ← elem_at (Game.players g) pIdx;
  e ← elem_at (Game.enemies g) i;
  let dx := (Vector3.X (Player.position player) - Vector3.X (Enemy.position e))%f32 in
  let dz := (Vector3.Z (Player.position player) - Vector3.Z (Enemy.position e))%f32 in
  let playerDist := hyp32 dx dz in
  let collisionDist := if Enemy.isBoss e then F32.of_int 3 else F32.lit 3 2 in
  if (playerDist <? collisionDist)%f32 then
    let damage := if Enemy.isBoss e then 30 else 20 in
    let player := Player.with_health (Int.sub (Player.health player) damage) player in
    let g := store_player pIdx player g in
    let g := CreateExplosion (Player.position player) 10 g in
    let e :=
      if (playerDist >? F32.of_int 0)%f32 then
        let pushDist := F32.of_int 3 in
        let pos := Enemy.position e in
        let pos := Vector3.with_X
                     (Vector3.X pos
                      + (Vector3.X pos - Vector3.X (Player.position player))
                        / playerDist * pushDist)%f32 pos in
        let pos := Vector3.with_Z
                     (Vector3.Z pos
                      + (Vector3.Z pos - Vector3.Z (Player.position player))
                        / playerDist * pushDist)%f32 pos in
        Enemy.with_position pos e
      else e in
    let g := Game.with_enemies (<[i := e]> (Game.enemies g)) g in
    if Player.health player <=? 0 then
      let g := Game.with_state StateGameOver g in
      Ok (if Game.score g >? Game.highScore g
          then Game.with_highScore (Game.score g) g else g)
    else Ok g
  else Ok g.

(** Body of the loop "Collision with bullets" for enemy [i]. *)
Definition enemy_bullet (i : nat) (j : nat) (g : Game.t) : result Game.t :=
  b ← elem_at (Game.bullets g) j;
  if negb (Bullet.active b) then Ok g
  else
    e ← elem_at (Game.enemies g) i;
    let dx := (Vector3.X (Bullet.position b) - Vector3.X (Enemy.position e))%f32 in
    let dz := (Vector3.Z (Bullet.position b) - Vector3.Z (Enemy.position e))%f32 in
    let dist := hyp64 dx dz in
    if (dist <? F64.of_f32 (Enemy.size e))%f64 then
      let e := Enemy.with_health (Int.sub (Enemy.health e) (Bullet.damage b)) e in
      let g := Game.with_enemies (<[i := e]> (Game.enemies g)) g in
      let g := Game.with_bullets
                 (<[j := Bullet.with_active false b]> (Game.bullets g)) g in
      let g := CreateExplosion (Enemy.position e) 5 g in
      if Enemy.health e <=? 0 then KillEnemy i g else Ok g
    else Ok g.

(** Body of the loop [for i := range g.enemies]. *)
Definition update_enemy (dt : float32) (i : nat) (g : Game.t) : result Game.t :=
  e ← elem_at (Game.enemies g) i;
  if negb (Enemy.active e) then Ok g
  else
    _ ← elem_at (Game.players g) O;
    let nearest := nearest_player_scan (Enemy.position e) (Game.players g) O
                     (F32.of_int 999999) O in
    nearestPlayer ← elem_at (Game.players g) nearest;
    let e := move_enemy g dt nearestPlayer e in
    let g := Game.with_enemies (<[i := e]> (Game.enemies g)) g in
    g ← for_range (enemy_contact i) O (length (Game.players g)) g;
    for_range (enemy_bullet i) O (length (Game.bullets g)) g.

(** *** Update: particles and pickups *)

Definition update_particle (dt : float32) (p : Particle.t) : Particle.t :=
  if Particle.active p then
    let pos := Particle.position p in
    let v := Particle.velocity p in
    let pos := vec3 (Vector3.X pos + Vector3.X v * dt)%f32
                    (Vector3.Y pos + Vector3.Y v * dt)%f32
                    (Vector3.Z pos + Vector3.Z v * dt)%f32 in
    let v := Vector3.with_Y (Vector3.Y v - F32.of_int 20 * dt)%f32 v in
    let lifetime := (Particle.lifetime p - dt)%f32 in
    Particle.mk pos v lifetime
      (if (lifetime <=? F32.of_int 0)%f32 then false else true)
  else p.

(** The effect of a pickup of kind [pType] on the player who takes it. *)
Definition grant_pickup (pType : Z) (player : Player.t) : Player.t :=
  let st := Player.stats player in
  if pType =? 0 then
    Player.with_health
      (int_min_via_float (Int.add (Player.health player) 30)
         (PlayerStats.maxHealth st)) player
  else if pType =? 1 then
    Player.with_stats
      (PlayerStats.with_speed
         (F32.of_f64 (F64.Min (F64.of_f32 (PlayerStats.speed st + F32.of_int 2)%f32)
                              (F64.of_int 20))) st) player
  else if pType =? 2 then
    Player.with_stats
      (PlayerStats.with_fireRate
         (F32.of_f64 (F64.Max (F64.of_f32 (PlayerStats.fireRate st - F32.lit 1 50)%f32)
                              (F64.lit 1 20))) st) player
  else player.

(** Body of the player loop of a pickup; [true] is the [break]. *)
Definition pickup_contact (i : nat) (pIdx : nat) (g : Game.t)
    : result (bool * Game.t) :=
  player ← elem_at (Game.players g) pIdx;
  pu ← elem_at (Game.powerUps g) i;
  let dx := (Vector3.X (Player.position player) - Vector3.X (PowerUp.position pu))%f32 in
  let dz := (Vector3.Z (Player.position player) - Vector3.Z (PowerUp.position pu))%f32 in
  let dist := hyp64 dx dz in
  if (dist <? F64.of_int 2)%f64 then
    let pu := PowerUp.with_active false pu in
    let g := Game.with_powerUps (<[i := pu]> (Game.powerUps g)) g in
    let g := store_player pIdx (grant_pickup (PowerUp.pType pu) player) g in
    Ok (true, CreateExplosion (PowerUp.position pu) 8 g)
  else Ok (false, g).

Definition update_powerUp (dt : float32) (i : nat) (g : Game.t) : result Game.t :=
  pu ← elem_at (Game.powerUps g) i;
  if negb (PowerUp.active pu) then Ok g
  else
    let pu := PowerUp.with_rotation (PowerUp.rotation pu + F32.of_int 90 * dt)%f32 pu in
    let g := Game.with_powerUps (<[i := pu]> (Game.powerUps g)) g in
    for_range_break (pickup_contact i) O (length (Game.players g)) g.

(** *** Update *)

(** The simulation step of the Playing state (after the pause key). *)
Definition update_playing (inp : Input) (dt : float32) (g : Game.t)
    : result Game.t :=
  let g := Game.with_gameTime (Game.gameTime g + dt)%f32 g in
  g ← for_range (update_player inp dt) O (length (Game.players g)) g;
  g ← for_range (update_bullet dt) O (length (Game.bullets g)) g;
  let g := if (Int.rem (Game.level g) 5 =? 0) && negb (Game.bossSpawned g)
           then SpawnBoss g else g in
  g ← update_spawn dt g;
  g ← for_range (update_enemy dt) O (length (Game.enemies g)) g;
  let g := Game.with_particles (map (update_particle dt) (Game.particles g)) g in
  for_range (update_powerUp dt) O (length (Game.powerUps g)) g.

Definition press (inp : Input) (k : Key) (f : Game.t -> Game.t) (g : Game.t)
    : Game.t :=
  if IsKeyPressed inp k then f g else g.

Definition Update (inp : Input) (dt : float32) (g : Game.t) : result Game.t :=
  match Game.state g with
  | StateMenu => UpdateMenu inp g
  | StateSettings => Ok (UpdateSettings inp g)
  | StateGameOver =>
      g ← (if IsKeyPressed inp KeyR
           then g ← ResetGame g; Ok (Game.with_state StatePlaying g)
           else Ok g);
      Ok (press inp KeyEscape (Game.with_state StateMenu) g)
  | StateUpgrade =>
      let g := press inp KeyOne (ApplyUpgrade 0) g in
      let g := press inp KeyTwo (ApplyUpgrade 1) g in
      let g := press inp KeyThree (ApplyUpgrade 2) g in
      let g := press inp KeyFour (ApplyUpgrade 3) g in
      Ok (press inp KeyFive (ApplyUpgrade 4) g)
  | StatePaused =>
      let g := press inp KeyP (Game.with_state StatePlaying) g in
      Ok (press inp KeyEscape (Game.with_state StateMenu) g)
  | StatePlaying =>
      if IsKeyPressed inp KeyP then Ok (Game.with_state StatePaused g)
      else update_playing inp dt g
  end.

(** *** NewGame

    The pools are allocated once, filled with zero values. *)

Definition NewGame : Game.t :=
  Game.mk StateMenu []
    (replicate maxEnemies
       (Enemy.mk Vector3.zero Vector3.zero false 0 0 F32.zero false))
    (replicate maxBullets (Bullet.mk Vector3.zero Vector3.zero false 0 0))
    (replicate maxParticles (Particle.mk Vector3.zero Vector3.zero F32.zero false))
    (replicate maxPowerUps (PowerUp.mk Vector3.zero false 0 F32.zero))
    (replicate maxObstacles (Obstacle.mk Vector3.zero Vector3.zero false 0))
    (Settings.mk true true (F32.lit 1 2) (F32.lit 3 10) 1)
    0 0 0 F32.zero F32.zero 0 F32.zero false false 0 false 0 0 StageBasic O.

(** ** Vocabulary of the properties *)

(** The guards of the two checks after a level increment. *)
Definition stage_gate (level : Z) : bool := Int.rem level stageInterval =? 1.
Definition upgrade_gate (level : Z) : bool := (Int.rem level 3 =? 1) && (level >? 1).

(** The interval that the kill-count path stores for a level. *)
Definition spawn_interval_of (level : Z) : float32 :=
  F32.of_f64
    (F64.Max (F64.lit 1 2)
       (F64.of_f32 (F32.lit 3 2 - F32.of_int level * F32.lit 1 20)%f32)).

(** [regenerated g lv obs cs]: [obs] and [cs] are the obstacles and the
    stage type that [GenerateStage] yields from the obstacles of [g] at
    level [lv]. *)
Definition regenerated (g : Game.t) (lv : Z) (obs : list Obstacle.t)
    (cs : StageType) : Prop :=
  exists (gm : Game.t) (r : nat),
    Game.level gm = lv /\ Game.obstacles gm = Game.obstacles g
    /\ GenerateStage gm
       = Ok (Game.with_randPos r
               (Game.with_currentStage cs (Game.with_obstacles obs gm))).

(** The state after [KillEnemy], written as the state before with the
    fields that the function assigns. *)
Definition kill_result (g : Game.t) (es : list Enemy.t) (sc : Z) (ba : bool)
    (lv : Z) (bs : bool) (st : GameState) (ek : Z) (si : float32)
    (obs : list Obstacle.t) (cs : StageType) (ps : list Particle.t)
    (pus : list PowerUp.t) (r : nat) : Game.t :=
  Game.with_enemies es (Game.with_score sc (Game.with_bossActive ba
    (Game.with_level lv (Game.with_bossSpawned bs (Game.with_state st
      (Game.with_enemiesKilled ek (Game.with_spawnInterval si
        (Game.with_obstacles obs (Game.with_currentStage cs
          (Game.with_particles ps (Game.with_powerUps pus
            (Game.with_randPos r g)))))))))))).

(** The candidate position that [SpawnEnemy] builds from the draws [k]
    and [k+1] of the random source. *)
Definition spawn_candidate (k : nat) : Vector3.t :=
  let angle := (randFloat64 k * F64.of_int 2 * F64.Pi)%f64 in
  let distance := (F64.of_int 25 + randFloat64 (S k) * F64.of_int 5)%f64 in
  vec3 (F32.of_f64 (Cos angle * distance)%f64)
       (F32.lit 3 4)
       (F32.of_f64 (Sin angle * distance)%f64).

(** The distance from player [pIdx] to enemy [i] as the contact test
    computes it, the contact radius and the contact damage. *)
Definition contact_dist (player : Player.t) (e : Enemy.t) : float32 :=
  hyp32 (Vector3.X (Player.position player) - Vector3.X (Enemy.position e))%f32
        (Vector3.Z (Player.position player) - Vector3.Z (Enemy.position e))%f32.
Definition contact_radius (e : Enemy.t) : float32 :=
  if Enemy.isBoss e then F32.of_int 3 else F32.lit 3 2.
Definition contact_damage (e : Enemy.t) : Z :=
  if Enemy.isBoss e then 30 else 20.

(** ** The circle test of the specification

    The specification describes the collision test as "a circle of
    [radius] centered at [point] intersects the rectangle [size.x] by
    [size.z] centered at [position]".  That reading is written here over
    the rationals, on the exact values of the floating-point numbers, to
    be compared with the test of the code. *)

(** Exact value of a finite floating-point number, as a reduced
    fraction. *)
Definition SF2Q (x : spec_float) : Q :=
  match x with
  | S754_finite s m e => Qred (inject_Z (cond_Zopp s (Zpos m)) * Qpower 2 e)%Q
  | _ => 0%Q
  end.

Definition circle_meets_rectangle (pos : Vector3.t) (radius : float32)
    (obs : Obstacle.t) : Prop :=
  let c := Obstacle.position obs in
  let sz := Obstacle.size obs in
  exists x z : Q,
    (SF2Q (Vector3.X c) - SF2Q (Vector3.X sz) * (1 # 2) <= x
     /\ x <= SF2Q (Vector3.X c) + SF2Q (Vector3.X sz) * (1 # 2)
     /\ SF2Q (Vector3.Z c) - SF2Q (Vector3.Z sz) * (1 # 2) <= z
     /\ z <= SF2Q (Vector3.Z c) + SF2Q (Vector3.Z sz) * (1 # 2)
     /\ (x - SF2Q (Vector3.X pos)) ^ 2 + (z - SF2Q (Vector3.Z pos)) ^ 2
        <= SF2Q radius ^ 2)%Q.

(** ** Skill cooldowns *)

(** The configured maximum of a skill is a positive number. *)
Definition max_configured (sk : Skill.t) : Prop :=
  F32.valid (Skill.maxCooldown sk) = true
  /\ (F32.of_int 0 <? Skill.maxCooldown sk)%f32 = true
  /\ (Skill.maxCooldown sk <? S754_infinity false)%f32 = true.

(** The invariant of a skill slot: the cooldown lies between 0 and the
    maximum, and the skill is ready exactly when the cooldown is 0. *)
Definition cooldown_inv (sk : Skill.t) : Prop :=
  max_configured sk
  /\ F32.valid (Skill.cooldown sk) = true
  /\ (F32.of_int 0 <=? Skill.cooldown sk)%f32 = true
  /\ (Skill.cooldown sk <=? Skill.maxCooldown sk)%f32 = true
  /\ Skill.ready sk = F32.eqb (Skill.cooldown sk) (F32.of_int 0).

(** What [UseSkill] stores in the slot of the skill it has activated. *)
Definition activated (sk : Skill.t) : Skill.t :=
  Skill.with_cooldown (Skill.maxCooldown sk) (Skill.with_ready false sk).

Definition skills_inv (g : Game.t) : Prop :=
  Forall (fun p => Forall cooldown_inv (Player.skills p)) (Game.players g).

(** ** Health *)

Definition health_le_max (p : Player.t) : Prop :=
  Player.health p <= PlayerStats.maxHealth (Player.stats p).

(** The bounds on health that a frame keeps: [lo] is the bound from
    below; the maximum is a number that [float64] holds exactly. *)
Definition hp_ok (lo : Z) (p : Player.t) : Prop :=
  lo <= Player.health p <= PlayerStats.maxHealth (Player.stats p)
  /\ PlayerStats.maxHealth (Player.stats p) <= 2 ^ 52.

(** ** What one frame does to a player and to an enemy slot *)

(** The writes to a player during a frame, contact damage apart. *)
Inductive pstep (dt : float32) : Player.t -> Player.t -> Prop :=
| pstep_cooldowns (p : Player.t) :
    pstep dt p (Player.with_skills (map (update_cooldown dt) (Player.skills p)) p)
| pstep_lastShot (v : float32) (p : Player.t) :
    pstep dt p (Player.with_lastShot v p)
| pstep_angle (v : float32) (p : Player.t) :
    pstep dt p (Player.with_angle v p)
| pstep_position (v : Vector3.t) (p : Player.t) :
    pstep dt p (Player.with_position v p)
| pstep_heal (p : Player.t) :
    pstep dt p
      (Player.with_health
         (int_min_via_float (Int.add (Player.health p) 30)
            (PlayerStats.maxHealth (Player.stats p))) p)
| pstep_activate (k : nat) (sk : Skill.t) (p : Player.t) :
    Player.skills p !! k = Some sk ->
    pstep dt p (Player.with_skills (<[k := activated sk]> (Player.skills p)) p)
| pstep_stats (st : PlayerStats.t) (p : Player.t) :
    PlayerStats.maxHealth st = PlayerStats.maxHealth (Player.stats p) ->
    pstep dt p (Player.with_stats st p).

(** [psteps dt n p p']: [p'] comes from [p] by such writes and at most [n]
    contact damages, of 20 or 30 each. *)
Inductive psteps (dt : float32) : nat -> Player.t -> Player.t -> Prop :=
| psteps_refl (n : nat) (p : Player.t) : psteps dt n p p
| psteps_step (n : nat) (p p' p'' : Player.t) :
    psteps dt n p p' -> pstep dt p' p'' -> psteps dt n p p''
| psteps_damage (n : nat) (p p' : Player.t) (d : Z) :
    psteps dt n p p' -> d = 20 \/ d = 30 ->
    psteps dt (S n) p (Player.with_health (Int.sub (Player.health p') d) p').

(** The pools keep their lengths. *)
Definition same_pools (g g' : Game.t) : Prop :=
  length (Game.enemies g') = length (Game.enemies g)
  /\ length (Game.bullets g') = length (Game.bullets g)
  /\ length (Game.particles g') = length (Game.particles g)
  /\ length (Game.powerUps g') = length (Game.powerUps g)
  /\ length (Game.obstacles g') = length (Game.obstacles g).

(** [tick_rel dt n g g']: from [g] to [g'] the players have changed by
    [psteps dt n] and the pools have kept their lengths. *)
Definition tick_rel (dt : float32) (n : nat) (g g' : Game.t) : Prop :=
  Forall2 (psteps dt n) (Game.players g) (Game.players g')
  /\ same_pools g g'.

(** [core_eq g g']: the players are the same. *)
Definition core_eq (g g' : Game.t) : Prop :=
  Game.players g' = Game.players g /\ same_pools g g'.

(** ** States in which a frame cannot fail *)

(** The contract of [rand.Intn]: a value in [[0, n)]. *)
Definition rand_in_range : Prop :=
  forall (k : nat) (n : Z), 0 < n -> 0 <= randIntn k n < n.

(** A state with at least one player, three skill slots for every player
    and an obstacle pool that holds a stage layout. *)
Definition well_formed (g : Game.t) : Prop :=
  (1 <= length (Game.players g))%nat
  /\ Forall (fun p => (3 <= length (Player.skills p))%nat) (Game.players g)
  /\ (10 <= length (Game.obstacles g))%nat.

(** [same_shape g0 g]: [g] is well formed and has the players and the
    pools of [g0], slot for slot. *)
Definition same_shape (g0 g : Game.t) : Prop :=
  length (Game.players g) = length (Game.players g0)
  /\ same_pools g0 g
  /\ well_formed g.

(** ** Slots that a pool hands out *)

(** Number of slots of a pool that are not in use. *)
Fixpoint free_slots {A : Type} (active : A -> bool) (pool : list A) : nat :=
  match pool with
  | [] => O
  | x :: rest =>
      if active x then free_slots active rest
      else S (free_slots active rest)
  end.

(** [fills active fresh n pool pool']: [pool'] is [pool] after its first
    [n] free slots (all of them when there are fewer) have been taken by
    items in use that satisfy [fresh]; the other slots are untouched. *)
Inductive fills {A : Type} (active : A -> bool) (fresh : A -> Prop)
    : nat -> list A -> list A -> Prop :=
| fills_done (pool : list A) : fills active fresh O pool pool
| fills_nil (n : nat) : fills active fresh n [] []
| fills_keep (n : nat) (x : A) (pool pool' : list A) :
    active x = true ->
    fills active fresh n pool pool' ->
    fills active fresh n (x :: pool) (x :: pool')
| fills_take (n : nat) (x y : A) (pool pool' : list A) :
    active x = false -> active y = true -> fresh y ->
    fills active fresh n pool pool' ->
    fills active fresh (S n) (x :: pool) (y :: pool').

(** ** Frames without a regular spawn *)




End Simulation.

(** * Sample environment and states

    A fixed outcome of the random source and of the trigonometric calls,
    and small game states, for the concrete runs below. *)

Definition sample_env : Env := {|
  randFloat64 := fun _ => F64.zero;
  randFloat32 := fun _ => F32.zero;
  randIntn := fun _ _ => 0;
  math_Cos := fun _ => F64.of_int 1;
  math_Sin := fun _ => F64.zero;
  math_Atan2 := fun _ _ => F64.zero
|}.

Definition no_input : Input := {|
  IsKeyPressed := fun _ => false;
  IsKeyDown := fun _ => false;
  IsMouseLeftDown := false;
  GetMousePosition := (F32.zero, F32.zero);
  GetWorldToScreen := fun _ => (F32.zero, F32.zero)
|}.

(** A player at the origin, as [StartGame] creates it. *)
Definition sample_player : Player.t :=
  createPlayer 0 (vec3 (F32.of_int 0) (F32.lit 1 2) (F32.of_int 0)).

(** An enemy at rest at [(x, 0.75, 0)]. *)
Definition sample_minion (x : Z) : Enemy.t :=
  Enemy.mk (vec3 (F32.of_int x) (F32.lit 3 4) (F32.of_int 0)) Vector3.zero
    true 1 1 (F32.of_int 1) false.

Definition sample_boss : Enemy.t :=
  Enemy.mk (vec3 (F32.of_int 30) (F32.lit 3 2) (F32.of_int 0)) Vector3.zero
    true 100 100 (F32.of_int 4) true.

(** A running single-player game at [level] with [kills] kills, whose
    first enemy slots hold [es]. *)
Definition sample_game (level kills : Z) (es : list Enemy.t) : Game.t :=
  Game.with_enemies (es ++ drop (length es) (Game.enemies NewGame))
    (Game.with_players [sample_player]
       (Game.with_state StatePlaying
          (Game.with_level level
             (Game.with_enemiesKilled kills
                (Game.with_spawnInterval (F32.lit 3 2) NewGame))))).

(** A wall of 2 by 2 around the origin, alone in its pool. *)
Definition corner_wall : Obstacle.t :=
  Obstacle.mk (vec3 (F32.of_int 0) (F32.of_int 1) (F32.of_int 0))
    (vec3 (F32.of_int 2) (F32.of_int 3) (F32.of_int 2)) true 0.
Definition corner_game : Game.t := Game.with_obstacles [corner_wall] NewGame.
Definition corner_point : Vector3.t :=
  vec3 (F32.lit 7 4) (F32.of_int 0) (F32.lit 7 4).

(** A random source whose fourth [Float64] is 0.5: the first spawn
    candidate lies at distance 25 and the second at distance 27.5, both at
    angle 0, where the cosine is 1 and the sine 0. *)
Definition retry_env : Env := {|
  randFloat64 := fun k => if Nat.eqb k 3 then F64.lit 1 2 else F64.zero;
  randFloat32 := fun _ => F32.zero;
  randIntn := fun _ _ => 0;
  math_Cos := fun _ => F64.of_int 1;
  math_Sin := fun _ => F64.zero;
  math_Atan2 := fun _ _ => F64.zero
|}.

(** A block of 1 by 1 at [(25, 0)] on the spawn ring. *)
Definition ring_block : Obstacle.t :=
  Obstacle.mk (vec3 (F32.of_int 25) (F32.of_int 1) (F32.of_int 0))
    (vec3 (F32.of_int 1) (F32.of_int 1) (F32.of_int 1)) true 0.
Definition ring_game : Game.t :=
  Game.with_obstacles (ring_block :: drop 1 (Game.obstacles NewGame))
    (sample_game 1 0 []).

(** Six enemies at rest next to a player at full health. *)
Definition crowded_game : Game.t :=
  Game.with_spawnInterval (F32.of_int 1000)
    (sample_game 1 0 (replicate 6 (sample_minion 1))).
Definition frame_dt : float32 := F32.lit 1 60.

(** The crowded game with a pickup on the field, in the first pickup
    slot. *)
Definition pickup_game : Game.t :=
  Game.with_powerUps
    (PowerUp.mk (vec3 (F32.of_int 2) (F32.of_int 1) (F32.of_int 2)) true 0
       F32.zero
     :: drop 1 (Game.powerUps crowded_game))
    crowded_game.

(** The last stand of a run: a player with 20 health left stands next to
    an enemy at level 3, after 59 kills, with score and high score both
    at 1170, while a bullet of the player flies towards the place to
    which the contact pushes the enemy. *)
Definition last_stand_game : Game.t :=
  Game.with_bullets
    (Bullet.mk (vec3 (F32.lit 7 2) (F32.of_int 1) (F32.of_int 0))
       (vec3 (F32.of_int 40) (F32.of_int 0) (F32.of_int 0)) true 1 0
     :: drop 1 (Game.bullets NewGame))
    (Game.with_players [Player.with_health 20 sample_player]
       (Game.with_score 1170
          (Game.with_highScore 1170 (sample_game 3 59 [sample_minion 1])))).


Definition upgrade_two_key : Input := {|
  IsKeyPressed := fun k => match k with KeyTwo => true | _ => false end;
  IsKeyDown := fun _ => false;
  IsMouseLeftDown := false;
  GetMousePosition := (F32.zero, F32.zero);
  GetWorldToScreen := fun _ => (F32.zero, F32.zero)
|}.



(** * Properties *)

(** The arithmetic of the two number formats is computed, not unfolded,
    in the proofs below. *)
Arguments Int.wrap : simpl never.
Arguments Int.add : simpl never.
Arguments Int.sub : simpl never.
Arguments Int.mul : simpl never.
Arguments Int.quot : simpl never.
Arguments Int.rem : simpl never.
Arguments F32.add : simpl never.
Arguments F32.sub : simpl never.
Arguments F32.mul : simpl never.
Arguments F32.div : simpl never.
Arguments F32.ltb : simpl never.
Arguments F32.leb : simpl never.
Arguments F32.gtb : simpl never.
Arguments F32.of_int : simpl never.
Arguments F32.of_f64 : simpl never.
Arguments F32.lit : simpl never.
Arguments F64.add : simpl never.
Arguments F64.sub : simpl never.
Arguments F64.mul : simpl never.
Arguments F64.div : simpl never.
Arguments F64.ltb : simpl never.
Arguments F64.gtb : simpl never.
Arguments F64.of_int : simpl never.
Arguments F64.of_f32 : simpl never.
Arguments F64.lit : simpl never.
Arguments F64.Min : simpl never.
Arguments F64.Max : simpl never.
Arguments F64.Sqrt : simpl never.
Arguments F64.to_int : simpl never.
Arguments int_min_via_float : simpl never.
Arguments stage_of_level : simpl never.

(** ** IEEE-754 rounding

    Facts about [SpecFloat] for a format [(prec, emax)]. *)

Section SpecFloatFacts.

Variables prec emax : Z.
Hypothesis Hprec : 0 < prec.

Local Abbreviation emin := (emin prec emax).
Local Abbreviation fexp := (fexp prec emax).

Lemma fexp_ge_emin (e : Z) : emin <= fexp e.
Proof. unfold SpecFloat.fexp. lia. Qed.

Lemma fexp_mono (a b : Z) : a <= b -> fexp a <= fexp b.
Proof. unfold SpecFloat.fexp. lia. Qed.

Lemma digits2_pos_bounds (p : positive) :
  2 ^ (Zpos (digits2_pos p) - 1) <= Zpos p < 2 ^ Zpos (digits2_pos p).
Proof.
  induction p as [p IH|p IH|]; cbn [digits2_pos].
  - rewrite Pos2Z.inj_succ.
    replace (Z.succ (Zpos (digits2_pos p)) - 1) with (Z.succ (Zpos (digits2_pos p) - 1)) by lia.
    rewrite !Z.pow_succ_r by lia. lia.
  - rewrite Pos2Z.inj_succ.
    replace (Z.succ (Zpos (digits2_pos p)) - 1) with (Z.succ (Zpos (digits2_pos p) - 1)) by lia.
    rewrite !Z.pow_succ_r by lia. lia.
  - cbn. lia.
Qed.

(** The number of digits is determined by the binade. *)
Lemma digits2_pos_unique (p : positive) (d : Z) :
  2 ^ (d - 1) <= Zpos p < 2 ^ d -> Zpos (digits2_pos p) = d.
Proof.
  intros [Hlo Hhi]. pose proof (digits2_pos_bounds p) as [Hl Hh].
  assert (0 < d).
  { destruct (Z.ltb_spec 0 d); [done|]. rewrite Z.pow_neg_r in Hlo by lia.
    destruct (Z.eq_dec d 0) as [->|]; [cbn in Hhi; lia|].
    rewrite Z.pow_neg_r in Hhi by lia. lia. }
  destruct (Z.lt_trichotomy (Zpos (digits2_pos p)) d) as [Hlt|[Heq|Hgt]]; [|done|].
  - assert (2 ^ Zpos (digits2_pos p) <= 2 ^ (d - 1)) by (apply Z.pow_le_mono_r; lia). lia.
  - assert (2 ^ d <= 2 ^ (Zpos (digits2_pos p) - 1)) by (apply Z.pow_le_mono_r; lia). lia.
Qed.

Lemma digits2_pos_le (p q : positive) :
  Zpos p <= Zpos q -> Zpos (digits2_pos p) <= Zpos (digits2_pos q).
Proof.
  intros Hpq. pose proof (digits2_pos_bounds p) as [Hl _].
  pose proof (digits2_pos_bounds q) as [_ Hh].
  destruct (Z.leb_spec (Zpos (digits2_pos p)) (Zpos (digits2_pos q))); [done|].
  assert (2 ^ Zpos (digits2_pos q) <= 2 ^ (Zpos (digits2_pos p) - 1))
    by (apply Z.pow_le_mono_r; lia). lia.
Qed.

Lemma iter_pos_iter {A : Type} (f : A -> A) (n : positive) (x : A) :
  SpecFloat.iter_pos f n x = Pos.iter f x n.
Proof.
  revert x. induction n as [n IH|n IH|]; intros x; cbn [SpecFloat.iter_pos Pos.iter].
  - rewrite !IH. rewrite <- !Pos.iter_swap. reflexivity.
  - rewrite !IH. reflexivity.
  - reflexivity.
Qed.

Lemma shr_1_m (mrs : shr_record) :
  0 <= shr_m mrs -> shr_m (shr_1 mrs) = shr_m mrs / 2.
Proof.
  destruct mrs as [m r s]. cbn [shr_m]. intros Hm.
  destruct m as [|[p|p|]|p]; cbn [shr_1 shr_m]; try lia; try reflexivity.
  - apply Z.div_unique with 1; lia.
  - apply Z.div_unique with 0; lia.
Qed.

Lemma shr_iter_m (n : positive) (mrs : shr_record) :
  0 <= shr_m mrs ->
  shr_m (SpecFloat.iter_pos shr_1 n mrs) = shr_m mrs / 2 ^ Zpos n.
Proof.
  rewrite iter_pos_iter. revert mrs.
  induction n as [|n IH] using Pos.peano_ind; intros mrs Hm.
  - cbn [Pos.iter]. rewrite shr_1_m by done. reflexivity.
  - rewrite Pos.iter_succ. rewrite shr_1_m.
    + rewrite IH by done. rewrite Pos2Z.inj_succ, Z.pow_succ_r by lia.
      rewrite Z.div_div by lia. f_equal. lia.
    + rewrite IH by done. apply Z.div_pos; lia.
Qed.

(** The mantissa and exponent after [shr]. *)
Lemma shr_m_e (m : Z) (r s : bool) (e n : Z) :
  0 <= m ->
  shr_m (fst (shr (Build_shr_record m r s) e n)) = m / 2 ^ Z.max n 0
  /\ snd (shr (Build_shr_record m r s) e n) = e + Z.max n 0.
Proof.
  intros Hm. destruct n as [|n|n]; cbn [shr fst snd].
  - cbn. rewrite Z.div_1_r. lia.
  - rewrite shr_iter_m by done. cbn [shr_m]. rewrite Z.max_l by lia. done.
  - cbn. rewrite Z.div_1_r. lia.
Qed.

Lemma shr_record_of_loc_m (m : Z) (l : location) :
  shr_m (shr_record_of_loc m l) = m.
Proof. by destruct l as [|[]]. Qed.

Lemma round_nearest_even_bounds (m : Z) (l : location) :
  m <= round_nearest_even m l <= m + 1.
Proof. destruct l as [|[]]; cbn; try lia. destruct (Z.even m); lia. Qed.



Lemma pos_iter_xO (p d : positive) :
  Zpos (Pos.iter xO p d) = Zpos p * 2 ^ Zpos d.
Proof.
  rewrite (Pos.iter_swap_gen _ _ Zpos xO (Z.mul 2)) by reflexivity.
  change (Pos.iter (Z.mul 2) (Zpos p) d) with (Z.shiftl (Zpos p) (Zpos d)).
  apply Z.shiftl_mul_pow2. lia.
Qed.

Lemma shl_align_spec (mx : positive) (ex ex' : Z) :
  snd (shl_align mx ex ex') = Z.min ex ex'
  /\ Zpos (fst (shl_align mx ex ex')) = Zpos mx * 2 ^ (ex - Z.min ex ex').
Proof.
  unfold shl_align. destruct (ex' - ex) as [|d|d] eqn:Hd; cbn [fst snd].
  - rewrite Z.min_l by lia. rewrite Z.sub_diag. cbn. lia.
  - rewrite Z.min_l by lia. rewrite Z.sub_diag. cbn. lia.
  - rewrite Z.min_r by lia. rewrite pos_iter_xO.
    replace (ex - ex') with (Zpos d) by lia. done.
Qed.

Lemma digits2_mul_pow2 (p q : positive) (k : Z) :
  0 <= k -> Zpos q = Zpos p * 2 ^ k ->
  Zpos (digits2_pos q) = Zpos (digits2_pos p) + k.
Proof.
  intros Hk Hq. apply digits2_pos_unique.
  pose proof (digits2_pos_bounds p) as [Hl Hh].
  replace (Zpos (digits2_pos p) + k - 1) with ((Zpos (digits2_pos p) - 1) + k) by lia.
  rewrite !Z.pow_add_r by lia. rewrite Hq.
  assert (0 < 2 ^ k) by (apply Z.pow_pos_nonneg; lia). nia.
Qed.

Lemma digits2_div_pow2 (p : positive) (k : Z) :
  0 <= k < Zpos (digits2_pos p) ->
  exists q : positive,
    Zpos p / 2 ^ k = Zpos q
    /\ Zpos (digits2_pos q) = Zpos (digits2_pos p) - k.
Proof.
  intros Hk. pose proof (digits2_pos_bounds p) as [Hl Hh].
  set (d := Zpos (digits2_pos p)) in *.
  assert (H2k : 0 < 2 ^ k) by (apply Z.pow_pos_nonneg; lia).
  assert (Hlo : 2 ^ (d - k - 1) <= Zpos p / 2 ^ k).
  { apply Z.div_le_lower_bound; [done|].
    rewrite <- Z.pow_add_r by lia. replace (k + (d - k - 1)) with (d - 1) by lia. done. }
  assert (Hhi : Zpos p / 2 ^ k < 2 ^ (d - k)).
  { apply Z.div_lt_upper_bound; [done|].
    rewrite <- Z.pow_add_r by lia. replace (k + (d - k)) with d by lia. done. }
  assert (0 < 2 ^ (d - k - 1)) by (apply Z.pow_pos_nonneg; lia).
  destruct (Zpos p / 2 ^ k) as [|q|q] eqn:Hq; [lia| |lia].
  exists q. split; [done|]. by apply digits2_pos_unique.
Qed.

(** Values compare as their magnitudes. *)
Lemma digits2_value_le (p q : positive) (a b : Z) :
  0 <= a -> 0 <= b ->
  Zpos p * 2 ^ a <= Zpos q * 2 ^ b ->
  Zpos (digits2_pos p) + a <= Zpos (digits2_pos q) + b.
Proof.
  intros Ha Hb Hle.
  pose proof (digits2_pos_bounds p) as [Hl _].
  pose proof (digits2_pos_bounds q) as [_ Hh].
  assert (H1 : 2 ^ (Zpos (digits2_pos p) - 1 + a) <= Zpos p * 2 ^ a).
  { rewrite Z.pow_add_r by lia. apply Z.mul_le_mono_nonneg_r; [|done].
    apply Z.pow_nonneg; lia. }
  assert (H2 : Zpos q * 2 ^ b < 2 ^ (Zpos (digits2_pos q) + b)).
  { rewrite Z.pow_add_r by lia. apply Z.mul_lt_mono_pos_r; [|done].
    apply Z.pow_pos_nonneg; lia. }
  assert (H3 : 2 ^ (Zpos (digits2_pos p) - 1 + a) < 2 ^ (Zpos (digits2_pos q) + b)) by lia.
  apply Z.pow_lt_mono_r_iff in H3; lia.
Qed.

Lemma round_finish_zero (s : bool) (e : Z) :
  round_finish prec emax s 0 e = S754_zero s.
Proof.
  unfold round_finish, shr_fexp.
  pose proof (shr_m_e 0 false false e (fexp (Zdigits2 0 + e) - e) ltac:(lia)) as [Hm _].
  cbn [shr_record_of_loc].
  destruct (shr _ e _) as [mrs e']. cbn [fst] in Hm. rewrite Hm.
  by rewrite Z.div_0_l by (apply Z.pow_nonzero; lia).
Qed.

Lemma round_finish_pos (s : bool) (q : positive) (e : Z) :
  let n := Z.max (fexp (Zpos (digits2_pos q) + e) - e) 0 in
  round_finish prec emax s (Zpos q) e
  = match Zpos q / 2 ^ n with
    | Z0 => S754_zero s
    | Zpos m => if e + n <=? emax - prec then S754_finite s m (e + n)
                else S754_infinity s
    | Zneg _ => S754_nan
    end.
Proof.
  intros n. unfold round_finish, shr_fexp. cbn [shr_record_of_loc Zdigits2].
  pose proof (shr_m_e (Zpos q) false false e
                (fexp (Zpos (digits2_pos q) + e) - e) ltac:(lia)) as [Hm He].
  destruct (shr _ e _) as [mrs e']. cbn [fst snd] in Hm, He.
  rewrite Hm, He. reflexivity.
Qed.

(** [binary_round] is a shift to the exponent [E] of the format, one
    rounding step and [round_finish]. *)
Lemma binary_round_struct (s : bool) (p : positive) (e : Z) :
  let E := fexp (Zpos (digits2_pos p) + e) in
  exists l : location,
    binary_round prec emax s p e
    = round_finish prec emax s
        (round_nearest_even (Zpos p * 2 ^ (e - Z.min e E) / 2 ^ (E - Z.min e E)) l) E
    /\ (E <= e -> l = loc_Exact).
Proof.
  intros E. unfold binary_round. fold E.
  pose proof (shl_align_spec p e E) as [Hez Hmz].
  destruct (shl_align p e E) as [mz ez]. cbn [fst snd] in Hez, Hmz. subst ez.
  assert (Hd : Zpos (digits2_pos mz) + Z.min e E = Zpos (digits2_pos p) + e).
  { rewrite (digits2_mul_pow2 p mz (e - Z.min e E)) by (done || lia). lia. }
  unfold binary_round_aux, shr_fexp. cbn [Zdigits2 shr_record_of_loc].
  rewrite Hd. fold E.
  pose proof (shr_m_e (Zpos mz) false false (Z.min e E) (E - Z.min e E) ltac:(lia))
    as [Hm He].
  destruct (shr _ (Z.min e E) (E - Z.min e E)) as [mrs' e'] eqn:Hshr.
  cbn [fst snd] in Hm, He.
  rewrite Z.max_l in Hm, He by lia.
  replace e' with E by lia.
  exists (loc_of_shr_record mrs'). split.
  - unfold round_finish, shr_fexp. rewrite Hm, Hmz. reflexivity.
  - intros HE. rewrite Z.min_r in Hshr by lia. rewrite Z.sub_diag in Hshr.
    cbn in Hshr. by injection Hshr as <- _.
Qed.



(** When the exponent of the format is not above [e], [binary_round] is
    exact. *)
Lemma binary_round_exact (s : bool) (p : positive) (e : Z) :
  let E := fexp (Zpos (digits2_pos p) + e) in
  E <= e ->
  exists m : positive,
    Zpos m = Zpos p * 2 ^ (e - E)
    /\ binary_round prec emax s p e
       = if E <=? emax - prec then S754_finite s m E else S754_infinity s.
Proof.
  intros E HE. destruct (binary_round_struct s p e) as (l & Hr & Hl).
  fold E in Hr, Hl. rewrite (Hl HE) in Hr. rewrite Z.min_r in Hr by lia.
  rewrite Z.sub_diag, Z.pow_0_r, Z.div_1_r in Hr. cbn [round_nearest_even] in Hr.
  assert (H2 : 0 < 2 ^ (e - E)) by (apply Z.pow_pos_nonneg; lia).
  destruct (Zpos p * 2 ^ (e - E)) as [|m|m] eqn:Hm; [lia| |lia].
  exists m. split; [done|]. rewrite Hr, round_finish_pos.
  rewrite (digits2_mul_pow2 p m (e - E)) by (lia || done).
  replace (Zpos (digits2_pos p) + (e - E) + E) with (Zpos (digits2_pos p) + e) by lia.
  fold E. rewrite Z.sub_diag. cbn [Z.max]. rewrite Z.pow_0_r, Z.div_1_r, Z.add_0_r.
  reflexivity.
Qed.

Lemma canonical_mantissa_fexp (m : positive) (e : Z) :
  canonical_mantissa prec emax m e = true ->
  fexp (Zpos (digits2_pos m) + e) = e.
Proof. unfold canonical_mantissa. intros H. by apply Z.eqb_eq in H. Qed.

Lemma bounded_inv (m : positive) (e : Z) :
  bounded prec emax m e = true ->
  fexp (Zpos (digits2_pos m) + e) = e /\ e <= emax - prec /\ emin <= e.
Proof.
  unfold bounded. intros H. apply andb_true_iff in H as [Hc He].
  apply canonical_mantissa_fexp in Hc. apply Z.leb_le in He.
  split; [done|]. split; [done|]. rewrite <- Hc. apply fexp_ge_emin.
Qed.

(** Rounding a value below a representable number yields a number that is
    not above it. *)
Lemma binary_round_lt_bounded (p : positive) (e : Z) (mc : positive) (ec : Z) :
  emin <= e ->
  bounded prec emax mc ec = true ->
  Zpos p * 2 ^ (e - emin) < Zpos mc * 2 ^ (ec - emin) ->
  binary_round prec emax false p e = S754_zero false
  \/ exists (m : positive) (e' : Z),
       binary_round prec emax false p e = S754_finite false m e'
       /\ bounded prec emax m e' = true
       /\ (e' < ec \/ (e' = ec /\ Zpos m <= Zpos mc)).
Proof.
  intros He Hc Hlt. apply bounded_inv in Hc as (Hcan & Hmax & Hec).
  set (d := Zpos (digits2_pos p)). set (dc := Zpos (digits2_pos mc)) in *.
  destruct (binary_round_struct false p e) as (l & Hr & _).
  fold d in Hr. set (E := fexp (d + e)) in *. rewrite Hr. clear Hr.
  assert (HE : emin <= E) by apply fexp_ge_emin.
  assert (Hde : d + e <= dc + ec).
  { pose proof (digits2_value_le p mc (e - emin) (ec - emin)
                  ltac:(lia) ltac:(lia) ltac:(lia)). subst d dc. lia. }
  assert (HEc : E <= ec) by (rewrite <- Hcan; by apply fexp_mono).
  set (lo := Z.min e E).
  set (m' := Zpos p * 2 ^ (e - lo) / 2 ^ (E - lo)).
  (* the truncated mantissa has the digits of the format *)
  assert (Hm' : exists q' : positive,
             m' = Zpos q' /\ Zpos (digits2_pos q') + E = d + e).
  { subst m' lo. destruct (Z.leb_spec E e).
    - rewrite Z.min_r by lia. rewrite Z.sub_diag, Z.pow_0_r, Z.div_1_r.
      assert (0 < 2 ^ (e - E)) by (apply Z.pow_pos_nonneg; lia).
      destruct (Zpos p * 2 ^ (e - E)) as [|q'|q'] eqn:Hq; [lia| |lia].
      exists q'. split; [done|].
      rewrite (digits2_mul_pow2 p q' (e - E)) by (lia || done). subst d. lia.
    - rewrite Z.min_l by lia. rewrite Z.sub_diag, Z.pow_0_r, Z.mul_1_r.
      assert (HEd : E = d + e - prec) by (subst E; unfold SpecFloat.fexp in *; lia).
      destruct (digits2_div_pow2 p (E - e)) as (q' & Hq & Hdq); [subst d; lia|].
      exists q'. split; [done|]. subst d. lia. }
  destruct Hm' as (q' & Hq' & Hdq').
  (* its value is below the value of the bound *)
  assert (Hval : m' * 2 ^ (E - emin) <= Zpos p * 2 ^ (e - emin)).
  { subst m'. replace (E - emin) with ((E - lo) + (lo - emin)) by lia.
    replace (e - emin) with ((e - lo) + (lo - emin)) by lia.
    rewrite !Z.pow_add_r by (subst lo; lia). rewrite !Z.mul_assoc.
    apply Z.mul_le_mono_nonneg_r; [apply Z.pow_nonneg; lia|].
    rewrite Z.mul_comm. apply Z.mul_div_le. apply Z.pow_pos_nonneg; subst lo; lia. }
  assert (Hsplit : Zpos mc * 2 ^ (ec - emin)
                   = Zpos mc * 2 ^ (ec - E) * 2 ^ (E - emin)).
  { rewrite <- Z.mul_assoc, <- Z.pow_add_r by lia. do 2 f_equal. lia. }
  assert (H2E : 0 < 2 ^ (E - emin)) by (apply Z.pow_pos_nonneg; lia).
  assert (Hm'lt : m' < Zpos mc * 2 ^ (ec - E)) by nia.
  pose proof (round_nearest_even_bounds m' l) as [Hrl Hru].
  destruct (round_nearest_even m' l) as [|q|q] eqn:Hq; [lia| |lia].
  rewrite round_finish_pos.
  assert (Hdq : Zpos (digits2_pos q') <= Zpos (digits2_pos q))
    by (apply digits2_pos_le; lia).
  assert (HqE : Zpos q * 2 ^ (E - emin) <= Zpos mc * 2 ^ (ec - emin)) by nia.
  pose proof (digits2_value_le q mc (E - emin) (ec - emin)
                ltac:(lia) ltac:(lia) HqE) as Hdqc. fold dc in Hdqc.
  set (e'' := fexp (Zpos (digits2_pos q) + E)).
  assert (He''lo : E <= e'').
  { subst e'' E. apply fexp_mono. lia. }
  assert (He''hi : e'' <= ec).
  { subst e''. rewrite <- Hcan. apply fexp_mono. lia. }
  rewrite Z.max_l by lia.
  replace (E + (e'' - E)) with e'' by lia.
  assert (H2n : 0 < 2 ^ (e'' - E)) by (apply Z.pow_pos_nonneg; lia).
  destruct (Zpos q / 2 ^ (e'' - E)) as [|m|m] eqn:Hm; [by left| |].
  2: { pose proof (Z.div_pos (Zpos q) (2 ^ (e'' - E)) ltac:(lia) H2n). lia. }
  right. exists m, e''.
  destruct (Z.leb_spec e'' (emax - prec)); [|lia].
  split; [done|]. split.
  - unfold bounded, canonical_mantissa. apply andb_true_iff. split; [|by apply Z.leb_le].
    apply Z.eqb_eq.
    destruct (digits2_div_pow2 q (e'' - E)) as (m0 & Hm0 & Hdm0).
    { split; [lia|]. pose proof (digits2_pos_bounds q) as [_ Hqh].
      assert (2 ^ (e'' - E) <= Zpos q).
      { destruct (Z.leb_spec (2 ^ (e'' - E)) (Zpos q)); [done|].
        rewrite Z.div_small in Hm by lia. lia. }
      assert (Hp : 2 ^ (e'' - E) < 2 ^ Zpos (digits2_pos q)) by lia.
      apply Z.pow_lt_mono_r_iff in Hp; lia. }
    rewrite Hm in Hm0. injection Hm0 as <-.
    replace (Zpos (digits2_pos m) + e'') with (Zpos (digits2_pos q) + E) by lia.
    done.
  - destruct (Z.eq_dec e'' ec) as [Heq|]; [right|left; lia]. split; [done|].
    assert (Hmq : Zpos m * 2 ^ (e'' - E) <= Zpos q).
    { rewrite <- Hm. rewrite Z.mul_comm. apply Z.mul_div_le. done. }
    rewrite Heq in Hmq. nia.
Qed.

(** Rounding with a negative sign never yields a positive number (or a
    NaN). *)
Lemma binary_round_neg_le_zero (p : positive) (e : Z) (s0 : bool) :
  SFleb (binary_round prec emax true p e) (S754_zero s0) = true.
Proof.
  destruct (binary_round_struct true p e) as (l & -> & _).
  set (E := fexp _). set (m' := _ / _).
  assert (0 <= m').
  { subst m'. apply Z.div_pos; [|apply Z.pow_pos_nonneg; lia].
    apply Z.mul_nonneg_nonneg; [lia|]. apply Z.pow_nonneg. lia. }
  pose proof (round_nearest_even_bounds m' l) as [Hrl _].
  destruct (round_nearest_even m' l) as [|q|q]; [|  |lia].
  - by rewrite round_finish_zero.
  - rewrite round_finish_pos. set (n := Z.max _ 0).
    pose proof (Z.div_pos (Zpos q) (2 ^ n) ltac:(lia)
                  ltac:(apply Z.pow_pos_nonneg; lia)).
    destruct (Zpos q / 2 ^ n); [done| |lia].
    by destruct (_ <=? _).
Qed.



(** Order of two positive numbers of the format. *)
Lemma SFleb_pos (m1 : positive) (e1 : Z) (m2 : positive) (e2 : Z) :
  SFleb (S754_finite false m1 e1) (S754_finite false m2 e2) = true
  <-> e1 < e2 \/ (e1 = e2 /\ Zpos m1 <= Zpos m2).
Proof.
  unfold SFleb, SFcompare. destruct (Z.compare_spec e1 e2) as [Heq|Hlt|Hgt].
  - change (Pos.compare_cont Eq m1 m2) with (Pos.compare m1 m2).
    destruct (Pos.compare_spec m1 m2) as [Hm|Hm|Hm]; split; intros H;
      try done; try (right; split; [done|]; lia); lia.
  - split; [intros; by left | done].
  - split; [done | lia].
Qed.

(** Subtracting a number that is not negative from a positive number of
    the format yields zero or less, or a positive number of the format
    that is not above the first. *)
Lemma SFsub_nonneg (mc : positive) (ec : Z) (d : spec_float) :
  bounded prec emax mc ec = true ->
  valid_binary prec emax d = true ->
  SFleb (S754_zero false) d = true ->
  SFleb (SFsub prec emax (S754_finite false mc ec) d) (S754_zero false) = true
  \/ exists (m : positive) (e : Z),
       SFsub prec emax (S754_finite false mc ec) d = S754_finite false m e
       /\ bounded prec emax m e = true
       /\ (e < ec \/ (e = ec /\ Zpos m <= Zpos mc)).
Proof.
  intros Hc Hd Hpos.
  destruct d as [sd|[]| |[] md ed]; try done; cbn [SFsub].
  - right. exists mc, ec. split; [done|]. split; [done|]. right. split; lia.
  - by left.
  - cbn [valid_binary] in Hd. cbn [cond_Zopp].
    pose proof (bounded_inv mc ec Hc) as (_ & _ & Hec).
    pose proof (bounded_inv md ed Hd) as (_ & _ & Hed).
    set (ez := Z.min ec ed).
    pose proof (shl_align_spec mc ec ez) as [_ H1].
    pose proof (shl_align_spec md ed ez) as [_ H2].
    rewrite Z.min_r in H1, H2 by (subst ez; lia).
    destruct (Zpos (fst (shl_align mc ec ez)) - Zpos (fst (shl_align md ed ez)))
      as [|p|p] eqn:Hz; cbn [binary_normalize].
    + by left.
    + destruct (binary_round_lt_bounded p ez mc ec) as [->|(m & e & -> & Hb & Hle)];
        [subst ez; lia|done| |by left|].
      * replace (ec - emin) with ((ec - ez) + (ez - emin)) by lia.
        rewrite Z.pow_add_r by (subst ez; lia). rewrite Z.mul_assoc, <- H1.
        apply Z.mul_lt_mono_pos_r; [apply Z.pow_pos_nonneg; subst ez; lia|]. lia.
      * right. by exists m, e.
    + left. apply binary_round_neg_le_zero.
Qed.



(** The float of an integer below [2^prec] in magnitude. *)
Lemma binary_round_int (s : bool) (p : positive) :
  emin <= 1 - prec -> prec < emax ->
  Zpos p < 2 ^ prec ->
  exists m : positive,
    binary_round prec emax s p 0
    = S754_finite s m (Zpos (digits2_pos p) - prec)
    /\ Zpos m = Zpos p * 2 ^ (prec - Zpos (digits2_pos p))
    /\ Zpos (digits2_pos p) <= prec.
Proof.
  intros Hemin Hmax Hp.
  pose proof (digits2_pos_bounds p) as [Hl Hh].
  assert (Hd : Zpos (digits2_pos p) <= prec).
  { destruct (Z.leb_spec (Zpos (digits2_pos p)) prec); [done|].
    assert (2 ^ prec <= 2 ^ (Zpos (digits2_pos p) - 1))
      by (apply Z.pow_le_mono_r; lia). lia. }
  assert (HE : fexp (Zpos (digits2_pos p) + 0) = Zpos (digits2_pos p) - prec).
  { unfold SpecFloat.fexp. lia. }
  destruct (binary_round_exact s p 0) as (m & Hm & Hr); [lia|].
  rewrite HE in Hm, Hr. exists m. split; [|split; [|done]].
  - rewrite Hr. destruct (Z.leb_spec (Zpos (digits2_pos p) - prec) (emax - prec)); [done|lia].
  - rewrite Hm. f_equal. f_equal. lia.
Qed.

End SpecFloatFacts.

(** ** Integers in [float64] *)

Lemma F64_of_int_shape (z : Z) :
  - 2 ^ 53 < z < 2 ^ 53 -> z <> 0 ->
  exists m : positive,
    F64.of_int z
    = S754_finite (z <? 0) m (Zpos (digits2_pos (Z.to_pos (Z.abs z))) - 53)
    /\ Zpos m = Z.abs z * 2 ^ (53 - Zpos (digits2_pos (Z.to_pos (Z.abs z))))
    /\ Zpos (digits2_pos (Z.to_pos (Z.abs z))) <= 53.
Proof.
  intros Hz Hnz. unfold F64.of_int, binary_normalize.
  destruct z as [|p|p]; [done| |].
  - destruct (binary_round_int 53 1024 ltac:(lia) false p) as (m & Hr & Hm & Hd);
      [done|done|lia|]. exists m. by cbn.
  - destruct (binary_round_int 53 1024 ltac:(lia) true p) as (m & Hr & Hm & Hd);
      [done|done|lia|]. exists m. by cbn.
Qed.

Lemma F64_to_int_of_int (z : Z) :
  - 2 ^ 53 < z < 2 ^ 53 -> F64.to_int (F64.of_int z) = z.
Proof.
  intros Hz. destruct (Z.eq_dec z 0) as [->|Hnz]; [reflexivity|].
  destruct (F64_of_int_shape z Hz Hnz) as (m & -> & Hm & Hd).
  unfold F64.to_int. set (d := Zpos (digits2_pos _)) in *. clearbody d.
  assert (Ha : (if 0 <=? d - 53 then Z.shiftl (Zpos m) (d - 53)
                else Z.shiftr (Zpos m) (- (d - 53))) = Z.abs z).
  { destruct (Z.leb_spec 0 (d - 53)).
    - assert (Hd53 : d = 53) by lia. subst d. rewrite Hm.
      change (53 - 53) with 0. rewrite Z.shiftl_0_r, Z.pow_0_r. lia.
    - rewrite Z.shiftr_div_pow2 by lia. rewrite Hm.
      replace (- (d - 53)) with (53 - d) by lia.
      apply Z.div_mul. apply Z.pow_nonzero; lia. }
  rewrite Ha.
  assert (Hv : cond_Zopp (z <? 0) (Z.abs z) = z).
  { destruct (Z.ltb_spec z 0); cbn; lia. }
  rewrite Hv. unfold Int.min_int, Int.max_int.
  destruct (Z.leb_spec (- 2 ^ 63) z); [|lia].
  destruct (Z.leb_spec z (2 ^ 63 - 1)); [done|lia].
Qed.

Lemma F64_compare_of_int (a b : Z) :
  - 2 ^ 53 < a < 2 ^ 53 -> - 2 ^ 53 < b < 2 ^ 53 ->
  SFcompare (F64.of_int a) (F64.of_int b) = Some (a ?= b).
Proof.
  intros Ha Hb.
  destruct (Z.eq_dec a 0) as [->|Hna]; destruct (Z.eq_dec b 0) as [->|Hnb].
  - reflexivity.
  - destruct (F64_of_int_shape b Hb Hnb) as (mb & -> & _).
    change (F64.of_int 0) with (S754_zero false). cbn [SFcompare].
    destruct (Z.ltb_spec b 0); f_equal; symmetry;
      [apply Z.compare_gt_iff | apply Z.compare_lt_iff]; lia.
  - destruct (F64_of_int_shape a Ha Hna) as (ma & -> & _).
    change (F64.of_int 0) with (S754_zero false). cbn [SFcompare].
    destruct (Z.ltb_spec a 0); f_equal; symmetry;
      [apply Z.compare_lt_iff | apply Z.compare_gt_iff]; lia.
  - destruct (F64_of_int_shape a Ha Hna) as (ma & -> & Hma & Hda).
    destruct (F64_of_int_shape b Hb Hnb) as (mb & -> & Hmb & Hdb).
    pose proof (digits2_pos_bounds (Z.to_pos (Z.abs a))) as [Hal Hah].
    pose proof (digits2_pos_bounds (Z.to_pos (Z.abs b))) as [Hbl Hbh].
    rewrite Z2Pos.id in Hal, Hah, Hbl, Hbh by lia.
    set (da := Zpos (digits2_pos (Z.to_pos (Z.abs a)))) in *.
    set (db := Zpos (digits2_pos (Z.to_pos (Z.abs b)))) in *.
    assert (Hmag : da < db -> Z.abs a < Z.abs b).
    { intros Hlt. assert (2 ^ da <= 2 ^ (db - 1)) by (apply Z.pow_le_mono_r; lia). lia. }
    assert (Hmag' : db < da -> Z.abs b < Z.abs a).
    { intros Hlt. assert (2 ^ db <= 2 ^ (da - 1)) by (apply Z.pow_le_mono_r; lia). lia. }
    assert (Hsame : da = db -> (Pos.compare ma mb) = (Z.abs a ?= Z.abs b)).
    { intros Heq. change (Pos.compare ma mb) with (Zpos ma ?= Zpos mb).
      rewrite Hma, Hmb, Heq.
      symmetry. apply Zmult_compare_compat_r.
      apply Z.lt_gt. apply Z.pow_pos_nonneg; lia. }
    unfold SFcompare. change (Pos.compare_cont Eq ma mb) with (Pos.compare ma mb).
    destruct (Z.ltb_spec a 0); destruct (Z.ltb_spec b 0); f_equal.
    + destruct (Z.compare_spec (da - 53) (db - 53)) as [Heq|Hlt|Hgt].
      * rewrite Hsame by lia.
        destruct (Z.compare_spec (Z.abs a) (Z.abs b));
          destruct (Z.compare_spec a b); cbn; (done || lia).
      * symmetry. apply Z.compare_gt_iff. specialize (Hmag ltac:(lia)). lia.
      * symmetry. apply Z.compare_lt_iff. specialize (Hmag' ltac:(lia)). lia.
    + symmetry. apply Z.compare_lt_iff. lia.
    + symmetry. apply Z.compare_gt_iff. lia.
    + destruct (Z.compare_spec (da - 53) (db - 53)) as [Heq|Hlt|Hgt].
      * rewrite Hsame by lia.
        replace (Z.abs a) with a by lia. replace (Z.abs b) with b by lia. done.
      * symmetry. apply Z.compare_lt_iff. specialize (Hmag ltac:(lia)). lia.
      * symmetry. apply Z.compare_gt_iff. specialize (Hmag' ltac:(lia)). lia.
Qed.

(** A capped heal computes the minimum. *)
Lemma int_min_via_float_exact (a b : Z) :
  - 2 ^ 53 < a < 2 ^ 53 -> - 2 ^ 53 < b < 2 ^ 53 ->
  int_min_via_float a b = Z.min a b.
Proof.
  intros Ha Hb. unfold int_min_via_float, F64.Min.
  assert (Hfin : forall z, - 2 ^ 53 < z < 2 ^ 53 ->
            F64.is_inf true (F64.of_int z) = false
            /\ F64.is_nan (F64.of_int z) = false).
  { intros z Hz. destruct (Z.eq_dec z 0) as [->|Hnz]; [done|].
    by destruct (F64_of_int_shape z Hz Hnz) as (m & -> & _). }
  destruct (Hfin a Ha) as [-> ->]. destruct (Hfin b Hb) as [-> ->].
  cbn [orb]. unfold F64.eqb, F64.ltb, SFeqb, SFltb.
  rewrite (F64_compare_of_int a b Ha Hb).
  change F64.zero with (F64.of_int 0).
  rewrite (F64_compare_of_int a 0 Ha ltac:(lia)).
  destruct (Z.compare_spec a 0) as [->|Ha0|Ha0]; cbn [andb].
  - destruct (Z.compare_spec 0 b) as [<-|Hb0|Hb0].
    + reflexivity.
    + change (F64.to_int (F64.of_int 0)) with 0. lia.
    + rewrite F64_to_int_of_int by done. lia.
  - destruct (Z.compare_spec a b); rewrite F64_to_int_of_int by done; lia.
  - destruct (Z.compare_spec a b); rewrite F64_to_int_of_int by done; lia.
Qed.

Section Properties.

Variable env : Env.

Local Abbreviation rand_Float64 := (rand_Float64 env).
Local Abbreviation rand_Float32 := (rand_Float32 env).
Local Abbreviation rand_Intn := (rand_Intn env).
Local Abbreviation hazards_loop := (hazards_loop env).
Local Abbreviation GenerateHazards := (GenerateHazards env).
Local Abbreviation GenerateStage := (GenerateStage env).
Local Abbreviation emit_particle := (emit_particle env).
Local Abbreviation CreateExplosion := (CreateExplosion env).
Local Abbreviation SpawnPowerUp := (SpawnPowerUp env).
Local Abbreviation after_level_up := (after_level_up env).
Local Abbreviation KillEnemy := (KillEnemy env).
Local Abbreviation SpawnBoss := (SpawnBoss env).
Local Abbreviation spawn_enemy_scan := (spawn_enemy_scan env).
Local Abbreviation SpawnEnemy := (SpawnEnemy env).
Local Abbreviation ShootBullet := (ShootBullet env).
Local Abbreviation explosion_hit := (explosion_hit env).
Local Abbreviation radial_shot := (radial_shot env).
Local Abbreviation UseSkill := (UseSkill env).
Local Abbreviation ResetGame := (ResetGame env).
Local Abbreviation StartGame := (StartGame env).
Local Abbreviation UpdateMenu := (UpdateMenu env).
Local Abbreviation controls_p1 := (controls_p1 env).
Local Abbreviation aim_and_shoot := (aim_and_shoot env).
Local Abbreviation controls_p2 := (controls_p2 env).
Local Abbreviation skill_keys := (skill_keys env).
Local Abbreviation update_player := (update_player env).
Local Abbreviation update_bullet := (update_bullet env).
Local Abbreviation update_spawn := (update_spawn env).
Local Abbreviation move_enemy := (move_enemy env).
Local Abbreviation enemy_contact := (enemy_contact env).
Local Abbreviation enemy_bullet := (enemy_bullet env).
Local Abbreviation update_enemy := (update_enemy env).
Local Abbreviation pickup_contact := (pickup_contact env).
Local Abbreviation update_powerUp := (update_powerUp env).
Local Abbreviation update_playing := (update_playing env).
Local Abbreviation Update := (Update env).
Local Abbreviation regenerated := (regenerated env).

(** ** Go's [int] *)

Lemma wrap_small (z : Z) : Int.in_range z -> Int.wrap z = z.
Proof.
  unfold Int.in_range, Int.wrap, Int.min_int, Int.max_int. intros H.
  rewrite Z.mod_small; lia.
Qed.

Lemma wrap_in_range (z : Z) : Int.in_range (Int.wrap z).
Proof.
  unfold Int.in_range, Int.wrap, Int.min_int, Int.max_int.
  pose proof (Z.mod_pos_bound (z + 2 ^ 63) (2 ^ 64) ltac:(lia)). lia.
Qed.

(** ** Stage generation *)

Lemma store_obstacle_ok (i : nat) (o : Obstacle.t) (g : Game.t) :
  (i < length (Game.obstacles g))%nat ->
  store_obstacle i o g = Ok (Game.with_obstacles (<[i := o]> (Game.obstacles g)) g).
Proof.
  intros H. unfold store_obstacle.
  destruct (Nat.ltb_spec i (length (Game.obstacles g))); [done | lia].
Qed.

Lemma place_walls_ok (walls : list (Vector3.t * Vector3.t)) :
  forall (i : nat) (g : Game.t),
    (i + length walls <= length (Game.obstacles g))%nat ->
    exists (k : nat) (obs : list Obstacle.t),
      place_walls walls i g = Ok (k, Game.with_obstacles obs g)
      /\ length obs = length (Game.obstacles g)
      /\ (k <= i + length walls)%nat.
Proof.
  induction walls as [|[pos size] rest IH]; intros i g Hlen;
    cbn [place_walls length] in *.
  - exists i, (Game.obstacles g). split; [by destruct g | split; lia].
  - destruct (Nat.leb_spec maxObstacles i).
    + exists i, (Game.obstacles g). split; [by destruct g | split; lia].
    + rewrite store_obstacle_ok by lia. cbn [mbind result_bind].
      destruct (IH (S i) (Game.with_obstacles
                            (<[i := Obstacle.mk pos size true 0]> (Game.obstacles g)) g))
        as (k & obs & Hk & Hl & Hki).
      { simpl. rewrite length_insert. lia. }
      exists k, obs. rewrite Hk. simpl in Hl. rewrite length_insert in Hl.
      repeat split; [done | lia].
Qed.

Lemma hazards_loop_ok (n : nat) :
  forall (i : nat) (g : Game.t),
    (i + n <= length (Game.obstacles g))%nat ->
    exists (obs : list Obstacle.t) (r : nat),
      hazards_loop n i g = Ok (Game.with_randPos r (Game.with_obstacles obs g))
      /\ length obs = length (Game.obstacles g).
Proof.
  induction n as [|n IH]; intros i g Hlen; cbn [hazards_loop].
  - exists (Game.obstacles g), (Game.randPos g). by destruct g.
  - destruct (negb (i <? maxObstacles)%nat).
    + exists (Game.obstacles g), (Game.randPos g). by destruct g.
    + unfold rand_Float64. rewrite store_obstacle_ok by (simpl; lia).
      cbn [mbind result_bind].
      match goal with |- context [hazards_loop n (S i) ?g1] =>
        destruct (IH (S i) g1) as (obs & r & Hk & Hl) end.
      { simpl. rewrite length_insert. lia. }
      exists obs, r. rewrite Hk. simpl in Hl. rewrite length_insert in Hl.
      split; [done | lia].
Qed.

Ltac walls_step k obs Hl Hk :=
  match goal with
  | |- context [place_walls ?w ?i ?g] =>
      let E := fresh "E" in
      destruct (place_walls_ok w i g) as (k & obs & E & Hl & Hk);
      [ | rewrite E; cbn [mbind result_bind] ]
  end.

(** [GenerateStage] returns when the pool has room for the largest
    layout; it changes the obstacles, the stage type and the position in
    the random source, nothing else. *)
Lemma GenerateStage_ok (g : Game.t) :
  (10 <= length (Game.obstacles g))%nat ->
  exists (obs : list Obstacle.t) (r : nat),
    GenerateStage g
    = Ok (Game.with_randPos r
            (Game.with_currentStage (stage_of_level (Game.level g))
               (Game.with_obstacles obs g)))
    /\ length obs = length (Game.obstacles g).
Proof.
  intros Hlen. unfold GenerateStage.
  set (g0 := Game.with_obstacles _ g).
  change (Game.level g0) with (Game.level g).
  set (g1 := Game.with_currentStage _ g0).
  change (Game.currentStage g1) with (stage_of_level (Game.level g)).
  assert (Hl1 : length (Game.obstacles g1) = length (Game.obstacles g))
    by (subst g1 g0; simpl; by rewrite length_map).
  destruct (stage_of_level (Game.level g) =? StageMaze).
  { unfold GenerateMaze.
    walls_step k obs Hl Hk; [rewrite length_map, Hl1; simpl; lia|].
    rewrite length_map in Hk. cbn [length] in Hk.
    walls_step k' obs' Hl' Hk'.
    { rewrite length_map. cbn [length Game.obstacles Game.with_obstacles]. lia. }
    cbn [Game.obstacles Game.with_obstacles] in Hl'.
    exists obs', (Game.randPos g). split; [done | lia]. }
  destruct (stage_of_level (Game.level g) =? StageHazard).
  { unfold GenerateHazards.
    destruct (hazards_loop_ok 10 O g1) as (obs & r & -> & Hl); [lia|].
    exists obs, r. split; [done | lia]. }
  destruct (stage_of_level (Game.level g) =? StageArena).
  { unfold GenerateArena.
    walls_step k obs Hl Hk; [rewrite Hl1; simpl; lia|].
    exists obs, (Game.randPos g). split; [done | lia]. }
  exists (map (Obstacle.with_active false) (Game.obstacles g)), (Game.randPos g).
  split; [done | by rewrite length_map].
Qed.

Lemma stage_of_level_formula (level : Z) :
  1 <= level <= Int.max_int ->
  stage_of_level level = ((level - 1) / stageInterval) mod 4.
Proof.
  intros H. unfold stage_of_level, Int.quot, Int.sub, Int.rem, stageInterval.
  assert (Hm : Int.max_int = 2 ^ 63 - 1) by reflexivity.
  rewrite (wrap_small (level - 1))
    by (unfold Int.in_range, Int.min_int; lia).
  rewrite Z.quot_div_nonneg by lia.
  assert (0 <= (level - 1) / 10 <= level - 1).
  { split; [apply Z.div_pos; lia|]. apply Z.div_le_upper_bound; lia. }
  rewrite wrap_small by (unfold Int.in_range, Int.min_int; lia).
  apply Z.rem_mod_nonneg; lia.
Qed.

(** C9.  The stage type stored by [GenerateStage] is a function of the
    level alone, [((level-1) / stageInterval) mod 4], one of the four
    constants Basic = 0, Maze = 1, Hazard = 2, Arena = 3, and it has period
    [4 * stageInterval] in the level (for levels from 1 on whose shift is
    still an [int]). *)
Theorem stage_archetype_periodic (g : Game.t) :
  1 <= Game.level g ->
  Game.level g + 4 * stageInterval <= Int.max_int ->
  (10 <= length (Game.obstacles g))%nat ->
  exists g' : Game.t,
    GenerateStage g = Ok g'
    /\ Game.currentStage g' = stage_of_level (Game.level g)
    /\ stage_of_level (Game.level g)
       = ((Game.level g - 1) / stageInterval) mod 4
    /\ (StageBasic = 0 /\ StageMaze = 1 /\ StageHazard = 2 /\ StageArena = 3)
    /\ 0 <= stage_of_level (Game.level g) <= 3
    /\ stage_of_level (Game.level g + 4 * stageInterval)
       = stage_of_level (Game.level g).
Proof.
  intros H1 Hmax Hlen.
  destruct (GenerateStage_ok g Hlen) as (obs & r & Hg & _).
  eexists. split; [exact Hg|]. split; [reflexivity|].
  assert (Hs : stageInterval = 10) by reflexivity.
  rewrite !stage_of_level_formula by lia.
  split; [reflexivity|]. split; [done|]. split.
  - pose proof (Z.mod_pos_bound ((Game.level g - 1) / stageInterval) 4). lia.
  - rewrite Hs.
    replace (Game.level g + 4 * 10 - 1) with ((Game.level g - 1) + 4 * 10) by lia.
    rewrite Z.div_add by lia. rewrite Z.add_mod by lia.
    rewrite Z.mod_same by lia. rewrite Z.add_0_r. apply Z.mod_mod. lia.
Qed.

(** ** Particles and pickups: what they leave alone *)

Lemma with_particles_eta (g : Game.t) :
  Game.with_randPos (Game.randPos g) (Game.with_particles (Game.particles g) g) = g.
Proof. by destruct g. Qed.

Lemma emit_particle_frame (pos : Vector3.t) (g : Game.t) :
  exists (ps : list Particle.t) (r : nat),
    emit_particle pos g = Game.with_randPos r (Game.with_particles ps g)
    /\ length ps = length (Game.particles g).
Proof.
  unfold emit_particle.
  destruct (first_slot _ (Game.particles g)) as [i|].
  - unfold rand_Float64, rand_Float32. eexists _, _. split; [reflexivity|].
    apply length_insert.
  - exists (Game.particles g), (Game.randPos g).
    by rewrite with_particles_eta.
Qed.

Lemma CreateExplosion_frame (pos : Vector3.t) (count : Z) (g : Game.t) :
  exists (ps : list Particle.t) (r : nat),
    CreateExplosion pos count g = Game.with_randPos r (Game.with_particles ps g)
    /\ length ps = length (Game.particles g).
Proof.
  unfold CreateExplosion. generalize (Z.to_nat (int_min_via_float count 15)).
  intros n. induction n as [|n (ps & r & IH & Hl)].
  - exists (Game.particles g), (Game.randPos g).
    by rewrite with_particles_eta.
  - rewrite Nat.iter_succ, IH.
    destruct (emit_particle_frame pos (Game.with_randPos r (Game.with_particles ps g)))
      as (ps' & r' & -> & Hl').
    exists ps', r'. split; [reflexivity|].
    cbn [Game.particles Game.with_randPos Game.with_particles] in Hl'. lia.
Qed.

Lemma SpawnPowerUp_frame (pos : Vector3.t) (g : Game.t) :
  exists (pus : list PowerUp.t) (r : nat),
    SpawnPowerUp pos g = Game.with_randPos r (Game.with_powerUps pus g)
    /\ length pus = length (Game.powerUps g).
Proof.
  unfold SpawnPowerUp, rand_Float32.
  destruct (F32.gtb _ _).
  - exists (Game.powerUps g), (S (Game.randPos g)). by destruct g.
  - cbn [Game.powerUps Game.with_randPos Game.randPos].
    destruct (first_slot _ (Game.powerUps g)) as [i|].
    + eexists _, _. split; [reflexivity|]. apply length_alter.
    + exists (Game.powerUps g), (S (Game.randPos g)). by destruct g.
Qed.

(** Simplification of field reads after field writes. *)
Ltac gsimpl :=
  cbn [mbind result_bind mret result_ret negb andb orb fst snd
       Game.state Game.players Game.enemies Game.bullets Game.particles
       Game.powerUps Game.obstacles Game.settings Game.score Game.highScore
       Game.level Game.spawnTimer Game.spawnInterval Game.enemiesKilled
       Game.gameTime Game.bossActive Game.bossSpawned Game.upgradeChoice
       Game.coopMode Game.menuSelection Game.settingsSelection
       Game.currentStage Game.randPos
       Game.with_state Game.with_players Game.with_enemies Game.with_bullets
       Game.with_particles Game.with_powerUps Game.with_obstacles
       Game.with_settings Game.with_score Game.with_highScore Game.with_level
       Game.with_spawnTimer Game.with_spawnInterval Game.with_enemiesKilled
       Game.with_gameTime Game.with_bossActive Game.with_bossSpawned
       Game.with_upgradeChoice Game.with_coopMode Game.with_menuSelection
       Game.with_settingsSelection Game.with_currentStage Game.with_randPos
       Enemy.position Enemy.velocity Enemy.active Enemy.health Enemy.maxHealth
       Enemy.size Enemy.isBoss Enemy.with_position Enemy.with_velocity
       Enemy.with_active Enemy.with_health
       Player.position Player.angle Player.health Player.stats Player.lastShot
       Player.skills Player.id Player.with_position Player.with_angle
       Player.with_health Player.with_stats Player.with_lastShot
       Player.with_skills] in *.

Ltac gsimpl_goal :=
  cbn [mbind result_bind mret result_ret negb andb orb fst snd
       Game.state Game.players Game.enemies Game.bullets Game.particles
       Game.powerUps Game.obstacles Game.settings Game.score Game.highScore
       Game.level Game.spawnTimer Game.spawnInterval Game.enemiesKilled
       Game.gameTime Game.bossActive Game.bossSpawned Game.upgradeChoice
       Game.coopMode Game.menuSelection Game.settingsSelection
       Game.currentStage Game.randPos
       Game.with_state Game.with_players Game.with_enemies Game.with_bullets
       Game.with_particles Game.with_powerUps Game.with_obstacles
       Game.with_settings Game.with_score Game.with_highScore Game.with_level
       Game.with_spawnTimer Game.with_spawnInterval Game.with_enemiesKilled
       Game.with_gameTime Game.with_bossActive Game.with_bossSpawned
       Game.with_upgradeChoice Game.with_coopMode Game.with_menuSelection
       Game.with_settingsSelection Game.with_currentStage Game.with_randPos
       Enemy.position Enemy.velocity Enemy.active Enemy.health Enemy.maxHealth
       Enemy.size Enemy.isBoss Enemy.with_position Enemy.with_velocity
       Enemy.with_active Enemy.with_health
       Player.position Player.angle Player.health Player.stats Player.lastShot
       Player.skills Player.id Player.with_position Player.with_angle
       Player.with_health Player.with_stats Player.with_lastShot
       Player.with_skills].


(** Normal form of a state built by field writes. *)
Ltac gnorm :=
  cbv [Game.state Game.players Game.enemies Game.bullets Game.particles
       Game.powerUps Game.obstacles Game.settings Game.score Game.highScore
       Game.level Game.spawnTimer Game.spawnInterval Game.enemiesKilled
       Game.gameTime Game.bossActive Game.bossSpawned Game.upgradeChoice
       Game.coopMode Game.menuSelection Game.settingsSelection
       Game.currentStage Game.randPos
       Game.with_state Game.with_players Game.with_enemies Game.with_bullets
       Game.with_particles Game.with_powerUps Game.with_obstacles
       Game.with_settings Game.with_score Game.with_highScore Game.with_level
       Game.with_spawnTimer Game.with_spawnInterval Game.with_enemiesKilled
       Game.with_gameTime Game.with_bossActive Game.with_bossSpawned
       Game.with_upgradeChoice Game.with_coopMode Game.with_menuSelection
       Game.with_settingsSelection Game.with_currentStage Game.with_randPos].

(** Replaces the innermost call of [CreateExplosion] or [SpawnPowerUp] in
    the goal by the state it yields. *)
Ltac frame_effect :=
  match goal with
  | |- context [CreateExplosion ?p ?c ?g] =>
      lazymatch g with
      | context [CreateExplosion _ _ _] => fail
      | context [SpawnPowerUp _ _] => fail
      | _ =>
          let ps := fresh "ps" in let r := fresh "r" in
          let E := fresh "E" in let Hl := fresh "Hps" in
          destruct (CreateExplosion_frame p c g) as (ps & r & E & Hl);
          rewrite E; clear E; gsimpl
      end
  | |- context [SpawnPowerUp ?p ?g] =>
      lazymatch g with
      | context [CreateExplosion _ _ _] => fail
      | context [SpawnPowerUp _ _] => fail
      | _ =>
          let pus := fresh "pus" in let r := fresh "r" in
          let E := fresh "E" in let Hl := fresh "Hpus" in
          destruct (SpawnPowerUp_frame p g) as (pus & r & E & Hl);
          rewrite E; clear E; gsimpl
      end
  end.
Ltac frame_effects := repeat frame_effect.

(** ** KillEnemy *)

Lemma after_level_up_spec (g : Game.t) :
  (10 <= length (Game.obstacles g))%nat ->
  exists (obs : list Obstacle.t) (cs : StageType) (r : nat),
    after_level_up g
    = Ok (Game.with_state
            (if upgrade_gate (Game.level g) then StateUpgrade else Game.state g)
            (Game.with_randPos r
               (Game.with_currentStage cs (Game.with_obstacles obs g))))
    /\ length obs = length (Game.obstacles g)
    /\ (if stage_gate (Game.level g)
        then cs = stage_of_level (Game.level g) /\ regenerated g (Game.level g) obs cs
        else obs = Game.obstacles g /\ cs = Game.currentStage g).
Proof.
  intros Hlen. unfold after_level_up, stage_gate, upgrade_gate.
  destruct (Int.rem (Game.level g) stageInterval =? 1).
  - destruct (GenerateStage_ok g Hlen) as (obs & r & E & Hl).
    exists obs, (stage_of_level (Game.level g)), r. rewrite E.
    cbn [mbind result_bind Game.level Game.with_randPos Game.with_currentStage
         Game.with_obstacles].
    split; [by destruct (_ && _)|].
    split; [done|]. split; [done|]. by exists g, r.
  - exists (Game.obstacles g), (Game.currentStage g), (Game.randPos g).
    cbn [mbind result_bind]. split; [|done].
    destruct g; cbn. by destruct (_ && _).
Qed.

Lemma KillEnemy_spec (index : nat) (g : Game.t) (e : Enemy.t) :
  Game.enemies g !! index = Some e ->
  (10 <= length (Game.obstacles g))%nat ->
  exists sc ba lv bs st si obs cs ps pus r,
    KillEnemy index g
    = Ok (kill_result g (<[index := Enemy.with_active false e]> (Game.enemies g))
            sc ba lv bs st (Int.add (Game.enemiesKilled g) 1) si obs cs ps pus r)
    /\ length obs = length (Game.obstacles g)
    /\ length ps = length (Game.particles g)
    /\ length pus = length (Game.powerUps g)
    /\ (if Enemy.isBoss e then
          sc = Int.add (Game.score g) 500 /\ ba = false
          /\ lv = Int.add (Game.level g) 1 /\ bs = false
          /\ si = Game.spawnInterval g
          /\ st = (if upgrade_gate lv then StateUpgrade else Game.state g)
          /\ (if stage_gate lv
              then cs = stage_of_level lv /\ regenerated g lv obs cs
              else obs = Game.obstacles g /\ cs = Game.currentStage g)
        else
          sc = Int.add (Game.score g) (Int.mul 10 (Game.level g))
          /\ ba = Game.bossActive g /\ bs = Game.bossSpawned g
          /\ (if (Int.rem (Int.add (Game.enemiesKilled g) 1) 20 =? 0)
                 && negb (Int.rem (Game.level g) 10 =? 0)
              then
                lv = Int.add (Game.level g) 1
                /\ si = spawn_interval_of lv
                /\ st = (if upgrade_gate lv then StateUpgrade else Game.state g)
                /\ (if stage_gate lv
                    then cs = stage_of_level lv /\ regenerated g lv obs cs
                    else obs = Game.obstacles g /\ cs = Game.currentStage g)
              else
                lv = Game.level g /\ si = Game.spawnInterval g
                /\ st = Game.state g
                /\ obs = Game.obstacles g /\ cs = Game.currentStage g)).
Proof.
  intros He Hlen. unfold KillEnemy, elem_at. rewrite He. destruct g. gsimpl.
  destruct (Enemy.isBoss e) eqn:Hb.
  - frame_effects.
    match goal with |- context [after_level_up ?g1] =>
      destruct (after_level_up_spec g1) as (obs & cs & r' & E & Hobs & Hgate);
        [exact Hlen | rewrite E; clear E] end.
    gsimpl. frame_effects. unfold kill_result. gnorm.
    eexists _, _, _, _, _, _, _, _, _, _, _. split; [reflexivity|].
    repeat (split; [first [done | lia]|]).
    destruct (stage_gate _); [|done].
    destruct Hgate as (Hcs & gm & rm & Hlv & Hob & Hgen).
    split; [done|]. by exists gm, rm.
  - gsimpl. frame_effects.
    destruct ((Int.rem (Int.add enemiesKilled 1) 20 =? 0)
              && negb (Int.rem level 10 =? 0)).
    + match goal with |- context [after_level_up ?g1] =>
        destruct (after_level_up_spec g1) as (obs & cs & r' & E & Hobs & Hgate);
          [exact Hlen | rewrite E; clear E] end.
      unfold kill_result. gnorm.
      eexists _, _, _, _, _, _, _, _, _, _, _. split; [reflexivity|].
      repeat (split; [first [done | lia]|]).
      destruct (stage_gate _); [|done].
      destruct Hgate as (Hcs & gm & rm & Hlv & Hob & Hgen).
      split; [done|]. by exists gm, rm.
    + unfold kill_result. gnorm.
      eexists _, _, _, _, _, _, _, _, _, _, _. split; [reflexivity|].
      repeat (split; [first [done | lia]|]). done.
Qed.

(** C6.  [KillEnemy] on a boss deactivates it, adds 500 to the score,
    clears [bossActive], increments the level, clears [bossSpawned],
    regenerates the stage when the new level is 1 modulo [stageInterval]
    and sets the Upgrade state exactly when the new level is 1 modulo 3
    and above 1 (the state is left as it was otherwise); on another enemy
    it adds [10 * level] to the score.  Additions are those of Go's [int]. *)
Theorem KillEnemy_boss_and_score (index : nat) (g : Game.t) (e : Enemy.t) :
  Game.enemies g !! index = Some e ->
  (10 <= length (Game.obstacles g))%nat ->
  exists g' : Game.t,
    KillEnemy index g = Ok g'
    /\ Game.enemies g' = <[index := Enemy.with_active false e]> (Game.enemies g)
    /\ (Enemy.isBoss e = true ->
        Game.score g' = Int.add (Game.score g) 500
        /\ Game.bossActive g' = false
        /\ Game.level g' = Int.add (Game.level g) 1
        /\ Game.bossSpawned g' = false
        /\ (if stage_gate (Game.level g')
            then Game.currentStage g' = stage_of_level (Game.level g')
                 /\ regenerated g (Game.level g') (Game.obstacles g')
                      (Game.currentStage g')
            else Game.obstacles g' = Game.obstacles g
                 /\ Game.currentStage g' = Game.currentStage g)
        /\ Game.state g'
           = (if upgrade_gate (Game.level g') then StateUpgrade else Game.state g)
        /\ (Game.state g <> StateUpgrade ->
            Game.state g' = StateUpgrade <-> upgrade_gate (Game.level g') = true))
    /\ (Enemy.isBoss e = false ->
        Game.score g' = Int.add (Game.score g) (Int.mul 10 (Game.level g))).
Proof.
  intros He Hlen.
  destruct (KillEnemy_spec index g e He Hlen)
    as (sc & ba & lv & bs & st & si & obs & cs & ps & pus & r
        & E & _ & _ & _ & H).
  eexists. split; [exact E|]. unfold kill_result. gsimpl.
  split; [reflexivity|]. split; intros Hb; rewrite Hb in H.
  - destruct H as (-> & -> & -> & -> & _ & -> & Hgate).
    repeat (split; [done|]). intros Hst.
    destruct (upgrade_gate _); split; intros; congruence.
  - by destruct H as (-> & _).
Qed.

(** C1 (amended).  When [KillEnemy] removes an enemy that is not a boss and
    the kill count becomes a multiple of 20, the level is incremented and
    [spawnInterval] recomputed exactly when the level before the increment
    is not a multiple of 10; otherwise level and interval are unchanged. *)
Theorem KillEnemy_kill_count_level (index : nat) (g : Game.t) (e : Enemy.t) :
  Game.enemies g !! index = Some e ->
  (10 <= length (Game.obstacles g))%nat ->
  Enemy.isBoss e = false ->
  exists g' : Game.t,
    KillEnemy index g = Ok g'
    /\ Game.enemiesKilled g' = Int.add (Game.enemiesKilled g) 1
    /\ (Int.rem (Game.enemiesKilled g') 20 = 0 ->
        Int.rem (Game.level g) 10 <> 0 ->
        Game.level g' = Int.add (Game.level g) 1
        /\ Game.spawnInterval g'
           = F32.of_f64
               (F64.Max (F64.lit 1 2)
                  (F64.of_f32
                     (F32.lit 3 2 - F32.of_int (Game.level g') * F32.lit 1 20)%f32)))
    /\ (Int.rem (Game.enemiesKilled g') 20 <> 0 \/ Int.rem (Game.level g) 10 = 0 ->
        Game.level g' = Game.level g
        /\ Game.spawnInterval g' = Game.spawnInterval g).
Proof.
  intros He Hlen Hb.
  destruct (KillEnemy_spec index g e He Hlen)
    as (sc & ba & lv & bs & st & si & obs & cs & ps & pus & r
        & E & _ & _ & _ & H).
  eexists. split; [exact E|]. unfold kill_result. gsimpl.
  split; [reflexivity|]. rewrite Hb in H. destruct H as (_ & _ & _ & H).
  destruct (Z.eqb_spec (Int.rem (Int.add (Game.enemiesKilled g) 1) 20) 0) as [Hk|Hk];
    destruct (Z.eqb_spec (Int.rem (Game.level g) 10) 0) as [Hl|Hl];
    cbn [andb negb] in H.
  - destruct H as (-> & -> & _). split; [congruence|]. done.
  - destruct H as (-> & -> & _). split; [done|]. intros [?|?]; congruence.
  - destruct H as (-> & -> & _). split; [congruence|]. done.
  - destruct H as (-> & -> & _). split; [congruence|]. done.
Qed.

(** ** CheckObstacleCollision *)

Lemma scan_obstacles_true (obstacles : list Obstacle.t) (pos : Vector3.t)
    (radius : float32) :
  scan_obstacles obstacles pos radius = true
  <-> exists (i : nat) (obs : Obstacle.t),
        obstacles !! i = Some obs
        /\ Obstacle.active obs = true
        /\ aabb_hit pos radius obs = true.
Proof.
  induction obstacles as [|o rest IH]; cbn [scan_obstacles].
  - split; [done|]. by intros (i & obs & ? & _).
  - destruct (Obstacle.active o) eqn:Ha; cbn [negb];
      [destruct (aabb_hit pos radius o) eqn:Hh|].
    + split; [|done]. intros _. by exists O, o.
    + rewrite IH. split.
      * intros (i & obs & ? & ? & ?). by exists (S i), obs.
      * intros ([|i] & obs & Hi & Hact & Hhit); simplify_eq/=; [congruence|].
        by exists i, obs.
    + rewrite IH. split.
      * intros (i & obs & ? & ? & ?). by exists (S i), obs.
      * intros ([|i] & obs & Hi & Hact & Hhit); simplify_eq/=; [congruence|].
        by exists i, obs.
Qed.

Lemma aabb_hit_kind (pos : Vector3.t) (radius : float32) (obs : Obstacle.t)
    (kind : Z) :
  aabb_hit pos radius (Obstacle.with_obsType kind obs) = aabb_hit pos radius obs.
Proof. reflexivity. Qed.

Lemma scan_obstacles_kind (f : Obstacle.t -> Z) (obstacles : list Obstacle.t)
    (pos : Vector3.t) (radius : float32) :
  scan_obstacles (map (fun o => Obstacle.with_obsType (f o) o) obstacles) pos radius
  = scan_obstacles obstacles pos radius.
Proof.
  induction obstacles as [|o rest IH]; cbn [scan_obstacles map]; [done|].
  rewrite IH, aabb_hit_kind. reflexivity.
Qed.

(** C2 (amended).  [CheckObstacleCollision] answers [true] exactly when
    some active obstacle passes the box test of the loop body: the
    axis-aligned square of half side [radius] around [pos] overlaps the
    rectangle of the obstacle ([float32] comparisons, strict).  The first
    such obstacle decides, whatever follows it in the pool, and the kinds
    of the obstacles do not matter. *)
Theorem CheckObstacleCollision_box_test (g : Game.t) (pos : Vector3.t)
    (radius : float32) :
  (CheckObstacleCollision g pos radius = true
   <-> exists (i : nat) (obs : Obstacle.t),
         Game.obstacles g !! i = Some obs
         /\ Obstacle.active obs = true
         /\ aabb_hit pos radius obs = true)
  /\ (forall (before after : list Obstacle.t) (obs : Obstacle.t),
        Game.obstacles g = before ++ obs :: after ->
        scan_obstacles before pos radius = false ->
        Obstacle.active obs = true ->
        aabb_hit pos radius obs = true ->
        forall after' : list Obstacle.t,
          CheckObstacleCollision
            (Game.with_obstacles (before ++ obs :: after') g) pos radius = true)
  /\ (forall f : Obstacle.t -> Z,
        CheckObstacleCollision
          (Game.with_obstacles
             (map (fun o => Obstacle.with_obsType (f o) o) (Game.obstacles g)) g)
          pos radius
        = CheckObstacleCollision g pos radius).
Proof.
  unfold CheckObstacleCollision. split; [apply scan_obstacles_true|]. split.
  - intros before after obs _ _ Hact Hhit after'. gsimpl.
    apply scan_obstacles_true. exists (length before), obs.
    split; [|done]. by rewrite list_lookup_middle.
  - intros f. gsimpl. apply scan_obstacles_kind.
Qed.

(** ** UseSkill *)

(** C5 (amended).  The only guard of [UseSkill] is the readiness check: a
    skill slot that exists and is not ready makes the call a no-op, while
    an index outside the skill slots of the player makes the call panic
    (index out of range). *)
Theorem UseSkill_guard (pIdx : nat) (skillIndex : Z) (g : Game.t)
    (player : Player.t) :
  Game.players g !! pIdx = Some player ->
  (skillIndex < 0 \/ Z.of_nat (length (Player.skills player)) <= skillIndex ->
   UseSkill pIdx skillIndex g = Panic)
  /\ (forall sk : Skill.t,
        0 <= skillIndex ->
        Player.skills player !! Z.to_nat skillIndex = Some sk ->
        Skill.ready sk = false ->
        UseSkill pIdx skillIndex g = Ok g).
Proof.
  intros Hp. unfold UseSkill, elem_at. rewrite Hp. cbn [mbind result_bind].
  unfold skill_at, elem_at. split.
  - intros [Hneg|Hbig].
    + destruct (Z.ltb_spec skillIndex 0); [done | lia].
    + destruct (Z.ltb_spec skillIndex 0); [done|].
      rewrite lookup_ge_None_2 by lia. done.
  - intros sk Hpos Hsk Hready.
    destruct (Z.ltb_spec skillIndex 0); [lia|].
    rewrite Hsk. cbn [mbind result_bind]. by rewrite Hready.
Qed.

(** ** SpawnEnemy *)

(** C4 (amended).  In the scan of [SpawnEnemy] an active slot is passed
    over; at an inactive slot a candidate position is drawn, and when it
    overlaps an obstacle (test radius 1.0) the scan continues with the
    following slots, where the next inactive slot draws a fresh candidate;
    when it does not overlap, the enemy is stored in that slot and the
    scan ends. *)
Theorem SpawnEnemy_retries_next_slot (slot : Enemy.t) (rest : list Enemy.t)
    (i : nat) (g : Game.t) :
  (Enemy.active slot = true ->
   spawn_enemy_scan (slot :: rest) i g = spawn_enemy_scan rest (S i) g)
  /\ (Enemy.active slot = false ->
      CheckObstacleCollision g (spawn_candidate env (Game.randPos g)) (F32.of_int 1)
      = true ->
      spawn_enemy_scan (slot :: rest) i g
      = spawn_enemy_scan rest (S i)
          (Game.with_randPos (S (S (Game.randPos g))) g))
  /\ (Enemy.active slot = false ->
      CheckObstacleCollision g (spawn_candidate env (Game.randPos g)) (F32.of_int 1)
      = false ->
      forall (k : Z) (target : Player.t),
        randIntn env (S (S (Game.randPos g))) (Z.of_nat (length (Game.players g))) = k ->
        0 <= k ->
        Game.players g !! Z.to_nat k = Some target ->
        exists spawned : Enemy.t,
          spawn_enemy_scan (slot :: rest) i g
          = Ok (Game.with_enemies (<[i := spawned]> (Game.enemies g))
                  (Game.with_randPos (6 + Game.randPos g)%nat g))
          /\ Enemy.active spawned = true
          /\ Enemy.isBoss spawned = false
          /\ Enemy.position spawned = spawn_candidate env (Game.randPos g)).
Proof.
  split; [|split].
  - intros Ha. cbn [spawn_enemy_scan]. by rewrite Ha.
  - intros Ha Hc. cbn [spawn_enemy_scan]. rewrite Ha.
    unfold rand_Float64. gsimpl.
    unfold CheckObstacleCollision in *. gsimpl.
    unfold spawn_candidate in Hc. by rewrite Hc.
  - intros Ha Hc k target Hk Hk0 Ht. cbn [spawn_enemy_scan]. rewrite Ha.
    unfold rand_Float64. gsimpl.
    unfold CheckObstacleCollision in *. gsimpl.
    unfold spawn_candidate in Hc. rewrite Hc.
    unfold rand_Intn. gsimpl.
    destruct (Z.leb_spec (Z.of_nat (length (Game.players g))) 0) as [Hn|Hn].
    { apply lookup_lt_Some in Ht. lia. }
    gsimpl. rewrite Hk.
    destruct (Z.ltb_spec k 0); [lia|].
    unfold elem_at. rewrite Ht. unfold rand_Float32. gsimpl.
    eexists. split; [reflexivity|]. done.
Qed.

(** ** Contact damage and game over *)

(** One contact of the contact loop of an enemy: a contact that leaves
    the health of the player at zero or below sets the state to GameOver
    and raises [highScore] to [score] exactly when [score > highScore]; a
    contact that is not lethal, or no contact, leaves state and
    [highScore] alone.  No later contact changes the state back, and
    [Update] in the GameOver state runs no simulation until R or Escape
    is pressed.  The rest of the frame is not covered here: the loops go
    on after a lethal contact. *)
Lemma contact_game_over (i pIdx : nat) (g : Game.t) (player : Player.t)
    (e : Enemy.t) :
  Game.players g !! pIdx = Some player ->
  Game.enemies g !! i = Some e ->
  let hit := (contact_dist player e <? contact_radius e)%f32 in
  let health' := Int.sub (Player.health player) (contact_damage e) in
  exists g' : Game.t,
    enemy_contact i pIdx g = Ok g'
    /\ Game.score g' = Game.score g
    /\ (hit = true -> health' <= 0 ->
        Game.state g' = StateGameOver
        /\ Game.highScore g'
           = (if Game.score g >? Game.highScore g
              then Game.score g else Game.highScore g))
    /\ (hit = false \/ 0 < health' ->
        Game.state g' = Game.state g /\ Game.highScore g' = Game.highScore g)
    /\ (Game.state g = StateGameOver -> Game.state g' = StateGameOver)
    /\ (forall (inp : Input) (dt : float32),
          Game.state g' = StateGameOver ->
          IsKeyPressed inp KeyR = false ->
          IsKeyPressed inp KeyEscape = false ->
          Update inp dt g' = Ok g').
Proof.
  intros Hp He hit health'. unfold enemy_contact, elem_at. rewrite Hp, He.
  cbn [mbind result_bind].
  fold (contact_dist player e). fold (contact_radius e). fold hit.
  assert (Hover : forall (g' : Game.t) (inp : Input) (dt : float32),
             Game.state g' = StateGameOver ->
             IsKeyPressed inp KeyR = false ->
             IsKeyPressed inp KeyEscape = false ->
             Update inp dt g' = Ok g').
  { intros g' inp dt Hs Hr Hesc. unfold Update, press. rewrite Hs, Hr.
    cbn [mbind result_bind]. by rewrite Hesc. }
  destruct hit eqn:Hhit.
  - unfold store_player. gsimpl. fold (contact_damage e). fold health'.
    frame_effects.
    destruct (Z.leb_spec health' 0) as [Hle|Hgt].
    + eexists. split; [reflexivity|].
      destruct (Game.score g >? Game.highScore g) eqn:Hsc; gsimpl;
        (split; [done|]); (split; [done|]); (split; [intros [?|?]; [done|lia]|]);
        (split; [done|]);
        (intros inp dt Hs Hr Hesc; apply (Hover _ inp dt); [exact Hs|done|done]).
    + eexists. split; [reflexivity|]. gsimpl.
      split; [done|]. split; [intros; lia|]. split; [done|]. split; [done|].
      intros inp dt Hs Hr Hesc; apply (Hover _ inp dt); [exact Hs|done|done].
  - exists g. split; [done|]. split; [done|]. split; [done|]. split; [done|].
    split; [done|]. apply Hover.
Qed.

(** ** The spawn controller *)


(** ** Skill cooldowns *)

Lemma max_configured_shape (sk : Skill.t) :
  max_configured sk ->
  exists (m : positive) (e : Z),
    Skill.maxCooldown sk = S754_finite false m e
    /\ bounded F32.prec F32.emax m e = true.
Proof.
  intros (Hv & Hpos & Hfin). destruct (Skill.maxCooldown sk) as [|[]| |[] m e];
    try done. by exists m, e.
Qed.

Lemma cooldown_inv_activated (sk : Skill.t) :
  cooldown_inv sk -> cooldown_inv (activated sk).
Proof.
  intros (Hmax & _). destruct (max_configured_shape sk Hmax) as (m & e & Hm & Hb).
  destruct sk as [name cd mx rd]. cbn in Hm. subst mx.
  unfold activated. split; [exact Hmax|]. cbn.
  split; [exact Hb|]. split; [done|]. split; [|done].
  apply SFleb_pos. right. split; lia.
Qed.

Lemma cooldown_inv_reset (sk : Skill.t) :
  max_configured sk ->
  cooldown_inv (Skill.with_ready true (Skill.with_cooldown (F32.of_int 0) sk)).
Proof.
  intros Hmax. destruct (max_configured_shape sk Hmax) as (m & e & Hm & Hb).
  destruct sk as [name cd mx rd]. cbn in Hm. subst mx.
  split; [exact Hmax|]. by cbn.
Qed.

(** The cooldown step of one frame keeps the invariant, when the frame
    time is a number that is not negative. *)
Lemma cooldown_inv_update (dt : float32) (sk : Skill.t) :
  F32.valid dt = true ->
  (F32.of_int 0 <=? dt)%f32 = true ->
  cooldown_inv sk -> cooldown_inv (update_cooldown dt sk).
Proof.
  intros Hdt Hdt0 Hinv. pose proof Hinv as (Hmax & Hv & H0 & Hle & Hready).
  destruct (max_configured_shape sk Hmax) as (mm & em & Hm & Hb).
  unfold update_cooldown. destruct (Skill.ready sk) eqn:Hr; cbn [negb].
  { exact Hinv. }
  clear Hinv.
  destruct sk as [name cd mx rd]. cbn in *. subst mx rd.
  change (F32.of_int 0) with (S754_zero false) in *.
  destruct cd as [|[]| |[] mc ec]; try done.
  destruct (SFsub_nonneg F32.prec F32.emax ltac:(done) mc ec dt Hv Hdt Hdt0)
    as [Hneg|(m & e & Hsub & Hbm & Hlex)].
  - unfold F32.sub, F32.leb. rewrite Hneg. by split.
  - unfold F32.sub, F32.leb. rewrite Hsub. cbn.
    split; [exact Hmax|]. cbn. split; [exact Hbm|]. split; [done|].
    split; [|done]. apply SFleb_pos. apply SFleb_pos in Hle. lia.
Qed.

Lemma update_cooldown_max (dt : float32) (sk : Skill.t) :
  Skill.maxCooldown (update_cooldown dt sk) = Skill.maxCooldown sk.
Proof.
  unfold update_cooldown. destruct (negb _); [|done].
  by destruct (F32.leb _ _).
Qed.

Lemma createPlayer_cooldown_inv (id : Z) (pos : Vector3.t) :
  Forall cooldown_inv (Player.skills (createPlayer id pos)).
Proof. repeat constructor. Qed.

(** ** Effects of one frame *)

Lemma bind_Ok {A B : Type} (m : result A) (k : A -> result B) (b : B) :
  m ≫= k = Ok b -> exists a : A, m = Ok a /\ k a = Ok b.
Proof. destruct m as [a| |]; cbn; [|done|done]. intros H. by exists a. Qed.

Lemma elem_at_Ok {A : Type} (xs : list A) (i : nat) (x : A) :
  elem_at xs i = Ok x -> xs !! i = Some x.
Proof. unfold elem_at. by destruct (xs !! i); intros [= ->]. Qed.

(** Loops: a relation that every round of the body establishes holds
    around the loop. *)
Lemma for_range_rel {S : Type} (R : S -> S -> Prop)
    (body : nat -> S -> result S) :
  (forall s, R s s) ->
  (forall s1 s2 s3, R s1 s2 -> R s2 s3 -> R s1 s3) ->
  (forall i s s', body i s = Ok s' -> R s s') ->
  forall (n i : nat) (s s' : S), for_range body i n s = Ok s' -> R s s'.
Proof.
  intros Hrefl Htrans Hbody n.
  induction n as [|n IH]; intros i s s' H; cbn [for_range] in H.
  - injection H as <-. apply Hrefl.
  - apply bind_Ok in H as (s1 & H1 & H2). eauto.
Qed.

Lemma for_range_break_rel {S : Type} (R : S -> S -> Prop)
    (body : nat -> S -> result (bool * S)) :
  (forall s, R s s) ->
  (forall s1 s2 s3, R s1 s2 -> R s2 s3 -> R s1 s3) ->
  (forall i s b s', body i s = Ok (b, s') -> R s s') ->
  forall (n i : nat) (s s' : S), for_range_break body i n s = Ok s' -> R s s'.
Proof.
  intros Hrefl Htrans Hbody n.
  induction n as [|n IH]; intros i s s' H; cbn [for_range_break] in H.
  - injection H as <-. apply Hrefl.
  - apply bind_Ok in H as ([b s1] & H1 & H2). destruct b.
    + injection H2 as <-. eauto.
    + eauto.
Qed.

(** Loops with a counter: round [i] takes [R i] to [R (S i)]. *)
Lemma for_range_count {S : Type} (R : nat -> S -> Prop)
    (body : nat -> S -> result S) :
  (forall i s s', body i s = Ok s' -> R i s -> R (Datatypes.S i) s') ->
  forall (n i : nat) (s s' : S),
    for_range body i n s = Ok s' -> R i s -> R (i + n)%nat s'.
Proof.
  intros Hbody n.
  induction n as [|n IH]; intros i s s' H HR; cbn [for_range] in H.
  - injection H as <-. by rewrite Nat.add_0_r.
  - apply bind_Ok in H as (s1 & H1 & H2).
    replace (i + Datatypes.S n)%nat with (Datatypes.S i + n)%nat by lia. eauto.
Qed.

Lemma psteps_weaken (dt : float32) (n m : nat) (p p' : Player.t) :
  (n <= m)%nat -> psteps dt n p p' -> psteps dt m p p'.
Proof.
  intros Hnm H. revert m Hnm.
  induction H as [n p|n p p' p'' _ IH Hs|n p p' d _ IH Hd]; intros m Hnm.
  - constructor.
  - eapply psteps_step; [by apply IH|done].
  - destruct m as [|m]; [lia|]. apply psteps_damage; [|done]. apply IH. lia.
Qed.

Lemma psteps_trans (dt : float32) (n m : nat) (p p' p'' : Player.t) :
  psteps dt n p p' -> psteps dt m p' p'' -> psteps dt (n + m) p p''.
Proof.
  intros H1 H2. revert n p H1.
  induction H2 as [m p'|m p' q q' _ IH Hs|m p' q d _ IH Hd]; intros n p H1.
  - eapply psteps_weaken; [|done]. lia.
  - eapply psteps_step; [by apply IH|done].
  - replace (n + S m)%nat with (S (n + m)) by lia.
    apply psteps_damage; [by apply IH|done].
Qed.

Lemma psteps_one (dt : float32) (n : nat) (p p' : Player.t) :
  pstep dt p p' -> psteps dt n p p'.
Proof. intros H. eapply psteps_step; [constructor|done]. Qed.

Lemma same_pools_refl (g : Game.t) : same_pools g g.
Proof. by repeat split. Qed.

Lemma same_pools_trans (g1 g2 g3 : Game.t) :
  same_pools g1 g2 -> same_pools g2 g3 -> same_pools g1 g3.
Proof.
  intros (H1 & H2 & H3 & H4 & H5) (H1' & H2' & H3' & H4' & H5').
  repeat split; congruence.
Qed.

Lemma Forall2_refl_rel {A : Type} (R : A -> A -> Prop) (l : list A) :
  (forall x, R x x) -> Forall2 R l l.
Proof. intros HR. induction l; constructor; auto. Qed.

Lemma Forall2_trans_rel {A : Type} (R1 R2 R3 : A -> A -> Prop) (l1 l2 l3 : list A) :
  (forall x y z, R1 x y -> R2 y z -> R3 x z) ->
  Forall2 R1 l1 l2 -> Forall2 R2 l2 l3 -> Forall2 R3 l1 l3.
Proof.
  intros HR H1. revert l3.
  induction H1 as [|x y l1 l2 Hxy _ IH]; intros l3 H2; inversion H2; subst.
  - constructor.
  - constructor; eauto.
Qed.

Lemma Forall2_insert_rel {A : Type} (R : A -> A -> Prop) (l : list A) (i : nat)
    (x y : A) :
  (forall z, R z z) -> l !! i = Some x -> R x y -> Forall2 R l (<[i := y]> l).
Proof.
  intros HR Hi Hxy. apply Forall2_same_length_lookup.
  split; [by rewrite length_insert|].
  intros j a b Ha Hb. destruct (decide (j = i)) as [->|Hne].
  - rewrite list_lookup_insert_eq in Hb by (by eapply lookup_lt_Some).
    by simplify_eq.
  - rewrite list_lookup_insert_ne in Hb by done. by simplify_eq.
Qed.

Lemma core_eq_refl (g : Game.t) : core_eq g g.
Proof. repeat split. Qed.

Lemma core_eq_trans (g1 g2 g3 : Game.t) :
  core_eq g1 g2 -> core_eq g2 g3 -> core_eq g1 g3.
Proof.
  intros (Hp & Hs) (Hp' & Hs'). split; [congruence|].
  by eapply same_pools_trans.
Qed.

Lemma core_eq_tick_rel (dt : float32) (n : nat) (g g' : Game.t) :
  core_eq g g' -> tick_rel dt n g g'.
Proof.
  intros (Hp & Hs). unfold tick_rel. rewrite Hp.
  split; [apply Forall2_refl_rel; constructor|done].
Qed.

Lemma tick_rel_refl (dt : float32) (n : nat) (g : Game.t) : tick_rel dt n g g.
Proof. apply core_eq_tick_rel, core_eq_refl. Qed.

Lemma tick_rel_trans (dt : float32) (n m : nat) (g1 g2 g3 : Game.t) :
  tick_rel dt n g1 g2 -> tick_rel dt m g2 g3 -> tick_rel dt (n + m) g1 g3.
Proof.
  intros (Hp1 & Hs1) (Hp2 & Hs2). split.
  - eapply Forall2_trans_rel; [|exact Hp1|exact Hp2]. intros. by eapply psteps_trans.
  - by eapply same_pools_trans.
Qed.

Lemma tick_rel_weaken (dt : float32) (n m : nat) (g g' : Game.t) :
  (n <= m)%nat -> tick_rel dt n g g' -> tick_rel dt m g g'.
Proof.
  intros Hnm (Hp & Hs). split; [|done].
  eapply Forall2_impl; [exact Hp|]. intros. by eapply psteps_weaken.
Qed.

Lemma tick_rel_trans0 (dt : float32) (g1 g2 g3 : Game.t) :
  tick_rel dt 0 g1 g2 -> tick_rel dt 0 g2 g3 -> tick_rel dt 0 g1 g3.
Proof. apply (tick_rel_trans dt 0 0). Qed.

Lemma core_tick_trans (dt : float32) (n : nat) (g1 g2 g3 : Game.t) :
  core_eq g1 g2 -> tick_rel dt n g2 g3 -> tick_rel dt n g1 g3.
Proof.
  intros H1 H2. apply (tick_rel_trans dt 0 n g1 g2 g3); [|done].
  by apply core_eq_tick_rel.
Qed.

Lemma tick_core_trans (dt : float32) (n : nat) (g1 g2 g3 : Game.t) :
  tick_rel dt n g1 g2 -> core_eq g2 g3 -> tick_rel dt n g1 g3.
Proof.
  intros H1 H2. replace n with (n + 0)%nat by lia.
  apply (tick_rel_trans dt n 0 g1 g2 g3); [done|].
  by apply core_eq_tick_rel.
Qed.

(** Goals on the fields of a state written out by field writes. *)
Ltac fields :=
  unfold core_eq, same_pools, store_player, modify_player; gsimpl_goal;
  repeat split;
  rewrite ?length_insert, ?length_alter, ?length_map;
  first [done | congruence | lia].

(** One player is rewritten. *)
Lemma tick_rel_store_player (dt : float32) (n : nat) (g : Game.t) (pIdx : nat)
    (p p' : Player.t) :
  Game.players g !! pIdx = Some p ->
  psteps dt n p p' ->
  tick_rel dt n g (store_player pIdx p' g).
Proof.
  intros Hp Hs. destruct g. split; [|fields].
  unfold store_player. gsimpl.
  eapply Forall2_insert_rel; [constructor|done|done].
Qed.

Lemma tick_rel_modify_player (dt : float32) (n : nat) (g : Game.t) (pIdx : nat)
    (f : Player.t -> Player.t) :
  (forall p, psteps dt n p (f p)) ->
  tick_rel dt n g (modify_player pIdx f g).
Proof.
  intros Hf. destruct g. split; [|fields].
  unfold modify_player. gsimpl.
  apply Forall2_same_length_lookup. split; [by rewrite length_alter|].
  intros j a b Ha Hb. destruct (decide (j = pIdx)) as [->|Hne].
  - rewrite list_lookup_alter_eq, Ha in Hb. cbn in Hb. simplify_eq. apply Hf.
  - rewrite list_lookup_alter_ne in Hb by done. simplify_eq. constructor.
Qed.

Lemma CreateExplosion_core (pos : Vector3.t) (count : Z) (g : Game.t) :
  core_eq g (CreateExplosion pos count g).
Proof.
  destruct (CreateExplosion_frame pos count g) as (ps & r & -> & Hl). fields.
Qed.

Lemma SpawnPowerUp_core (pos : Vector3.t) (g : Game.t) :
  core_eq g (SpawnPowerUp pos g).
Proof.
  destruct (SpawnPowerUp_frame pos g) as (pus & r & -> & Hl). fields.
Qed.

(** Writes to the other fields keep the core. *)
Lemma core_eq_with_state v (g : Game.t) : core_eq g (Game.with_state v g).
Proof. destruct g. fields. Qed.

Lemma core_eq_with_settings v (g : Game.t) : core_eq g (Game.with_settings v g).
Proof. destruct g. fields. Qed.

Lemma core_eq_with_score v (g : Game.t) : core_eq g (Game.with_score v g).
Proof. destruct g. fields. Qed.

Lemma core_eq_with_highScore v (g : Game.t) : core_eq g (Game.with_highScore v g).
Proof. destruct g. fields. Qed.

Lemma core_eq_with_level v (g : Game.t) : core_eq g (Game.with_level v g).
Proof. destruct g. fields. Qed.

Lemma core_eq_with_spawnTimer v (g : Game.t) : core_eq g (Game.with_spawnTimer v g).
Proof. destruct g. fields. Qed.

Lemma core_eq_with_spawnInterval v (g : Game.t) : core_eq g (Game.with_spawnInterval v g).
Proof. destruct g. fields. Qed.

Lemma core_eq_with_enemiesKilled v (g : Game.t) : core_eq g (Game.with_enemiesKilled v g).
Proof. destruct g. fields. Qed.

Lemma core_eq_with_gameTime v (g : Game.t) : core_eq g (Game.with_gameTime v g).
Proof. destruct g. fields. Qed.

Lemma core_eq_with_bossActive v (g : Game.t) : core_eq g (Game.with_bossActive v g).
Proof. destruct g. fields. Qed.

Lemma core_eq_with_bossSpawned v (g : Game.t) : core_eq g (Game.with_bossSpawned v g).
Proof. destruct g. fields. Qed.

Lemma core_eq_with_upgradeChoice v (g : Game.t) : core_eq g (Game.with_upgradeChoice v g).
Proof. destruct g. fields. Qed.

Lemma core_eq_with_coopMode v (g : Game.t) : core_eq g (Game.with_coopMode v g).
Proof. destruct g. fields. Qed.

Lemma core_eq_with_menuSelection v (g : Game.t) : core_eq g (Game.with_menuSelection v g).
Proof. destruct g. fields. Qed.

Lemma core_eq_with_settingsSelection v (g : Game.t) : core_eq g (Game.with_settingsSelection v g).
Proof. destruct g. fields. Qed.

Lemma core_eq_with_currentStage v (g : Game.t) : core_eq g (Game.with_currentStage v g).
Proof. destruct g. fields. Qed.

Lemma core_eq_with_randPos v (g : Game.t) : core_eq g (Game.with_randPos v g).
Proof. destruct g. fields. Qed.

Lemma core_eq_with_enemies xs (g : Game.t) :
  length xs = length (Game.enemies g) -> core_eq g (Game.with_enemies xs g).
Proof. destruct g. intros H. fields. Qed.

Lemma core_eq_with_bullets xs (g : Game.t) :
  length xs = length (Game.bullets g) -> core_eq g (Game.with_bullets xs g).
Proof. destruct g. intros H. fields. Qed.

Lemma core_eq_with_particles xs (g : Game.t) :
  length xs = length (Game.particles g) -> core_eq g (Game.with_particles xs g).
Proof. destruct g. intros H. fields. Qed.

Lemma core_eq_with_powerUps xs (g : Game.t) :
  length xs = length (Game.powerUps g) -> core_eq g (Game.with_powerUps xs g).
Proof. destruct g. intros H. fields. Qed.

Lemma core_eq_with_obstacles xs (g : Game.t) :
  length xs = length (Game.obstacles g) -> core_eq g (Game.with_obstacles xs g).
Proof. destruct g. intros H. fields. Qed.

(** Proves [core_eq g x] along the structure of [x], for a state [x]
    built from [g] by writes to other fields and by particle and pickup
    effects. *)
Ltac core_auto :=
  lazymatch goal with
  | |- core_eq ?a ?b =>
      tryif constr_eq a b then apply core_eq_refl
      else
        let step y lem := (apply (core_eq_trans a y); [core_auto | apply lem]) in
        let pool y lem :=
          (apply (core_eq_trans a y);
           [core_auto
           |apply lem; rewrite ?length_insert, ?length_alter, ?length_map;
            reflexivity]) in
        lazymatch b with
        | CreateExplosion ?p ?c ?y => step y (CreateExplosion_core p c)
        | SpawnPowerUp ?p ?y => step y (SpawnPowerUp_core p)
        | Game.with_state ?v ?y => step y (core_eq_with_state v)
        | Game.with_settings ?v ?y => step y (core_eq_with_settings v)
        | Game.with_score ?v ?y => step y (core_eq_with_score v)
        | Game.with_highScore ?v ?y => step y (core_eq_with_highScore v)
        | Game.with_level ?v ?y => step y (core_eq_with_level v)
        | Game.with_spawnTimer ?v ?y => step y (core_eq_with_spawnTimer v)
        | Game.with_spawnInterval ?v ?y => step y (core_eq_with_spawnInterval v)
        | Game.with_enemiesKilled ?v ?y => step y (core_eq_with_enemiesKilled v)
        | Game.with_gameTime ?v ?y => step y (core_eq_with_gameTime v)
        | Game.with_bossActive ?v ?y => step y (core_eq_with_bossActive v)
        | Game.with_bossSpawned ?v ?y => step y (core_eq_with_bossSpawned v)
        | Game.with_upgradeChoice ?v ?y => step y (core_eq_with_upgradeChoice v)
        | Game.with_coopMode ?v ?y => step y (core_eq_with_coopMode v)
        | Game.with_menuSelection ?v ?y => step y (core_eq_with_menuSelection v)
        | Game.with_settingsSelection ?v ?y => step y (core_eq_with_settingsSelection v)
        | Game.with_currentStage ?v ?y => step y (core_eq_with_currentStage v)
        | Game.with_randPos ?v ?y => step y (core_eq_with_randPos v)
        | Game.with_enemies ?v ?y => pool y (core_eq_with_enemies v)
        | Game.with_bullets ?v ?y => pool y (core_eq_with_bullets v)
        | Game.with_particles ?v ?y => pool y (core_eq_with_particles v)
        | Game.with_powerUps ?v ?y => pool y (core_eq_with_powerUps v)
        | Game.with_obstacles ?v ?y => pool y (core_eq_with_obstacles v)
        | _ => assumption
        end
  end.

Lemma store_obstacle_core (i : nat) (o : Obstacle.t) (g g' : Game.t) :
  store_obstacle i o g = Ok g' -> core_eq g g'.
Proof.
  unfold store_obstacle. destruct (_ <? _)%nat; [|done]. intros [= <-]. fields.
Qed.

Lemma place_walls_core (walls : list (Vector3.t * Vector3.t)) :
  forall (i k : nat) (g g' : Game.t),
    place_walls walls i g = Ok (k, g') -> core_eq g g'.
Proof.
  induction walls as [|[pos size] rest IH]; intros i k g g' H;
    cbn [place_walls] in H.
  - injection H as _ <-. apply core_eq_refl.
  - destruct (_ <=? _)%nat.
    + injection H as _ <-. apply core_eq_refl.
    + apply bind_Ok in H as (g1 & H1 & H2).
      eapply core_eq_trans; [by eapply store_obstacle_core|by eapply IH].
Qed.

Lemma hazards_loop_core (n : nat) :
  forall (i : nat) (g g' : Game.t), hazards_loop n i g = Ok g' -> core_eq g g'.
Proof.
  induction n as [|n IH]; intros i g g' H; cbn [hazards_loop] in H.
  - injection H as <-. apply core_eq_refl.
  - destruct (negb _).
    + injection H as <-. apply core_eq_refl.
    + unfold rand_Float64 in H. apply bind_Ok in H as (g1 & H1 & H2).
      apply store_obstacle_core in H1. apply IH in H2.
      eapply core_eq_trans; [|exact H2].
      eapply core_eq_trans; [|exact H1]. fields.
Qed.

Lemma GenerateStage_core (g g' : Game.t) :
  GenerateStage g = Ok g' -> core_eq g g'.
Proof.
  unfold GenerateStage. set (g1 := Game.with_currentStage _ _).
  assert (H1 : core_eq g g1) by (subst g1; fields).
  intros H. eapply core_eq_trans; [exact H1|]. clear H1.
  destruct (_ =? StageMaze).
  { unfold GenerateMaze in H. apply bind_Ok in H as ([k g2] & Ha & H).
    apply bind_Ok in H as ([k' g3] & Hb & [= <-]).
    eapply core_eq_trans; by eapply place_walls_core. }
  destruct (_ =? StageHazard).
  { by eapply hazards_loop_core. }
  destruct (_ =? StageArena).
  { unfold GenerateArena in H. apply bind_Ok in H as ([k g2] & Ha & [= <-]).
    by eapply place_walls_core. }
  injection H as <-. apply core_eq_refl.
Qed.

(** [after_level_up] and [KillEnemy] keep players and timer; of the
    enemies, [KillEnemy] deactivates one. *)
Lemma after_level_up_core (g g' : Game.t) :
  after_level_up g = Ok g' -> core_eq g g'.
Proof.
  unfold after_level_up. intros H. apply bind_Ok in H as (g1 & H1 & [= <-]).
  assert (core_eq g g1).
  { destruct (_ =? 1); [by apply GenerateStage_core|].
    injection H1 as <-. apply core_eq_refl. }
  eapply core_eq_trans; [done|]. destruct (_ && _); [fields | apply core_eq_refl].
Qed.

Lemma KillEnemy_core (index : nat) (g g' : Game.t) :
  KillEnemy index g = Ok g' -> core_eq g g'.
Proof.
  intros H.
  destruct (Game.enemies g !! index) as [e|] eqn:He.
  2: { unfold KillEnemy, elem_at in H. rewrite He in H. discriminate. }
  apply (core_eq_trans g (Game.with_enemies (<[index := Enemy.with_active false e]> (Game.enemies g)) g)).
  { apply core_eq_with_enemies, length_insert. }
  revert H. unfold KillEnemy, elem_at. rewrite He.
  cbn [mbind result_bind Enemy.isBoss Enemy.with_active Enemy.position].
  generalize (Game.with_enemies (<[index:=Enemy.with_active false e]> (Game.enemies g)) g).
  clear g He. intros g.
  destruct (Enemy.isBoss e).
  - destruct (after_level_up _) as [g2| |] eqn:H2; [|done|done].
    apply after_level_up_core in H2.
    cbn [mbind result_bind negb andb]. intros [= <-].
    apply (core_eq_trans _ g2); [|core_auto].
    eapply core_eq_trans; [|exact H2]. core_auto.
  - cbn [mbind result_bind negb andb].
    destruct (_ && _).
    + intros H. apply after_level_up_core in H.
      eapply core_eq_trans; [|exact H]. core_auto.
    + intros [= <-]. core_auto.
Qed.

Lemma Ok_inj {A : Type} (a b : A) : Ok a = Ok b -> a = b.
Proof. by intros [= ->]. Qed.

Lemma Ok_pair_inj {A B : Type} (a c : A) (b d : B) :
  Ok (a, b) = Ok (c, d) -> a = c /\ b = d.
Proof. by intros [= -> ->]. Qed.

(** Steps on a hypothesis that a computation has returned. *)
Ltac case_if H :=
  match type of H with
  | (if ?c then _ else _) = _ => destruct c eqn:?
  | (if ?c then _ else _) ≫= _ = _ => destruct c eqn:?
  end.

Ltac bind_in H x Hx :=
  apply bind_Ok in H as (x & Hx & H).

Ltac unpair H := cbv beta iota zeta in H.

Lemma core_eq_players (g g' : Game.t) (pIdx : nat) (p : Player.t) :
  core_eq g g' -> Game.players g !! pIdx = Some p ->
  Game.players g' !! pIdx = Some p.
Proof. intros (-> & _). done. Qed.

Lemma SpawnBoss_core (g : Game.t) : core_eq g (SpawnBoss g).
Proof.
  unfold SpawnBoss, rand_Float64.
  destruct (first_slot _ _); [|apply core_eq_refl].
  cbv beta iota zeta. core_auto.
Qed.

Lemma spawn_enemy_scan_core (slots : list Enemy.t) :
  forall (i : nat) (g g' : Game.t),
    spawn_enemy_scan slots i g = Ok g' -> core_eq g g'.
Proof.
  induction slots as [|slot rest IH]; intros i g g' H;
    cbn [spawn_enemy_scan] in H.
  - apply Ok_inj in H as <-. apply core_eq_refl.
  - destruct (Enemy.active slot); [by eapply IH|].
    unfold rand_Float64 in H. unpair H.
    case_if H.
    + apply IH in H. eapply core_eq_trans; [|exact H]. core_auto.
    + bind_in H kg Hk. destruct kg as [k g1].
      unfold rand_Intn in Hk. destruct (_ <=? 0) in Hk; [done|].
      apply Ok_pair_inj in Hk as [<- <-].
      bind_in H tp Htp. unfold rand_Float32, rand_Float64 in H. unpair H.
      apply Ok_inj in H as <-. core_auto.
Qed.

Lemma SpawnEnemy_core (g g' : Game.t) : SpawnEnemy g = Ok g' -> core_eq g g'.
Proof. unfold SpawnEnemy. apply spawn_enemy_scan_core. Qed.

Lemma update_spawn_core (dt : float32) (g g' : Game.t) :
  update_spawn dt g = Ok g' -> core_eq g g'.
Proof.
  unfold update_spawn. intros H. case_if H.
  2: { apply Ok_inj in H as <-. apply core_eq_refl. }
  unpair H. case_if H.
  2: { apply Ok_inj in H as <-. core_auto. }
  case_if H.
  - apply SpawnEnemy_core in H. eapply core_eq_trans; [|exact H]. core_auto.
  - apply Ok_inj in H as <-. core_auto.
Qed.

(** A shot writes the bullet pool and the time of the last shot. *)
Lemma ShootBullet_tick (dt : float32) (pIdx : nat) (g g' : Game.t) :
  ShootBullet pIdx g = Ok g' -> tick_rel dt 0 g g'.
Proof.
  unfold ShootBullet. intros H. bind_in H player Hp. apply elem_at_Ok in Hp.
  case_if H.
  { apply Ok_inj in H as <-. apply tick_rel_refl. }
  destruct (first_slot _ _) as [i|].
  2: { apply Ok_inj in H as <-. apply tick_rel_refl. }
  unfold rand_Float32 in H. unpair H. apply Ok_inj in H as <-.
  match goal with
  | |- tick_rel _ _ _ (store_player _ _ ?y) =>
      assert (Hc : core_eq g y) by core_auto;
      apply (core_tick_trans dt 0 g y); [exact Hc|]
  end.
  apply (tick_rel_store_player dt 0 _ pIdx player).
  - by apply (core_eq_players g).
  - apply psteps_one. constructor.
Qed.

(** ** Skills and controls *)

Lemma explosion_hit_core (player : Player.t) (i : nat) (g g' : Game.t) :
  explosion_hit player i g = Ok g' -> core_eq g g'.
Proof.
  unfold explosion_hit. intros H. bind_in H e He.
  case_if H.
  { apply Ok_inj in H as <-. apply core_eq_refl. }
  unpair H. case_if H.
  { apply Ok_inj in H as <-. apply core_eq_refl. }
  case_if H.
  - apply KillEnemy_core in H. eapply core_eq_trans; [|exact H]. core_auto.
  - apply Ok_inj in H as <-. core_auto.
Qed.

Lemma radial_shot_core (player : Player.t) (g : Game.t) (deg : Z) :
  core_eq g (radial_shot player g deg).
Proof.
  unfold radial_shot. cbv beta iota zeta.
  destruct (first_slot _ _); [|apply core_eq_refl]. core_auto.
Qed.

Lemma radial_shots_core (player : Player.t) (degs : list Z) :
  forall g : Game.t, core_eq g (foldl (radial_shot player) g degs).
Proof.
  induction degs as [|deg degs IH]; intros g; cbn [foldl].
  - apply core_eq_refl.
  - eapply core_eq_trans; [apply (radial_shot_core player g deg)|apply IH].
Qed.

Lemma skill_at_Ok (player : Player.t) (skillIndex : Z) (sk : Skill.t) :
  skill_at player skillIndex = Ok sk ->
  0 <= skillIndex /\ Player.skills player !! Z.to_nat skillIndex = Some sk.
Proof.
  unfold skill_at. destruct (Z.ltb_spec skillIndex 0) as [Hlt|Hge]; [done|].
  intros H. by apply elem_at_Ok in H.
Qed.

Lemma activated_eq (sk : Skill.t) :
  Skill.with_cooldown (Skill.maxCooldown (Skill.with_ready false sk))
    (Skill.with_ready false sk) = activated sk.
Proof. by destruct sk. Qed.

(** The effect of a skill, before the cooldown is started. *)
Lemma skill_effect_tick (dt : float32) (pIdx : nat) (skillIndex : Z)
    (player : Player.t) (g g' : Game.t) :
  Game.players g !! pIdx = Some player ->
  (if skillIndex =? 0 then
     g ← for_range (explosion_hit player) O (length (Game.enemies g)) g;
     Ok (CreateExplosion (Player.position player) 30 g)
   else if skillIndex =? 1 then
     Ok (foldl (radial_shot player) g
           [0; 30; 60; 90; 120; 150; 180; 210; 240; 270; 300; 330])
   else if skillIndex =? 2 then
     let healAmount := 30 in
     let health :=
       int_min_via_float (Int.add (Player.health player) healAmount)
         (PlayerStats.maxHealth (Player.stats player)) in
     let g := store_player pIdx (Player.with_health health player) g in
     Ok (CreateExplosion (Player.position player) 20 g)
   else Ok g) = Ok g' ->
  tick_rel dt 0 g g'.
Proof.
  intros Hp H. case_if H.
  { bind_in H g0 H0.
    apply (for_range_rel core_eq) in H0;
      [|apply core_eq_refl|apply core_eq_trans|apply explosion_hit_core].
    apply Ok_inj in H as <-. apply core_eq_tick_rel.
    eapply core_eq_trans; [exact H0|apply CreateExplosion_core]. }
  case_if H.
  { apply Ok_inj in H as <-. apply core_eq_tick_rel, radial_shots_core. }
  case_if H.
  { unpair H. apply Ok_inj in H as <-.
    eapply tick_core_trans; [|apply CreateExplosion_core].
    apply (tick_rel_store_player dt 0 g pIdx player); [done|].
    apply psteps_one. constructor. }
  apply Ok_inj in H as <-. apply tick_rel_refl.
Qed.

Lemma UseSkill_tick (dt : float32) (pIdx : nat) (skillIndex : Z) (g g' : Game.t) :
  UseSkill pIdx skillIndex g = Ok g' -> tick_rel dt 0 g g'.
Proof.
  unfold UseSkill. intros H. bind_in H player Hp. apply elem_at_Ok in Hp.
  bind_in H sk Hsk. case_if H.
  { apply Ok_inj in H as <-. apply tick_rel_refl. }
  bind_in H g1 H1. apply (skill_effect_tick dt) in H1; [|exact Hp].
  bind_in H player1 Hp1. apply elem_at_Ok in Hp1.
  bind_in H sk1 Hsk1. apply skill_at_Ok in Hsk1 as [_ Hsk1].
  unpair H. apply Ok_inj in H as <-.
  apply (tick_rel_trans0 dt g g1); [exact H1|].
  apply (tick_rel_store_player dt 0 g1 pIdx player1); [done|].
  apply psteps_one. rewrite activated_eq. by constructor.
Qed.

Lemma skill_keys_tick (dt : float32) (pIdx : nat) (k0 k1 k2 : bool)
    (g g' : Game.t) :
  skill_keys pIdx k0 k1 k2 g = Ok g' -> tick_rel dt 0 g g'.
Proof.
  unfold skill_keys. intros H.
  bind_in H g0 H0. bind_in H g1 H1.
  apply (tick_rel_trans0 dt g g0).
  { destruct k0; [by eapply UseSkill_tick|].
    apply Ok_inj in H0 as <-. apply tick_rel_refl. }
  apply (tick_rel_trans0 dt g0 g1).
  { destruct k1; [by eapply UseSkill_tick|].
    apply Ok_inj in H1 as <-. apply tick_rel_refl. }
  destruct k2; [by eapply UseSkill_tick|].
  apply Ok_inj in H as <-. apply tick_rel_refl.
Qed.

Lemma with_angle_tick (dt : float32) (pIdx : nat) (angle : float32) (g : Game.t) :
  tick_rel dt 0 g (modify_player pIdx (Player.with_angle angle) g).
Proof.
  apply tick_rel_modify_player. intros p. apply psteps_one. constructor.
Qed.

Lemma controls_p1_tick (inp : Input) (dt : float32) (pIdx : nat) (g g' : Game.t) :
  controls_p1 inp pIdx g = Ok g' -> tick_rel dt 0 g g'.
Proof.
  unfold controls_p1. intros H. bind_in H g0 H0. bind_in H player Hp.
  unpair H. apply Ok_inj in H as <-.
  apply (tick_rel_trans0 dt g g0); [|apply with_angle_tick].
  case_if H0; [by eapply ShootBullet_tick|].
  apply Ok_inj in H0 as <-. apply tick_rel_refl.
Qed.

Lemma aim_and_shoot_tick (dt : float32) (pIdx : nat) (angle : float32)
    (g g' : Game.t) :
  aim_and_shoot pIdx angle g = Ok g' -> tick_rel dt 0 g g'.
Proof.
  unfold aim_and_shoot. intros H. apply (ShootBullet_tick dt) in H.
  eapply tick_rel_trans0; [apply with_angle_tick|exact H].
Qed.

Lemma aim_key_tick (dt : float32) (b : bool) (pIdx : nat) (angle : float32)
    (g g' : Game.t) :
  (if b then aim_and_shoot pIdx angle g else Ok g) = Ok g' ->
  tick_rel dt 0 g g'.
Proof.
  destruct b; [apply aim_and_shoot_tick|].
  intros H. apply Ok_inj in H as <-. apply tick_rel_refl.
Qed.

Lemma controls_p2_tick (inp : Input) (dt : float32) (pIdx : nat) (g g' : Game.t) :
  controls_p2 inp pIdx g = Ok g' -> tick_rel dt 0 g g'.
Proof.
  unfold controls_p2. intros H.
  bind_in H g1 H1. bind_in H g2 H2. bind_in H g3 H3. bind_in H g4 H4.
  apply aim_key_tick with (dt := dt) in H1, H2, H3, H4.
  apply (tick_rel_trans0 dt g g1); [done|].
  apply (tick_rel_trans0 dt g1 g2); [done|].
  apply (tick_rel_trans0 dt g2 g3); [done|].
  apply (tick_rel_trans0 dt g3 g4); [done|].
  case_if H.
  2: { apply Ok_inj in H as <-. apply tick_rel_refl. }
  bind_in H player Hp. destruct (nearest_enemy _ _).
  - by eapply aim_and_shoot_tick.
  - apply Ok_inj in H as <-. apply tick_rel_refl.
Qed.

Lemma clamp_psteps (dt : float32) (stage : StageType) (margin : float32)
    (p : Player.t) :
  psteps dt 0 p (clampPlayerToStageBounds stage margin p).
Proof. unfold clampPlayerToStageBounds. apply psteps_one. constructor. Qed.

(** One round of the player loop. *)
Lemma update_player_tick (inp : Input) (dt : float32) (pIdx : nat)
    (g g' : Game.t) :
  update_player inp dt pIdx g = Ok g' -> tick_rel dt 0 g g'.
Proof.
  unfold update_player. intros H. bind_in H player Hp. unpair H.
  bind_in H pg Hpg. destruct pg as [newPos g1]. bind_in H g2 H2.
  apply Ok_inj in H as <-.
  match type of Hpg with
  | context [controls_p1 _ _ ?y] =>
      apply (tick_rel_trans0 dt g y);
        [apply tick_rel_modify_player; intros p; apply psteps_one; constructor|]
  end.
  apply (tick_rel_trans0 dt _ g1).
  { case_if Hpg.
    { bind_in Hpg g0 H0. apply Ok_pair_inj in Hpg as [_ <-]. by eapply controls_p1_tick. }
    case_if Hpg.
    { bind_in Hpg g0 H0. apply Ok_pair_inj in Hpg as [_ <-]. by eapply controls_p2_tick. }
    apply Ok_pair_inj in Hpg as [_ <-]. apply tick_rel_refl. }
  apply (tick_rel_trans0 dt _ g2).
  { case_if H2; [by eapply skill_keys_tick|].
    case_if H2; [by eapply skill_keys_tick|].
    apply Ok_inj in H2 as <-. apply tick_rel_refl. }
  eapply tick_rel_trans0;
    [|apply tick_rel_modify_player; intros p; apply clamp_psteps].
  destruct (negb _); [|apply tick_rel_refl].
  apply tick_rel_modify_player. intros p. apply psteps_one. constructor.
Qed.

(** ** Bullets, enemies and pickups *)

Lemma update_bullet_core (dt : float32) (i : nat) (g g' : Game.t) :
  update_bullet dt i g = Ok g' -> core_eq g g'.
Proof.
  unfold update_bullet. intros H. bind_in H b Hb.
  case_if H.
  { apply Ok_inj in H as <-. apply core_eq_refl. }
  unpair H. case_if H; apply Ok_inj in H as <-; core_auto.
Qed.

(** Splits a frame at the write to the player. *)
Ltac core_suffix dt n g :=
  match goal with
  | |- tick_rel _ _ _ ?t =>
      match t with
      | context [store_player ?i ?p ?y] =>
          apply (tick_core_trans dt n g (store_player i p y)); [|core_auto]
      end
  end.

(** A contact costs the player 20 or 30 health, once. *)
Lemma enemy_contact_tick (dt : float32) (i pIdx : nat) (g g' : Game.t) :
  enemy_contact i pIdx g = Ok g' -> tick_rel dt 1 g g'.
Proof.
  unfold enemy_contact. intros H. bind_in H player Hp. apply elem_at_Ok in Hp.
  bind_in H e He. unpair H. case_if H.
  2: { apply Ok_inj in H as <-. apply tick_rel_refl. }
  assert (Hd : psteps dt 1 player
                 (Player.with_health
                    (Int.sub (Player.health player)
                       (if Enemy.isBoss e then 30 else 20)) player)).
  { apply (psteps_damage dt 0 player player); [constructor|].
    destruct (Enemy.isBoss e); auto. }
  case_if H; apply Ok_inj in H as <-.
  - match goal with |- context [if ?c then _ else _] => destruct c end;
      core_suffix dt 1%nat g; by apply (tick_rel_store_player dt 1 g pIdx player).
  - core_suffix dt 1%nat g. by apply (tick_rel_store_player dt 1 g pIdx player).
Qed.

Lemma enemy_bullet_core (i j : nat) (g g' : Game.t) :
  enemy_bullet i j g = Ok g' -> core_eq g g'.
Proof.
  unfold enemy_bullet. intros H. bind_in H b Hb.
  case_if H.
  { apply Ok_inj in H as <-. apply core_eq_refl. }
  bind_in H e He. unpair H. case_if H.
  2: { apply Ok_inj in H as <-. apply core_eq_refl. }
  case_if H.
  - apply KillEnemy_core in H. eapply core_eq_trans; [|exact H]. core_auto.
  - apply Ok_inj in H as <-. core_auto.
Qed.

Lemma tick_rel_players_length (dt : float32) (n : nat) (g g' : Game.t) :
  tick_rel dt n g g' -> length (Game.players g') = length (Game.players g).
Proof. intros [H _]. symmetry. by eapply Forall2_length. Qed.

Lemma tick_rel_enemies_length (dt : float32) (n : nat) (g g' : Game.t) :
  tick_rel dt n g g' -> length (Game.enemies g') = length (Game.enemies g).
Proof. by intros [_ [H _]]. Qed.

(** One round of the enemy loop: at most one contact with each player. *)
Lemma update_enemy_tick (dt : float32) (i : nat) (g g' : Game.t) :
  update_enemy dt i g = Ok g' ->
  tick_rel dt (length (Game.players g)) g g'.
Proof.
  unfold update_enemy. intros H. bind_in H e He.
  case_if H.
  { apply Ok_inj in H as <-. apply tick_rel_refl. }
  bind_in H p0 Hp0. unpair H. bind_in H nearestPlayer Hn. unpair H.
  bind_in H g1 H1.
  match type of H1 with
  | for_range _ _ _ ?y = _ =>
      assert (Hc : core_eq g y) by (apply core_eq_with_enemies, length_insert);
      pose proof
        (for_range_count (fun k s => tick_rel dt k y s) (enemy_contact i)) as Hloop;
      cbv beta in Hloop;
      apply Hloop in H1; [| |apply tick_rel_refl]; clear Hloop;
      [replace (length (Game.players y)) with (length (Game.players g)) in H1
         by (by destruct Hc as [-> _])|]
  end.
  - apply (for_range_rel core_eq) in H;
      [|apply core_eq_refl|apply core_eq_trans|apply enemy_bullet_core].
    eapply tick_core_trans; [|exact H].
    eapply core_tick_trans; [exact Hc|exact H1].
  - intros k s s' Hs HR. replace (S k) with (k + 1)%nat by lia.
    eapply tick_rel_trans; [exact HR|by eapply enemy_contact_tick].
Qed.

Lemma grant_pickup_psteps (dt : float32) (pType : Z) (p : Player.t) :
  psteps dt 0 p (grant_pickup pType p).
Proof.
  unfold grant_pickup. cbv zeta.
  destruct (pType =? 0); [apply psteps_one; constructor|].
  destruct (pType =? 1); [apply psteps_one; by constructor|].
  destruct (pType =? 2); [apply psteps_one; by constructor|].
  constructor.
Qed.

Lemma pickup_contact_tick (dt : float32) (i pIdx : nat) (b : bool)
    (g g' : Game.t) :
  pickup_contact i pIdx g = Ok (b, g') -> tick_rel dt 0 g g'.
Proof.
  unfold pickup_contact. intros H. bind_in H player Hp. apply elem_at_Ok in Hp.
  bind_in H pu Hpu. unpair H. case_if H.
  2: { apply Ok_pair_inj in H as [_ <-]. apply tick_rel_refl. }
  apply Ok_pair_inj in H as [_ <-].
  eapply tick_core_trans; [|apply CreateExplosion_core].
  match goal with
  | |- tick_rel _ _ _ (store_player _ _ ?y) =>
      assert (Hc : core_eq g y) by (apply core_eq_with_powerUps, length_insert);
      apply (core_tick_trans dt 0 g y); [exact Hc|]
  end.
  apply (tick_rel_store_player dt 0 _ pIdx player).
  - by apply (core_eq_players g).
  - apply grant_pickup_psteps.
Qed.

Lemma update_powerUp_tick (dt : float32) (i : nat) (g g' : Game.t) :
  update_powerUp dt i g = Ok g' -> tick_rel dt 0 g g'.
Proof.
  unfold update_powerUp. intros H. bind_in H pu Hpu.
  case_if H.
  { apply Ok_inj in H as <-. apply tick_rel_refl. }
  unpair H.
  apply (for_range_break_rel (tick_rel dt 0)) in H;
    [|apply tick_rel_refl|apply tick_rel_trans0
     |intros k s b s'; apply pickup_contact_tick].
  eapply core_tick_trans; [|exact H].
  apply core_eq_with_powerUps, length_insert.
Qed.

(** ** The whole frame *)

Lemma tick_rel_same_pools (dt : float32) (n : nat) (g g' : Game.t) :
  tick_rel dt n g g' -> same_pools g g'.
Proof. by intros [_ H]. Qed.

(** The simulation step changes every player by the writes of [pstep]
    and by at most one contact per enemy slot and player. *)
Lemma update_playing_tick (inp : Input) (dt : float32) (g g' : Game.t) :
  update_playing inp dt g = Ok g' ->
  tick_rel dt (length (Game.enemies g) * length (Game.players g)) g g'.
Proof.
  unfold update_playing. intros H. unpair H.
  bind_in H g1 H1. bind_in H g2 H2. bind_in H g3 H3. bind_in H g4 H4.
  apply (for_range_rel (tick_rel dt 0)) in H1;
    [|apply tick_rel_refl|apply tick_rel_trans0
     |intros k s s'; apply (update_player_tick inp)].
  apply (core_tick_trans dt 0 g _ g1 (core_eq_with_gameTime _ g)) in H1.
  apply (for_range_rel core_eq) in H2;
    [|apply core_eq_refl|apply core_eq_trans
     |intros k s s'; apply update_bullet_core].
  apply update_spawn_core in H3.
  assert (Hb : core_eq g2 g3).
  { eapply core_eq_trans; [|exact H3].
    destruct (_ && _); [apply SpawnBoss_core|apply core_eq_refl]. }
  clear H3.
  assert (H03 : tick_rel dt 0 g g3).
  { eapply tick_core_trans; [|exact Hb].
    eapply tick_core_trans; [exact H1|exact H2]. }
  clear H1 H2 Hb.
  pose proof (tick_rel_players_length _ _ _ _ H03) as Hnp.
  pose proof (tick_rel_enemies_length _ _ _ _ H03) as Hne.
  pose proof
    (for_range_count
       (fun k s => tick_rel dt (k * length (Game.players g)) g3 s)
       (update_enemy dt)) as Hloop.
  cbv beta in Hloop. apply Hloop in H4; [| |apply tick_rel_refl]; clear Hloop.
  2: { intros k s s' Hs HR. apply update_enemy_tick in Hs.
       rewrite (tick_rel_players_length _ _ _ _ HR), Hnp in Hs.
       replace (S k * length (Game.players g))%nat
         with (k * length (Game.players g) + length (Game.players g))%nat by lia.
       eapply tick_rel_trans; [exact HR|exact Hs]. }
  rewrite Hne in H4. cbn [Nat.add] in H4.
  apply (for_range_rel (tick_rel dt 0)) in H;
    [|apply tick_rel_refl|apply tick_rel_trans0
     |intros k s s'; apply update_powerUp_tick].
  assert (H45 : tick_rel dt 0 g4 g').
  { eapply core_tick_trans; [|exact H].
    apply core_eq_with_particles, length_map. }
  replace (length (Game.enemies g) * length (Game.players g))%nat
    with (0 + length (Game.enemies g) * length (Game.players g) + 0)%nat by lia.
  eapply tick_rel_trans; [|exact H45].
  eapply tick_rel_trans; [exact H03|exact H4].
Qed.

Lemma Update_playing_tick (inp : Input) (dt : float32) (g g' : Game.t) :
  Game.state g = StatePlaying ->
  Update inp dt g = Ok g' ->
  tick_rel dt (length (Game.enemies g) * length (Game.players g)) g g'.
Proof.
  intros Hs. unfold Update. rewrite Hs. intros H. case_if H.
  - apply Ok_inj in H as <-. apply core_eq_tick_rel, core_eq_with_state.
  - by apply (update_playing_tick inp).
Qed.

(** ** Health *)

Lemma pstep_hp_ok (dt : float32) (lo : Z) (p p' : Player.t) :
  - 2 ^ 53 < lo -> pstep dt p p' -> hp_ok lo p -> hp_ok lo p'.
Proof.
  intros Hlo Hs [[H1 H2] H3]. destruct Hs; try (by destruct p).
  - unfold hp_ok. destruct p as [pos ang h st ls sks id]. cbn in *.
    assert (Hadd : Int.add h 30 = h + 30).
    { apply wrap_small. unfold Int.in_range, Int.min_int, Int.max_int. lia. }
    rewrite Hadd, int_min_via_float_exact by lia. lia.
  - unfold hp_ok. destruct p. cbn in *. lia.
Qed.

Lemma psteps_hp_ok (dt : float32) (n : nat) (p p' : Player.t) :
  psteps dt n p p' ->
  forall lo : Z,
    - 2 ^ 53 < lo - 30 * Z.of_nat n -> hp_ok lo p ->
    hp_ok (lo - 30 * Z.of_nat n) p'.
Proof.
  induction 1 as [n p|n p p' p'' _ IH Hs|n p p' d _ IH Hd]; intros lo Hlo Hp.
  - destruct Hp as [[H1 H2] H3]. unfold hp_ok. lia.
  - eapply pstep_hp_ok; [exact Hlo|exact Hs|by apply IH].
  - destruct (IH lo ltac:(lia) Hp) as [[H1 H2] H3].
    unfold hp_ok. destruct p' as [pos ang h st ls sks id]. cbn in *.
    assert (Hsub : Int.sub h d = h - d).
    { apply wrap_small. unfold Int.in_range, Int.min_int, Int.max_int. lia. }
    rewrite Hsub. lia.
Qed.

(** ** Cooldowns along a frame *)

Lemma pstep_cooldown_inv (dt : float32) (p p' : Player.t) :
  F32.valid dt = true -> (F32.of_int 0 <=? dt)%f32 = true ->
  pstep dt p p' ->
  Forall cooldown_inv (Player.skills p) -> Forall cooldown_inv (Player.skills p').
Proof.
  intros Hdt Hdt0 Hs Hinv. destruct Hs; try (by destruct p).
  - destruct p as [pos ang h st ls sks id]. cbn in *.
    apply Forall_fmap. eapply Forall_impl; [exact Hinv|].
    intros sk Hsk. by apply cooldown_inv_update.
  - destruct p as [pos ang h st ls sks id]. cbn in *.
    apply Forall_insert; [done|]. apply cooldown_inv_activated.
    by eapply Forall_lookup_1.
Qed.

Lemma psteps_cooldown_inv (dt : float32) (n : nat) (p p' : Player.t) :
  F32.valid dt = true -> (F32.of_int 0 <=? dt)%f32 = true ->
  psteps dt n p p' ->
  Forall cooldown_inv (Player.skills p) -> Forall cooldown_inv (Player.skills p').
Proof.
  intros Hdt Hdt0. induction 1 as [n p|n p p' p'' _ IH Hs|n p p' d _ IH Hd];
    intros Hinv.
  - done.
  - eapply pstep_cooldown_inv; [done|done|exact Hs|by apply IH].
  - destruct p'. by apply IH.
Qed.

Lemma tick_rel_skills_inv (dt : float32) (n : nat) (g g' : Game.t) :
  F32.valid dt = true -> (F32.of_int 0 <=? dt)%f32 = true ->
  tick_rel dt n g g' -> skills_inv g -> skills_inv g'.
Proof.
  intros Hdt Hdt0 [Hp _]. unfold skills_inv.
  induction Hp as [|p p' ps ps' Hpp _ IH]; [done|].
  intros Hinv. apply Forall_cons in Hinv as [H1 H2].
  constructor; [by eapply psteps_cooldown_inv|by apply IH].
Qed.

(** ** Cooldowns outside the simulation step *)

Lemma core_eq_skills_inv (g g' : Game.t) :
  core_eq g g' -> skills_inv g -> skills_inv g'.
Proof. intros [Hp _]. unfold skills_inv. by rewrite Hp. Qed.

Lemma cooldown_inv_max (sk : Skill.t) : cooldown_inv sk -> max_configured sk.
Proof. by intros [H _]. Qed.

Lemma reset_player_cooldown_inv (coopMode : bool) (i : nat) (p : Player.t) :
  Forall cooldown_inv (Player.skills p) ->
  Forall cooldown_inv (Player.skills (reset_player coopMode i p)).
Proof.
  intros H. destruct p as [pos ang h st ls sks id]. cbn in *.
  apply Forall_fmap. eapply Forall_impl; [exact H|].
  intros sk Hsk. apply cooldown_inv_reset, cooldown_inv_max, Hsk.
Qed.

Lemma players_with_players (ps : list Player.t) (g : Game.t) :
  Game.players (Game.with_players ps g) = ps.
Proof. by destruct g. Qed.

Lemma skills_inv_with_players (ps : list Player.t) (g : Game.t) :
  Forall (fun p => Forall cooldown_inv (Player.skills p)) ps ->
  skills_inv (Game.with_players ps g).
Proof. unfold skills_inv. by rewrite players_with_players. Qed.

(** Names the state that the first [let] of a returned computation binds,
    so that a chain of writes is followed one write at a time. *)
Ltac let_step H y :=
  match type of H with
  | (let x := ?E in @?B x) = ?r =>
      pose (y := E); change (B y = r) in H; cbv beta in H
  end.

(** One write that keeps the players: the state [gs] and its invariant
    [Hs] are replaced by the state after the write. *)
Ltac inv_write H gs Hs :=
  let y := fresh "g" in
  let Hy := fresh "Hinv" in
  let_step H y;
  assert (Hy : skills_inv y)
    by (subst y; apply (core_eq_skills_inv gs); [core_auto|exact Hs]);
  clearbody y; clear Hs; clear gs; rename y into gs; rename Hy into Hs.

(** The body of [ResetGame], with its chain of writes. *)
Lemma ResetGame_eq (g : Game.t) :
  ResetGame g =
  (let g := Game.with_players
             (imap (reset_player (Game.coopMode g)) (Game.players g)) g in
  let g := Game.with_score 0 g in
  let g := Game.with_level 1 g in
  let g := Game.with_spawnTimer (F32.of_int 0) g in
  let g := Game.with_spawnInterval (F32.lit 3 2) g in
  let g := Game.with_enemiesKilled 0 g in
  let g := Game.with_gameTime (F32.of_int 0) g in
  let g := Game.with_bossActive false g in
  let g := Game.with_bossSpawned false g in
  let g := Game.with_upgradeChoice (-1) g in
  let g := Game.with_currentStage StageBasic g in
  let difficulty := Settings.difficulty (Game.settings g) in
  let g :=
    if difficulty =? 0 then
      Game.with_players (map (set_health_preset 150) (Game.players g))
        (Game.with_spawnInterval (F32.of_int 2) g)
    else if difficulty =? 2 then
      Game.with_players (map (set_health_preset 75) (Game.players g))
        (Game.with_spawnInterval (F32.of_int 1) g)
    else g in
  let g := Game.with_enemies (map (Enemy.with_active false) (Game.enemies g)) g in
  let g := Game.with_bullets (map (Bullet.with_active false) (Game.bullets g)) g in
  let g := Game.with_particles
             (map (Particle.with_active false) (Game.particles g)) g in
  let g := Game.with_powerUps
             (map (PowerUp.with_active false) (Game.powerUps g)) g in
  let g := Game.with_obstacles
             (map (Obstacle.with_active false) (Game.obstacles g)) g in
  GenerateStage g).
Proof. reflexivity. Qed.

Lemma ResetGame_skills_inv (g g' : Game.t) :
  skills_inv g -> ResetGame g = Ok g' -> skills_inv g'.
Proof.
  intros Hinv H. rewrite ResetGame_eq in H.
  assert (Hr : Forall (fun p => Forall cooldown_inv (Player.skills p))
                 (imap (reset_player (Game.coopMode g)) (Game.players g))).
  { apply Forall_lookup. intros i p Hi. rewrite list_lookup_imap in Hi.
    destruct (Game.players g !! i) as [q|] eqn:Hq; [|done].
    cbn in Hi. apply (inj Some) in Hi as <-.
    apply reset_player_cooldown_inv.
    exact (Forall_lookup_1 _ _ i q Hinv Hq). }
  let_step H gs.
  assert (Hs : skills_inv gs) by (subst gs; by apply skills_inv_with_players).
  clearbody gs. clear Hinv Hr g.
  do 10 inv_write H gs Hs.
  let_step H difficulty. clearbody difficulty.
  let_step H g12.
  assert (H12 : skills_inv g12).
  { assert (Hh : forall (h : Z) (x : Game.t),
              skills_inv (Game.with_players
                            (map (set_health_preset h) (Game.players gs)) x)).
    { intros h x. apply skills_inv_with_players, Forall_fmap.
      eapply Forall_impl; [exact Hs|]. intros p Hp. by destruct p. }
    clear H. subst g12. destruct (_ =? 0); [apply Hh|].
    destruct (_ =? 2); [apply Hh|]. assumption. }
  clearbody g12. clear Hs gs difficulty.
  do 5 inv_write H g12 H12.
  apply GenerateStage_core in H. by apply (core_eq_skills_inv _ _ H).
Qed.

Lemma StartGame_skills_inv (coopMode : bool) (g g' : Game.t) :
  StartGame coopMode g = Ok g' -> skills_inv g'.
Proof.
  unfold StartGame. cbv zeta. apply ResetGame_skills_inv.
  unfold skills_inv. destruct g, coopMode; gsimpl_goal;
    repeat (constructor; [apply createPlayer_cooldown_inv|]); constructor.
Qed.

Lemma core_eq_if (c : bool) (g x y : Game.t) :
  core_eq g x -> core_eq g y -> core_eq g (if c then x else y).
Proof. by destruct c. Qed.

(** The menu and settings screens write their own fields only. *)
Lemma UpdateSettings_core (inp : Input) (g : Game.t) :
  core_eq g (UpdateSettings inp g).
Proof.
  unfold UpdateSettings. cbv zeta.
  repeat first [apply core_eq_refl | apply core_eq_if | core_auto].
Qed.

Lemma UpdateMenu_skills_inv (inp : Input) (g g' : Game.t) :
  skills_inv g -> UpdateMenu inp g = Ok g' -> skills_inv g'.
Proof.
  intros Hinv. unfold UpdateMenu. cbv zeta.
  match goal with
  | |- (if _ then (if _ then StartGame _ ?y else _) else _) = _ -> _ =>
      assert (Hc : core_eq g y)
        by repeat first [apply core_eq_refl | apply core_eq_if | core_auto];
      generalize dependent y
  end.
  intros y Hc H. apply (core_eq_skills_inv g y Hc) in Hinv.
  case_if H; [|by apply Ok_inj in H as <-].
  case_if H; [by eapply StartGame_skills_inv|].
  case_if H; [by eapply StartGame_skills_inv|].
  case_if H.
  { apply Ok_inj in H as <-.
    apply (core_eq_skills_inv y); [apply core_eq_with_state|done]. }
  case_if H; [done|]. by apply Ok_inj in H as <-.
Qed.

Lemma upgrade_player_skills (choice : Z) (p : Player.t) :
  Player.skills (upgrade_player choice p) = Player.skills p.
Proof.
  unfold upgrade_player. cbv zeta. destruct p.
  repeat (destruct (choice =? _); [done|]). done.
Qed.

Lemma ApplyUpgrade_skills_inv (choice : Z) (g : Game.t) :
  skills_inv g -> skills_inv (ApplyUpgrade choice g).
Proof.
  unfold skills_inv, ApplyUpgrade. destruct g. gsimpl_goal. gsimpl.
  intros H. apply Forall_fmap. eapply Forall_impl; [exact H|].
  intros p Hp. cbn. by rewrite upgrade_player_skills.
Qed.

Lemma press_inv (P : Game.t -> Prop) (inp : Input) (k : Key)
    (f : Game.t -> Game.t) (g : Game.t) :
  (forall g, P g -> P (f g)) -> P g -> P (press inp k f g).
Proof. intros Hf Hg. unfold press. destruct (IsKeyPressed inp k); auto. Qed.

Lemma with_state_skills_inv (st : GameState) (g : Game.t) :
  skills_inv g -> skills_inv (Game.with_state st g).
Proof. apply core_eq_skills_inv, core_eq_with_state. Qed.

(** [Update] keeps the invariant of the skill slots in every state of the
    game. *)
Lemma Update_skills_inv (inp : Input) (dt : float32) (g g' : Game.t) :
  F32.valid dt = true -> (F32.of_int 0 <=? dt)%f32 = true ->
  skills_inv g -> Update inp dt g = Ok g' -> skills_inv g'.
Proof.
  intros Hdt Hdt0 Hinv H.
  destruct (Game.state g) eqn:Hs; unfold Update in H; rewrite Hs in H.
  - by eapply UpdateMenu_skills_inv.
  - apply Ok_inj in H as <-.
    apply (core_eq_skills_inv g); [apply UpdateSettings_core|done].
  - case_if H.
    + apply Ok_inj in H as <-. by apply with_state_skills_inv.
    + apply (update_playing_tick inp dt) in H.
      by eapply tick_rel_skills_inv.
  - cbv zeta in H. apply Ok_inj in H as <-.
    repeat apply press_inv; try done; apply with_state_skills_inv.
  - cbv zeta in H. apply Ok_inj in H as <-.
    repeat apply press_inv; try done; apply ApplyUpgrade_skills_inv.
  - bind_in H g1 H1. apply Ok_inj in H as <-.
    apply press_inv; [apply with_state_skills_inv|].
    case_if H1; [|by apply Ok_inj in H1 as <-].
    bind_in H1 g2 H2. apply Ok_inj in H1 as <-.
    apply with_state_skills_inv. by eapply ResetGame_skills_inv.
Qed.

(** ** The pools outside the simulation step *)

Lemma core_eq_same_pools (g g' : Game.t) : core_eq g g' -> same_pools g g'.
Proof. by intros [_ H]. Qed.

Lemma same_pools_with_players (ps : list Player.t) (g : Game.t) :
  same_pools g (Game.with_players ps g).
Proof. by destruct g. Qed.

(** One write that keeps the pools, in a chain of writes that starts at
    [g0]. *)
Ltac pools_write H g0 gs Hs :=
  let y := fresh "g" in
  let Hy := fresh "Hp" in
  let_step H y;
  assert (Hy : same_pools g0 y)
    by (subst y; apply (same_pools_trans g0 gs);
        [exact Hs|apply core_eq_same_pools; core_auto]);
  clearbody y; clear Hs; clear gs; rename y into gs; rename Hy into Hs.

Lemma ResetGame_same_pools (g g' : Game.t) :
  ResetGame g = Ok g' -> same_pools g g'.
Proof.
  intros H. rewrite ResetGame_eq in H.
  let_step H gs.
  assert (Hs : same_pools g gs) by (subst gs; apply same_pools_with_players).
  clearbody gs.
  do 10 pools_write H g gs Hs.
  let_step H difficulty. clearbody difficulty.
  let_step H g12.
  assert (H12 : same_pools g g12).
  { assert (Hh : forall (ps : list Player.t) (v : float32),
              same_pools g (Game.with_players ps (Game.with_spawnInterval v gs))).
    { intros ps v. apply (same_pools_trans g gs); [exact Hs|].
      eapply same_pools_trans; [|apply same_pools_with_players].
      apply core_eq_same_pools, core_eq_with_spawnInterval. }
    clear H. subst g12. destruct (_ =? 0); [apply Hh|].
    destruct (_ =? 2); [apply Hh|]. assumption. }
  clearbody g12. clear Hs gs difficulty.
  do 5 pools_write H g g12 H12.
  apply GenerateStage_core in H.
  eapply same_pools_trans; [exact H12|by apply core_eq_same_pools].
Qed.

Lemma StartGame_same_pools (coopMode : bool) (g g' : Game.t) :
  StartGame coopMode g = Ok g' -> same_pools g g'.
Proof.
  unfold StartGame. cbv zeta. intros H. apply ResetGame_same_pools in H.
  eapply same_pools_trans; [|exact H].
  assert (Hc : core_eq g (Game.with_state StatePlaying (Game.with_coopMode coopMode g)))
    by core_auto.
  apply core_eq_same_pools in Hc.
  destruct coopMode;
    (eapply same_pools_trans; [exact Hc|apply same_pools_with_players]).
Qed.

Lemma UpdateMenu_same_pools (inp : Input) (g g' : Game.t) :
  UpdateMenu inp g = Ok g' -> same_pools g g'.
Proof.
  unfold UpdateMenu. cbv zeta.
  match goal with
  | |- (if _ then (if _ then StartGame _ ?y else _) else _) = _ -> _ =>
      assert (Hc : core_eq g y)
        by repeat first [apply core_eq_refl | apply core_eq_if | core_auto];
      generalize dependent y
  end.
  intros y Hc H. apply core_eq_same_pools in Hc.
  apply (same_pools_trans g y); [exact Hc|]. clear Hc.
  case_if H; [|apply Ok_inj in H as <-; apply same_pools_refl].
  case_if H; [by eapply StartGame_same_pools|].
  case_if H; [by eapply StartGame_same_pools|].
  case_if H.
  { apply Ok_inj in H as <-. apply core_eq_same_pools, core_eq_with_state. }
  case_if H; [done|]. apply Ok_inj in H as <-. apply same_pools_refl.
Qed.

Lemma ApplyUpgrade_same_pools (choice : Z) (g : Game.t) :
  same_pools g (ApplyUpgrade choice g).
Proof. unfold ApplyUpgrade. by destruct g. Qed.

Lemma press_rel (R : Game.t -> Game.t -> Prop) (inp : Input) (k : Key)
    (f : Game.t -> Game.t) (g0 g : Game.t) :
  (forall g1 g2 g3, R g1 g2 -> R g2 g3 -> R g1 g3) ->
  (forall g, R g (f g)) -> R g0 g -> R g0 (press inp k f g).
Proof.
  intros Ht Hf Hg. unfold press. destruct (IsKeyPressed inp k); eauto.
Qed.

Lemma with_state_same_pools (st : GameState) (g : Game.t) :
  same_pools g (Game.with_state st g).
Proof. apply core_eq_same_pools, core_eq_with_state. Qed.

Lemma Update_same_pools (inp : Input) (dt : float32) (g g' : Game.t) :
  Update inp dt g = Ok g' -> same_pools g g'.
Proof.
  intros H.
  destruct (Game.state g) eqn:Hs; unfold Update in H; rewrite Hs in H.
  - by eapply UpdateMenu_same_pools.
  - apply Ok_inj in H as <-. apply core_eq_same_pools, UpdateSettings_core.
  - case_if H.
    + apply Ok_inj in H as <-. apply with_state_same_pools.
    + apply (update_playing_tick inp dt) in H. by destruct H.
  - cbv zeta in H. apply Ok_inj in H as <-.
    repeat (apply press_rel;
            [apply same_pools_trans|apply with_state_same_pools|]).
    apply same_pools_refl.
  - cbv zeta in H. apply Ok_inj in H as <-.
    repeat (apply press_rel;
            [apply same_pools_trans|apply ApplyUpgrade_same_pools|]).
    apply same_pools_refl.
  - bind_in H g1 H1. apply Ok_inj in H as <-.
    apply press_rel;
      [apply same_pools_trans|apply with_state_same_pools|].
    case_if H1; [|apply Ok_inj in H1 as <-; apply same_pools_refl].
    bind_in H1 g2 H2. apply Ok_inj in H1 as <-.
    eapply same_pools_trans; [by eapply ResetGame_same_pools|].
    apply with_state_same_pools.
Qed.

(** ** Health along a frame *)

Lemma pstep_maxHealth (dt : float32) (p p' : Player.t) :
  pstep dt p p' ->
  PlayerStats.maxHealth (Player.stats p') = PlayerStats.maxHealth (Player.stats p).
Proof. intros H. destruct H; by destruct p. Qed.

Lemma psteps_maxHealth (dt : float32) (n : nat) (p p' : Player.t) :
  psteps dt n p p' ->
  PlayerStats.maxHealth (Player.stats p') = PlayerStats.maxHealth (Player.stats p).
Proof.
  induction 1 as [n p|n p p' p'' _ IH Hs|n p p' d _ IH Hd].
  - done.
  - rewrite <- IH. by eapply pstep_maxHealth.
  - rewrite <- IH. by destruct p'.
Qed.

(** * Further properties of the simulation *)

(** X1.  Whatever the state of the game and the input of the frame, a
    call of [Update] that returns keeps the sizes of the five pools
    (enemies, bullets, particles, pickups, obstacles): slots are reused,
    never added or removed. *)
Theorem Update_keeps_pool_sizes (inp : Input) (dt : float32) (g g' : Game.t) :
  Update inp dt g = Ok g' ->
  length (Game.enemies g') = length (Game.enemies g)
  /\ length (Game.bullets g') = length (Game.bullets g)
  /\ length (Game.particles g') = length (Game.particles g)
  /\ length (Game.powerUps g') = length (Game.powerUps g)
  /\ length (Game.obstacles g') = length (Game.obstacles g).
Proof. intros H. by apply Update_same_pools in H. Qed.

(** X2.  A frame of the Playing state keeps [health <= maxHealth] for
    every player and does not change [maxHealth]: the Energy Shield and
    the heal pickup add 30 and cap at the maximum, contacts only
    subtract.  The values are in the range that the [float64] of
    [math.Min] holds exactly, the pools have their allocated sizes. *)
Theorem Update_health_le_max (inp : Input) (dt : float32) (g g' : Game.t) :
  Game.state g = StatePlaying ->
  (length (Game.enemies g) <= maxEnemies)%nat ->
  (length (Game.players g) <= 2)%nat ->
  Forall (hp_ok (- 2 ^ 52)) (Game.players g) ->
  Update inp dt g = Ok g' ->
  Forall2 (fun p p' =>
             PlayerStats.maxHealth (Player.stats p')
             = PlayerStats.maxHealth (Player.stats p)
             /\ health_le_max p')
    (Game.players g) (Game.players g').
Proof.
  intros Hs Hne Hnp Hhp H. apply Update_playing_tick in H; [|done].
  destruct H as [HF _].
  assert (Hn : (length (Game.enemies g) * length (Game.players g) <= 160)%nat).
  { unfold maxEnemies in Hne.
    change 160%nat with (80 * 2)%nat. by apply Nat.mul_le_mono. }
  revert Hn HF. generalize (length (Game.enemies g) * length (Game.players g))%nat.
  intros n Hn HF. clear Hne Hnp Hs. revert Hhp HF.
  generalize (Game.players g) (Game.players g'). intros ps ps' Hhp HF.
  induction HF as [|p p' ps ps' Hpp _ IH]; [constructor|].
  apply Forall_cons in Hhp as [Hp Hps]. constructor; [|by apply IH].
  split; [by eapply psteps_maxHealth|].
  pose proof (psteps_hp_ok dt n p p' Hpp (- 2 ^ 52) ltac:(lia) Hp) as [[_ H] _].
  exact H.
Qed.

(** X3.  [Update] keeps the invariant of the skill slots in every state
    of the game (menu and start, settings, simulation, pause, upgrade,
    game over and restart), for a frame time that is a number and is not
    negative: every cooldown stays between 0 and the configured maximum,
    and a skill is ready exactly when its cooldown is 0. *)
Theorem Update_keeps_cooldown_invariant (inp : Input) (dt : float32)
    (g g' : Game.t) :
  F32.valid dt = true -> (F32.of_int 0 <=? dt)%f32 = true ->
  skills_inv g -> Update inp dt g = Ok g' -> skills_inv g'.
Proof. apply Update_skills_inv. Qed.

(** ** Allocation in the pools *)

Lemma first_slot_Some {A : Type} (free : A -> bool) (pool : list A) (i : nat) :
  first_slot free pool = Some i ->
  (exists x, pool !! i = Some x /\ free x = true)
  /\ forall j y, (j < i)%nat -> pool !! j = Some y -> free y = false.
Proof.
  revert i. induction pool as [|x rest IH]; intros i H; cbn in H; [done|].
  destruct (free x) eqn:Hx.
  - injection H as <-. split; [by exists x|]. intros j y Hj. lia.
  - destruct (first_slot free rest) as [k|] eqn:Hk; [|done].
    cbn in H. injection H as <-.
    destruct (IH k eq_refl) as [Hex Hlt]. split; [done|].
    intros [|j] y Hj Hy; cbn in Hy; [by simplify_eq|].
    apply (Hlt j); [lia|done].
Qed.

Lemma first_slot_full {A : Type} (free : A -> bool) (pool : list A) :
  Forall (fun x => free x = false) pool -> first_slot free pool = None.
Proof.
  induction 1 as [|x rest Hx _ IH]; cbn; [done|]. by rewrite Hx, IH.
Qed.

Lemma first_slot_None {A : Type} (free : A -> bool) (pool : list A) :
  first_slot free pool = None -> Forall (fun x => free x = false) pool.
Proof.
  induction pool as [|x rest IH]; cbn; [constructor|].
  destruct (free x) eqn:Hx; [done|].
  destruct (first_slot free rest); [done|]. intros _. constructor; auto.
Qed.

(** A write to the first free slot leaves the slots in use as they are. *)
Lemma insert_free_keeps {A : Type} (active : A -> bool) (pool : list A)
    (i : nat) (y : A) :
  first_slot (fun x => negb (active x)) pool = Some i ->
  Forall2 (fun x x' => active x = true -> x' = x) pool (<[i := y]> pool).
Proof.
  intros H. apply first_slot_Some in H as [(x & Hx & Hfree) _].
  apply (Forall2_insert_rel _ pool i x y); [done|done|].
  intros Ha. rewrite Ha in Hfree. done.
Qed.

Lemma alter_free_keeps {A : Type} (active : A -> bool) (pool : list A)
    (i : nat) (f : A -> A) :
  first_slot (fun x => negb (active x)) pool = Some i ->
  Forall2 (fun x x' => active x = true -> x' = x) pool (alter f i pool).
Proof.
  intros H. pose proof H as [(x & Hx & Hfree) _]%first_slot_Some.
  replace (alter f i pool) with (<[i := f x]> pool).
  - by apply insert_free_keeps.
  - apply list_eq. intros j. destruct (decide (j = i)) as [->|Hne].
    + rewrite list_lookup_insert_eq by (by eapply lookup_lt_Some).
      by rewrite list_lookup_alter_eq, Hx.
    + by rewrite list_lookup_insert_ne, list_lookup_alter_ne.
Qed.

Lemma keeps_refl {A : Type} (active : A -> bool) (pool : list A) :
  Forall2 (fun x x' => active x = true -> x' = x) pool pool.
Proof. by apply Forall2_refl_rel. Qed.

Lemma keeps_trans {A : Type} (active : A -> bool) (l1 l2 l3 : list A) :
  Forall2 (fun x x' => active x = true -> x' = x) l1 l2 ->
  Forall2 (fun x x' => active x = true -> x' = x) l2 l3 ->
  Forall2 (fun x x' => active x = true -> x' = x) l1 l3.
Proof.
  apply Forall2_trans_rel. intros x y z Hxy Hyz Ha.
  rewrite <- (Hxy Ha). apply Hyz. by rewrite (Hxy Ha).
Qed.

Lemma all_active_full {A : Type} (active : A -> bool) (pool : list A) :
  Forall (fun x => active x = true) pool ->
  first_slot (fun x => negb (active x)) pool = None.
Proof.
  intros H. apply first_slot_full. eapply Forall_impl; [exact H|].
  intros x Hx. cbn. by rewrite Hx.
Qed.

(** X4.  [ShootBullet] fires at most one bullet, into the first bullet
    slot that is not in use: a bullet in flight is never overwritten.
    Before the fire interval has passed, and when every slot is in use,
    the call changes nothing (the time of the last shot included); a
    bullet that is fired belongs to the player, carries the player's
    damage or three times it, and the time of the last shot becomes the
    game time. *)
Theorem ShootBullet_takes_first_free_slot (pIdx : nat) (g : Game.t)
    (player : Player.t) :
  Game.players g !! pIdx = Some player ->
  ((Game.gameTime g - Player.lastShot player
    <? PlayerStats.fireRate (Player.stats player))%f32 = true ->
   ShootBullet pIdx g = Ok g)
  /\ (Forall (fun b => Bullet.active b = true) (Game.bullets g) ->
      ShootBullet pIdx g = Ok g)
  /\ forall g' : Game.t,
       ShootBullet pIdx g = Ok g' ->
       Forall2 (fun b b' => Bullet.active b = true -> b' = b)
         (Game.bullets g) (Game.bullets g')
       /\ (g' = g
           \/ exists (i : nat) (bullet : Bullet.t),
                first_slot (fun b => negb (Bullet.active b)) (Game.bullets g)
                = Some i
                /\ Game.bullets g' = <[i := bullet]> (Game.bullets g)
                /\ Bullet.active bullet = true
                /\ Bullet.playerId bullet = Player.id player
                /\ (Bullet.damage bullet
                    = PlayerStats.damage (Player.stats player)
                    \/ Bullet.damage bullet
                       = Int.mul (PlayerStats.damage (Player.stats player)) 3)
                /\ Game.players g'
                   = <[pIdx := Player.with_lastShot (Game.gameTime g) player]>
                       (Game.players g)).
Proof.
  intros Hp. unfold ShootBullet, elem_at. rewrite Hp.
  cbn [mbind result_bind]. split; [|split].
  - by intros ->.
  - intros Hfull. destruct (F32.ltb _ _); [done|].
    by rewrite (all_active_full Bullet.active).
  - intros g' H. destruct (F32.ltb _ _).
    { apply Ok_inj in H as <-. split; [apply keeps_refl|by left]. }
    destruct (first_slot _ _) as [i|] eqn:Hi.
    2: { apply Ok_inj in H as <-. split; [apply keeps_refl|by left]. }
    unfold rand_Float32, store_player in H. cbv beta iota zeta in H.
    apply Ok_inj in H as <-. destruct g. gsimpl_goal. cbn [Game.bullets] in Hi.
    split; [by apply insert_free_keeps|]. right.
    eexists i, _. split; [done|]. split; [reflexivity|].
    split; [done|]. split; [done|]. split; [|done].
    cbn. destruct (F32.ltb _ _); auto.
Qed.

(** X5.  [SpawnBoss] puts the boss into the first enemy slot that is not
    in use, with health [50 + level * 10], and sets both boss flags; an
    enemy in play is never overwritten and the players are untouched.
    When every slot is in use nothing happens: the flags stay as they
    are, so that the frame loop tries again. *)
Theorem SpawnBoss_takes_first_free_slot (g : Game.t) :
  (Forall (fun e => Enemy.active e = true) (Game.enemies g) -> SpawnBoss g = g)
  /\ (forall i : nat,
        first_slot (fun e => negb (Enemy.active e)) (Game.enemies g) = Some i ->
        exists boss : Enemy.t,
          Game.enemies (SpawnBoss g) = <[i := boss]> (Game.enemies g)
          /\ Enemy.active boss = true /\ Enemy.isBoss boss = true
          /\ Enemy.health boss = Int.add 50 (Int.mul (Game.level g) 10)
          /\ Enemy.maxHealth boss = Enemy.health boss
          /\ Game.bossActive (SpawnBoss g) = true
          /\ Game.bossSpawned (SpawnBoss g) = true)
  /\ Forall2 (fun e e' => Enemy.active e = true -> e' = e)
       (Game.enemies g) (Game.enemies (SpawnBoss g))
  /\ Game.players (SpawnBoss g) = Game.players g.
Proof.
  unfold SpawnBoss, rand_Float64. split; [|split].
  - intros Hfull. by rewrite (all_active_full Enemy.active).
  - intros i Hi. rewrite Hi. cbv beta iota zeta. destruct g. gsimpl_goal.
    eexists. split; [reflexivity|]. by cbn.
  - destruct (first_slot _ _) as [i|] eqn:Hi.
    + cbv beta iota zeta. destruct g. gsimpl_goal. cbn [Game.enemies] in Hi.
      split; [by apply insert_free_keeps|done].
    + split; [apply keeps_refl|done].
Qed.

Lemma emit_particle_keeps (pos : Vector3.t) (g : Game.t) :
  Forall2 (fun p p' => Particle.active p = true -> p' = p)
    (Game.particles g) (Game.particles (emit_particle pos g)).
Proof.
  unfold emit_particle, rand_Float64, rand_Float32.
  destruct (first_slot _ _) as [i|] eqn:Hi; [|apply keeps_refl].
  cbv beta iota zeta. destruct g. gsimpl_goal. cbn [Game.particles] in Hi.
  by apply insert_free_keeps.
Qed.

Lemma emit_particles_keeps (pos : Vector3.t) (n : nat) (g : Game.t) :
  Forall2 (fun p p' => Particle.active p = true -> p' = p)
    (Game.particles g) (Game.particles (Nat.iter n (emit_particle pos) g)).
Proof.
  induction n as [|n IH]; [apply keeps_refl|]. rewrite Nat.iter_succ.
  eapply (keeps_trans Particle.active); [exact IH|apply emit_particle_keeps].
Qed.

(** What one round of [CreateExplosion] does: nothing when no particle
    slot is free, and otherwise four draws and a particle at [pos] in the
    first free slot. *)
Lemma emit_particle_round (pos : Vector3.t) (g : Game.t) :
  match first_slot (fun p => negb (Particle.active p)) (Game.particles g) with
  | None => emit_particle pos g = g
  | Some i =>
      exists p : Particle.t,
        emit_particle pos g
        = Game.with_randPos (4 + Game.randPos g)
            (Game.with_particles (<[i := p]> (Game.particles g)) g)
        /\ Particle.active p = true /\ Particle.position p = pos
  end.
Proof.
  unfold emit_particle, rand_Float64, rand_Float32.
  destruct (first_slot _ _) as [i|]; [|done].
  cbv beta iota zeta. destruct g. gsimpl_goal.
  eexists. split; [reflexivity|done].
Qed.

Lemma first_slot_free_slots {A : Type} (active : A -> bool) (pool : list A) :
  match first_slot (fun x => negb (active x)) pool with
  | None => free_slots active pool = O
  | Some _ => (0 < free_slots active pool)%nat
  end.
Proof.
  induction pool as [|x rest IH]; cbn [first_slot free_slots]; [done|].
  destruct (active x); cbn [negb]; [|lia].
  destruct (first_slot _ rest); exact IH.
Qed.

Lemma fills_free_slots {A : Type} (active : A -> bool) (fresh : A -> Prop)
    (n : nat) (pool pool' : list A) :
  fills active fresh n pool pool' ->
  free_slots active pool' = (free_slots active pool - n)%nat.
Proof.
  induction 1 as [pool|n|n x pool pool' Hx _ IH|n x y pool pool' Hx Hy _ _ IH];
    cbn [free_slots].
  - lia.
  - done.
  - by rewrite Hx.
  - rewrite Hx, Hy, IH. lia.
Qed.

Lemma fills_length {A : Type} (active : A -> bool) (fresh : A -> Prop)
    (n : nat) (pool pool' : list A) :
  fills active fresh n pool pool' -> length pool' = length pool.
Proof. induction 1; cbn [length]; congruence. Qed.

(** One more round takes the next free slot, when there is one. *)
Lemma fills_first {A : Type} (active : A -> bool) (fresh : A -> Prop) (y : A)
    (pool : list A) :
  active y = true -> fresh y ->
  fills active fresh 1 pool
    (match first_slot (fun x => negb (active x)) pool with
     | Some i => <[i := y]> pool
     | None => pool
     end).
Proof.
  intros Hy Hf. induction pool as [|x rest IH]; cbn [first_slot].
  - constructor.
  - destruct (active x) eqn:Hx; cbn [negb].
    + destruct (first_slot _ rest) as [i|]; cbn [fmap option_fmap option_map];
        by constructor.
    + cbn. constructor; [done|done|done|constructor].
Qed.

Lemma fills_round {A : Type} (active : A -> bool) (fresh : A -> Prop) (y : A)
    (n : nat) (pool pool' : list A) :
  active y = true -> fresh y ->
  fills active fresh n pool pool' ->
  fills active fresh (S n) pool
    (match first_slot (fun x => negb (active x)) pool' with
     | Some i => <[i := y]> pool'
     | None => pool'
     end).
Proof.
  intros Hy Hf.
  induction 1 as [pool|n|n x pool pool' Hx _ IH|n x z pool pool' Hx Hz Hfz _ IH].
  - by apply fills_first.
  - constructor.
  - cbn [first_slot]. rewrite Hx. cbn [negb].
    destruct (first_slot _ pool') as [i|]; cbn [fmap option_fmap option_map];
      by constructor.
  - cbn [first_slot]. rewrite Hz. cbn [negb].
    destruct (first_slot _ pool') as [i|]; cbn [fmap option_fmap option_map];
      by constructor.
Qed.

(** The slots that were free are the ones taken, in the order of the
    pool. *)
Lemma fills_lookup {A : Type} (active : A -> bool) (fresh : A -> Prop)
    (n : nat) (pool pool' : list A) :
  fills active fresh n pool pool' ->
  forall (i : nat) (x : A),
    pool !! i = Some x -> active x = false ->
    exists y : A,
      pool' !! i = Some y
      /\ if (free_slots active (take i pool) <? n)%nat
         then active y = true /\ fresh y
         else y = x.
Proof.
  induction 1 as [pool|n|n x0 pool pool' Hx _ IH|n x0 z pool pool' Hx Hz Hfz _ IH];
    intros i x Hi Ha.
  - exists x. split; [done|]. by destruct (Nat.ltb_spec (free_slots active (take i pool)) 0); [lia|].
  - done.
  - destruct i as [|i]; cbn in Hi.
    + simplify_eq. congruence.
    + destruct (IH i x Hi Ha) as (y & Hy & Hc). exists y. split; [done|].
      cbn [take firstn free_slots]. by rewrite Hx.
  - destruct i as [|i]; cbn in Hi.
    + simplify_eq. exists z. split; [done|]. cbn. done.
    + destruct (IH i x Hi Ha) as (y & Hy & Hc). exists y. split; [done|].
      cbn [take firstn free_slots]. rewrite Hx.
      by replace (S (free_slots active (take i pool)) <? S n)%nat
        with (free_slots active (take i pool) <? n)%nat.
Qed.

Lemma particles_of_write (ps : list Particle.t) (r : nat) (g : Game.t) :
  Game.particles (Game.with_randPos r (Game.with_particles ps g)) = ps
  /\ Game.randPos (Game.with_randPos r (Game.with_particles ps g)) = r.
Proof. by destruct g. Qed.

(** [n] rounds take the first [n] free particle slots and make four
    draws for each slot taken. *)
Lemma emit_particles_fills (pos : Vector3.t) (n : nat) (g : Game.t) :
  fills Particle.active (fun p => Particle.position p = pos) n
    (Game.particles g) (Game.particles (Nat.iter n (emit_particle pos) g))
  /\ Game.randPos (Nat.iter n (emit_particle pos) g)
     = (Game.randPos g
        + 4 * Nat.min n (free_slots Particle.active (Game.particles g)))%nat.
Proof.
  induction n as [|n [IH Hr]].
  - split; [constructor|cbn; lia].
  - rewrite Nat.iter_succ. set (g1 := Nat.iter n (emit_particle pos) g) in *.
    pose proof (fills_free_slots _ _ _ _ _ IH) as Hfree.
    pose proof (emit_particle_round pos g1) as Hround.
    pose proof (first_slot_free_slots Particle.active (Game.particles g1)) as Hs.
    destruct (first_slot _ (Game.particles g1)) as [i|] eqn:Hi.
    + destruct Hround as (p & -> & Hp & Hpos).
      destruct (particles_of_write (<[i:=p]> (Game.particles g1))
                  (4 + Game.randPos g1) g1) as [-> ->].
      split; [|lia].
      pose proof (fills_round Particle.active _ p n _ _ Hp Hpos IH) as Hf.
      by rewrite Hi in Hf.
    + rewrite Hround. split; [|lia].
      pose proof (fills_round Particle.active
                    (fun p => Particle.position p = pos)
                    (Particle.mk pos pos F32.zero true) n _ _ eq_refl eq_refl IH)
        as Hf.
      by rewrite Hi in Hf.
Qed.

(** X6.  [CreateExplosion] runs [min(count, 15)] rounds (the conversion
    through [float64] is exact for a count within 2^53), and each round
    starts a particle at [pos] in the first particle slot that is not in
    use: in the order of the pool, the first [min(count, 15)] free slots
    (all of them when there are fewer) hold a live particle at [pos]
    afterwards, and every other slot is as it was, so a particle that is
    alive is never overwritten.  Four random numbers are drawn for every
    particle started, a count that is not positive starts none, and only
    the particles and the position in the random source change. *)
Theorem CreateExplosion_cap_and_free_slots (pos : Vector3.t) (count : Z)
    (g : Game.t) :
  - 2 ^ 53 < count < 2 ^ 53 ->
  let rounds := Z.to_nat (Z.min count 15) in
  let free := free_slots Particle.active (Game.particles g) in
  let g' := CreateExplosion pos count g in
  (count <= 0 -> g' = g)
  /\ Forall2 (fun p p' => Particle.active p = true -> p' = p)
       (Game.particles g) (Game.particles g')
  /\ (forall (i : nat) (p : Particle.t),
        Game.particles g !! i = Some p -> Particle.active p = false ->
        exists p' : Particle.t,
          Game.particles g' !! i = Some p'
          /\ if (free_slots Particle.active (take i (Game.particles g))
                 <? rounds)%nat
             then Particle.active p' = true /\ Particle.position p' = pos
             else p' = p)
  /\ free_slots Particle.active (Game.particles g') = (free - rounds)%nat
  /\ Game.randPos g' = (Game.randPos g + 4 * Nat.min rounds free)%nat
  /\ exists (ps : list Particle.t) (r : nat),
       g' = Game.with_randPos r (Game.with_particles ps g)
       /\ length ps = length (Game.particles g).
Proof.
  intros Hc rounds free g'.
  assert (E : g' = Nat.iter rounds (emit_particle pos) g).
  { subst g' rounds. unfold CreateExplosion. cbv zeta.
    by rewrite int_min_via_float_exact by lia. }
  destruct (emit_particles_fills pos rounds g) as [Hf Hr].
  rewrite <- E in Hf, Hr.
  split; [|split; [|split; [|split; [|split]]]].
  - intros Hle. rewrite E. replace rounds with O by (subst rounds; lia). done.
  - rewrite E. apply emit_particles_keeps.
  - intros i p Hi Ha. exact (fills_lookup _ _ _ _ _ Hf i p Hi Ha).
  - exact (fills_free_slots _ _ _ _ _ Hf).
  - exact Hr.
  - apply CreateExplosion_frame.
Qed.

(** X7.  [SpawnPowerUp] drops nothing when its roll is above 0.3, or
    when no pickup slot is free: then only the position in the random
    source moves on, by the one draw of the roll.  Otherwise the pickup
    goes into the first pickup slot that is not in use and into no other:
    that slot gets [pos] at height 1, a kind drawn by [rand.Intn(3)] and
    the active flag, and keeps its rotation.  A pickup on the field is
    never overwritten, and nothing but the pickups and the position in
    the random source changes. *)
Theorem SpawnPowerUp_roll_and_free_slot (pos : Vector3.t) (g : Game.t) :
  let roll := randFloat32 env (Game.randPos g) in
  let free := first_slot (fun p => negb (PowerUp.active p)) (Game.powerUps g) in
  ((roll >? F32.lit 3 10)%f32 = true \/ free = None ->
   SpawnPowerUp pos g = Game.with_randPos (S (Game.randPos g)) g)
  /\ (forall i : nat,
        (roll >? F32.lit 3 10)%f32 = false -> free = Some i ->
        exists old : PowerUp.t,
          Game.powerUps g !! i = Some old
          /\ PowerUp.active old = false
          /\ SpawnPowerUp pos g
             = Game.with_powerUps
                 (<[i := PowerUp.mk (Vector3.with_Y (F32.of_int 1) pos) true
                           (randIntn env (S (Game.randPos g)) 3)
                           (PowerUp.rotation old)]> (Game.powerUps g))
                 (Game.with_randPos (S (S (Game.randPos g))) g))
  /\ Forall2 (fun p p' => PowerUp.active p = true -> p' = p)
       (Game.powerUps g) (Game.powerUps (SpawnPowerUp pos g))
  /\ exists (pus : list PowerUp.t) (r : nat),
       SpawnPowerUp pos g = Game.with_randPos r (Game.with_powerUps pus g)
       /\ length pus = length (Game.powerUps g).
Proof.
  intros roll free. split; [|split; [|split]].
  - unfold SpawnPowerUp, rand_Float32. cbv beta iota zeta. fold roll.
    destruct (roll >? F32.lit 3 10)%f32; [done|].
    intros [?|Hn]; [done|]. destruct g. gsimpl_goal.
    subst free. cbn [Game.powerUps] in Hn. by rewrite Hn.
  - intros i Hroll Hi. subst free.
    pose proof Hi as [(old & Hold & Hfree) _]%first_slot_Some.
    exists old. split; [done|].
    split; [by destruct (PowerUp.active old)|].
    unfold SpawnPowerUp, rand_Float32. cbv beta iota zeta. fold roll.
    rewrite Hroll. destruct g. gsimpl_goal. cbn [Game.powerUps] in Hi, Hold.
    rewrite Hi. gsimpl_goal. f_equal.
    apply list_eq. intros j. destruct (decide (j = i)) as [->|Hne].
    + rewrite list_lookup_insert_eq by (by eapply lookup_lt_Some).
      by rewrite list_lookup_alter_eq, Hold.
    + by rewrite list_lookup_insert_ne, list_lookup_alter_ne.
  - unfold SpawnPowerUp, rand_Float32. cbv beta iota zeta.
    destruct (F32.gtb _ _); [destruct g; apply keeps_refl|].
    destruct g. gsimpl_goal.
    destruct (first_slot _ _) as [i|] eqn:Hi; [|apply keeps_refl].
    gsimpl_goal. by apply alter_free_keeps.
  - apply SpawnPowerUp_frame.
Qed.

(** ** Enemies *)

Lemma drop_cons_inv {A : Type} (l : list A) (i : nat) (x : A) (rest : list A) :
  drop i l = x :: rest -> l !! i = Some x /\ drop (S i) l = rest.
Proof.
  intros H. assert (Hx : l !! i = Some x).
  { pose proof (lookup_drop l i 0) as E. rewrite H in E. cbn in E.
    by rewrite Nat.add_0_r in E. }
  split; [done|]. rewrite (drop_S l x i Hx) in H. by injection H.
Qed.

(** The scan of [SpawnEnemy] from slot [i] on writes at most one slot, a
    slot that was not in use. *)
Lemma spawn_enemy_scan_writes (slots : list Enemy.t) :
  forall (i : nat) (g g' : Game.t),
    drop i (Game.enemies g) = slots ->
    spawn_enemy_scan slots i g = Ok g' ->
    Game.enemies g' = Game.enemies g
    \/ exists (j : nat) (e e' : Enemy.t),
         Game.enemies g !! j = Some e /\ Enemy.active e = false
         /\ Game.enemies g' = <[j := e']> (Game.enemies g)
         /\ Enemy.active e' = true /\ Enemy.isBoss e' = false
         /\ Enemy.health e' = Int.add 1 (Int.quot (Int.sub (Game.level g) 1) 3)
         /\ Enemy.maxHealth e' = Enemy.health e'.
Proof.
  induction slots as [|slot rest IH]; intros i g g' Hd H;
    cbn [spawn_enemy_scan] in H.
  - apply Ok_inj in H as <-. by left.
  - apply drop_cons_inv in Hd as [Hi Hd].
    destruct (Enemy.active slot) eqn:Ha; [by eapply IH|].
    unfold rand_Float64 in H. cbv beta iota zeta in H.
    case_if H.
    + apply IH in H; [|by destruct g]. by destruct g.
    + bind_in H kg Hk. destruct kg as [k g1].
      unfold rand_Intn in Hk. destruct (_ <=? 0) in Hk; [done|].
      apply Ok_pair_inj in Hk as [<- <-].
      bind_in H tp Htp. unfold rand_Float32, rand_Float64 in H.
      cbv beta iota zeta in H. apply Ok_inj in H as <-.
      right. exists i, slot. destruct g. gsimpl_goal. gsimpl.
      eexists. split; [done|]. split; [done|]. split; [reflexivity|]. done.
Qed.

(** X8.  A call of [SpawnEnemy] that returns writes at most one enemy
    slot, and only a slot that was not in use: the enemies in play and
    the players are untouched.  The enemy that it spawns is no boss and
    has health [1 + (level - 1) / 3]. *)
Theorem SpawnEnemy_writes_one_free_slot (g g' : Game.t) :
  SpawnEnemy g = Ok g' ->
  Game.players g' = Game.players g
  /\ Forall2 (fun e e' => Enemy.active e = true -> e' = e)
       (Game.enemies g) (Game.enemies g')
  /\ (Game.enemies g' = Game.enemies g
      \/ exists (j : nat) (e e' : Enemy.t),
           Game.enemies g !! j = Some e /\ Enemy.active e = false
           /\ Game.enemies g' = <[j := e']> (Game.enemies g)
           /\ Enemy.active e' = true /\ Enemy.isBoss e' = false
           /\ Enemy.health e' = Int.add 1 (Int.quot (Int.sub (Game.level g) 1) 3)
           /\ Enemy.maxHealth e' = Enemy.health e').
Proof.
  intros H. pose proof (SpawnEnemy_core _ _ H) as [Hp _].
  split; [exact Hp|]. unfold SpawnEnemy in H.
  apply spawn_enemy_scan_writes in H; [|done].
  split; [|exact H].
  destruct H as [->|(j & e & e' & Hj & Ha & -> & _)]; [apply keeps_refl|].
  apply (Forall2_insert_rel _ _ j e e'); [done|done|].
  intros Hact. by rewrite Hact in Ha.
Qed.

(** X9.  [KillEnemy] panics for an index outside the enemy pool.  For an
    index inside it, in a state whose obstacle pool has room for a stage
    layout, it returns; it deactivates the slot and no other enemy, adds
    one to the kill count, and leaves players, bullets, settings, high
    score, game time and spawn timer as they are. *)
Theorem KillEnemy_total_and_frame (index : nat) (g : Game.t) :
  ((length (Game.enemies g) <= index)%nat -> KillEnemy index g = Panic)
  /\ forall e : Enemy.t,
       Game.enemies g !! index = Some e ->
       (10 <= length (Game.obstacles g))%nat ->
       exists g' : Game.t,
         KillEnemy index g = Ok g'
         /\ Game.enemies g' = <[index := Enemy.with_active false e]> (Game.enemies g)
         /\ Game.enemiesKilled g' = Int.add (Game.enemiesKilled g) 1
         /\ Game.players g' = Game.players g
         /\ Game.bullets g' = Game.bullets g
         /\ Game.settings g' = Game.settings g
         /\ Game.highScore g' = Game.highScore g
         /\ Game.gameTime g' = Game.gameTime g
         /\ Game.spawnTimer g' = Game.spawnTimer g.
Proof.
  split.
  - intros Hlen. unfold KillEnemy, elem_at.
    by rewrite lookup_ge_None_2.
  - intros e He Hobs.
    destruct (KillEnemy_spec index g e He Hobs)
      as (sc & ba & lv & bs & st & si & obs & cs & ps & pus & r & H & _).
    eexists. split; [exact H|]. unfold kill_result. by destruct g.
Qed.

(** ** Skills *)

Lemma store_player_lookup (pIdx : nat) (p q : Player.t) (g : Game.t) :
  Game.players g !! pIdx = Some q ->
  Game.players (store_player pIdx p g) !! pIdx = Some p.
Proof.
  intros Hq. unfold store_player. rewrite players_with_players.
  apply list_lookup_insert_eq. by eapply lookup_lt_Some.
Qed.

(** X10.  A call of [UseSkill] on a skill that is ready, when it returns,
    has started the cooldown of the slot: the cooldown is the configured
    maximum and the skill is not ready, so that a second call right after
    it does nothing. *)
Theorem UseSkill_starts_cooldown (pIdx : nat) (skillIndex : Z) (g g' : Game.t)
    (player : Player.t) (sk : Skill.t) :
  Game.players g !! pIdx = Some player ->
  0 <= skillIndex ->
  Player.skills player !! Z.to_nat skillIndex = Some sk ->
  Skill.ready sk = true ->
  UseSkill pIdx skillIndex g = Ok g' ->
  exists (p' : Player.t) (sk' : Skill.t),
    Game.players g' !! pIdx = Some p'
    /\ Player.skills p' !! Z.to_nat skillIndex = Some sk'
    /\ Skill.cooldown sk' = Skill.maxCooldown sk'
    /\ Skill.ready sk' = false
    /\ UseSkill pIdx skillIndex g' = Ok g'.
Proof.
  intros Hp Hk Hsk Hready H. unfold UseSkill in H.
  bind_in H player0 Hp0. apply elem_at_Ok in Hp0.
  assert (player0 = player) as -> by congruence.
  bind_in H sk0 Hsk0. apply skill_at_Ok in Hsk0 as [_ Hsk0].
  assert (sk0 = sk) as -> by congruence.
  rewrite Hready in H. cbn [negb] in H.
  bind_in H g1 H1. clear H1.
  bind_in H player1 Hp1. apply elem_at_Ok in Hp1.
  bind_in H sk1 Hsk1. apply skill_at_Ok in Hsk1 as [_ Hsk1].
  cbv zeta in H. rewrite activated_eq in H. apply Ok_inj in H.
  set (p' := Player.with_skills
               (<[Z.to_nat skillIndex := activated sk1]> (Player.skills player1))
               player1) in H.
  assert (Hp' : Game.players g' !! pIdx = Some p')
    by (rewrite <- H; by eapply store_player_lookup).
  assert (Hsk' : Player.skills p' !! Z.to_nat skillIndex = Some (activated sk1)).
  { subst p'. destruct player1. cbn in *.
    apply list_lookup_insert_eq. by eapply lookup_lt_Some. }
  exists p', (activated sk1). split; [exact Hp'|]. split; [exact Hsk'|].
  split; [by destruct sk1|]. split; [by destruct sk1|].
  clear H. unfold UseSkill, elem_at. rewrite Hp'. cbn [mbind result_bind].
  unfold skill_at, elem_at.
  destruct (Z.ltb_spec skillIndex 0) as [Hlt|_]; [lia|].
  rewrite Hsk'. cbn [mbind result_bind]. by destruct sk1.
Qed.

(** ** Reset *)

Lemma reset_player_fresh (coopMode : bool) (i : nat) (p : Player.t) :
  let p' := reset_player coopMode i p in
  Player.health p' = 100
  /\ Player.stats p' = default_stats
  /\ Player.lastShot p' = F32.of_int 0
  /\ Forall (fun sk => Skill.ready sk = true /\ Skill.cooldown sk = F32.of_int 0)
       (Player.skills p').
Proof.
  destruct p as [pos ang h st ls sks id]. cbn. repeat split.
  apply Forall_fmap, Forall_true. intros sk. by destruct sk.
Qed.

Lemma Forall_imap_intro {A B : Type} (P : B -> Prop) (f : nat -> A -> B)
    (l : list A) :
  (forall i x, P (f i x)) -> Forall P (imap f l).
Proof.
  intros H. apply Forall_lookup. intros i y Hy.
  rewrite list_lookup_imap in Hy. destruct (l !! i); [|done].
  cbn in Hy. apply (inj Some) in Hy as <-. apply H.
Qed.

(** The state that [ResetGame] leaves. *)
Lemma ResetGame_post (g : Game.t) :
  exists g' : Game.t,
    ResetGame g = Ok g'
    /\ Game.score g' = 0 /\ Game.level g' = 1 /\ Game.enemiesKilled g' = 0
    /\ Game.spawnTimer g' = F32.of_int 0 /\ Game.gameTime g' = F32.of_int 0
    /\ Game.bossActive g' = false /\ Game.bossSpawned g' = false
    /\ Game.upgradeChoice g' = -1 /\ Game.currentStage g' = StageBasic
    /\ Game.spawnInterval g'
       = (if Settings.difficulty (Game.settings g) =? 0 then F32.of_int 2
          else if Settings.difficulty (Game.settings g) =? 2 then F32.of_int 1
          else F32.lit 3 2)
    /\ Forall (fun e => Enemy.active e = false) (Game.enemies g')
    /\ Forall (fun b => Bullet.active b = false) (Game.bullets g')
    /\ Forall (fun p => Particle.active p = false) (Game.particles g')
    /\ Forall (fun p => PowerUp.active p = false) (Game.powerUps g')
    /\ Forall (fun o => Obstacle.active o = false) (Game.obstacles g')
    /\ length (Game.players g') = length (Game.players g)
    /\ Forall (fun p =>
                 Player.health p = PlayerStats.maxHealth (Player.stats p)
                 /\ PlayerStats.maxHealth (Player.stats p)
                    = (if Settings.difficulty (Game.settings g) =? 0 then 150
                       else if Settings.difficulty (Game.settings g) =? 2 then 75
                       else 100)
                 /\ PlayerStats.damage (Player.stats p) = 1
                 /\ Player.lastShot p = F32.of_int 0
                 /\ Forall (fun sk => Skill.ready sk = true
                                      /\ Skill.cooldown sk = F32.of_int 0)
                      (Player.skills p))
         (Game.players g')
    /\ Game.state g' = Game.state g /\ Game.highScore g' = Game.highScore g
    /\ Game.settings g' = Game.settings g /\ Game.randPos g' = Game.randPos g.
Proof.
  rewrite ResetGame_eq. unfold GenerateStage.
  destruct g as [st ps es bs pts pus obs sett sc hs lv spt spi ek gt ba bsp
                 uc cm ms ss cs rp].
  gsimpl_goal.
  assert (He : Forall (fun e => Enemy.active e = false)
                 (map (Enemy.with_active false) es))
    by (apply Forall_fmap, Forall_true; intros e; by destruct e).
  assert (Hb : Forall (fun b => Bullet.active b = false)
                 (map (Bullet.with_active false) bs))
    by (apply Forall_fmap, Forall_true; intros e; by destruct e).
  assert (Hpt : Forall (fun p => Particle.active p = false)
                  (map (Particle.with_active false) pts))
    by (apply Forall_fmap, Forall_true; intros e; by destruct e).
  assert (Hpu : Forall (fun p => PowerUp.active p = false)
                  (map (PowerUp.with_active false) pus))
    by (apply Forall_fmap, Forall_true; intros e; by destruct e).
  assert (Ho : Forall (fun o => Obstacle.active o = false)
                 (map (Obstacle.with_active false)
                    (map (Obstacle.with_active false) obs)))
    by (apply Forall_fmap, Forall_true; intros e; by destruct e).
  assert (Hr : Forall (fun p =>
                         Player.health p = PlayerStats.maxHealth (Player.stats p)
                         /\ PlayerStats.maxHealth (Player.stats p) = 100
                         /\ PlayerStats.damage (Player.stats p) = 1
                         /\ Player.lastShot p = F32.of_int 0
                         /\ Forall (fun sk => Skill.ready sk = true
                                              /\ Skill.cooldown sk = F32.of_int 0)
                              (Player.skills p))
                 (imap (reset_player cm) ps)).
  { apply Forall_imap_intro. intros i p.
    destruct (reset_player_fresh cm i p) as (H1 & H2 & H3 & H4).
    rewrite H1, H2. done. }
  assert (Hh : forall h : Z,
            Forall (fun p =>
                      Player.health p = PlayerStats.maxHealth (Player.stats p)
                      /\ PlayerStats.maxHealth (Player.stats p) = h
                      /\ PlayerStats.damage (Player.stats p) = 1
                      /\ Player.lastShot p = F32.of_int 0
                      /\ Forall (fun sk => Skill.ready sk = true
                                           /\ Skill.cooldown sk = F32.of_int 0)
                           (Player.skills p))
              (map (set_health_preset h) (imap (reset_player cm) ps))).
  { intros h. apply Forall_fmap. eapply Forall_impl; [exact Hr|].
    intros [pos ang hp [mh dm sp fr cc stp] ls sks id]. cbn.
    intros (_ & _ & -> & -> & Hsk). done. }
  destruct (Settings.difficulty sett =? 0) eqn:Hd0;
    [|destruct (Settings.difficulty sett =? 2) eqn:Hd2]; gnorm;
    change (stage_of_level 1) with StageBasic;
    change (StageBasic =? StageMaze) with false;
    change (StageBasic =? StageHazard) with false;
    change (StageBasic =? StageArena) with false;
    cbv beta iota;
    (eexists; split; [reflexivity|]); gsimpl_goal;
    rewrite ?length_map, ?length_imap;
    repeat (split; [first [done | apply Hh | exact Hr]|]); done.
Qed.

(** X11.  [ResetGame] always returns and draws no random number.  It
    leaves a fresh run: score 0, level 1, kill count 0, timers 0, boss
    flags cleared, stage type Basic, every enemy, bullet, particle,
    pickup and obstacle slot inactive, and every player at full health
    with the statistics of a new player, the maximum health of the
    difficulty (150 easy, 75 hard, 100 otherwise) and all skills ready.
    The game state, the high score, the settings and the number of
    players are as before. *)
Theorem ResetGame_fresh_run (g : Game.t) :
  exists g' : Game.t,
    ResetGame g = Ok g'
    /\ Game.score g' = 0 /\ Game.level g' = 1 /\ Game.enemiesKilled g' = 0
    /\ Game.spawnTimer g' = F32.of_int 0 /\ Game.gameTime g' = F32.of_int 0
    /\ Game.bossActive g' = false /\ Game.bossSpawned g' = false
    /\ Game.upgradeChoice g' = -1 /\ Game.currentStage g' = StageBasic
    /\ Game.spawnInterval g'
       = (if Settings.difficulty (Game.settings g) =? 0 then F32.of_int 2
          else if Settings.difficulty (Game.settings g) =? 2 then F32.of_int 1
          else F32.lit 3 2)
    /\ Forall (fun e => Enemy.active e = false) (Game.enemies g')
    /\ Forall (fun b => Bullet.active b = false) (Game.bullets g')
    /\ Forall (fun p => Particle.active p = false) (Game.particles g')
    /\ Forall (fun p => PowerUp.active p = false) (Game.powerUps g')
    /\ Forall (fun o => Obstacle.active o = false) (Game.obstacles g')
    /\ length (Game.players g') = length (Game.players g)
    /\ Forall (fun p =>
                 Player.health p = PlayerStats.maxHealth (Player.stats p)
                 /\ PlayerStats.maxHealth (Player.stats p)
                    = (if Settings.difficulty (Game.settings g) =? 0 then 150
                       else if Settings.difficulty (Game.settings g) =? 2 then 75
                       else 100)
                 /\ PlayerStats.damage (Player.stats p) = 1
                 /\ Player.lastShot p = F32.of_int 0
                 /\ Forall (fun sk => Skill.ready sk = true
                                      /\ Skill.cooldown sk = F32.of_int 0)
                      (Player.skills p))
         (Game.players g')
    /\ Game.state g' = Game.state g /\ Game.highScore g' = Game.highScore g
    /\ Game.settings g' = Game.settings g /\ Game.randPos g' = Game.randPos g.
Proof. apply ResetGame_post. Qed.

(** ** The order of the floating-point numbers *)

Lemma SFcompare_antisym (x y : spec_float) (c : comparison) :
  SFcompare x y = Some c -> SFcompare y x = Some (CompOpp c).
Proof.
  destruct x as [sx|sx| |sx mx ex], y as [sy|sy| |sy my ey]; cbn;
    intros [= <-]; try done; try (by destruct sx); try (by destruct sy);
    try (by destruct sx, sy).
  destruct sx, sy; try done.
  - rewrite (Z.compare_antisym ex ey). destruct (ex ?= ey); cbn; try done.
    by rewrite (Pos.compare_cont_antisym mx my Eq).
  - rewrite (Z.compare_antisym ex ey). destruct (ex ?= ey); cbn; try done.
    by rewrite (Pos.compare_cont_antisym mx my Eq).
Qed.

Lemma SFcompare_refl (x : spec_float) : x <> S754_nan -> SFcompare x x = Some Eq.
Proof.
  destruct x as [s|s| |s m e]; cbn; try done; intros _.
  - by destruct s.
  - rewrite Z.compare_refl, Pos.compare_cont_refl. by destruct s.
Qed.

Lemma SFcompare_total (x y : spec_float) :
  x <> S754_nan -> y <> S754_nan -> exists c, SFcompare x y = Some c.
Proof.
  destruct x as [sx|sx| |sx mx ex], y as [sy|sy| |sy my ey]; cbn; try done;
    eauto.
Qed.

Lemma SFleb_refl (x : spec_float) : x <> S754_nan -> SFleb x x = true.
Proof. intros H. unfold SFleb. by rewrite SFcompare_refl. Qed.

Lemma SFltb_false_leb (x y : spec_float) :
  x <> S754_nan -> y <> S754_nan -> SFltb x y = false -> SFleb y x = true.
Proof.
  intros Hx Hy. destruct (SFcompare_total x y Hx Hy) as [c Hc].
  unfold SFltb, SFleb. rewrite Hc, (SFcompare_antisym x y c Hc).
  by destruct c.
Qed.

Lemma SFleb_ltb_false (x y : spec_float) : SFleb x y = true -> SFltb y x = false.
Proof.
  unfold SFleb, SFltb. destruct (SFcompare x y) as [c|] eqn:Hc; [|done].
  rewrite (SFcompare_antisym x y c Hc). by destruct c.
Qed.

Lemma SFleb_not_nan (x y : spec_float) :
  SFleb x y = true -> x <> S754_nan /\ y <> S754_nan.
Proof.
  unfold SFleb. destruct x as [sx|sx| |sx mx ex], y as [sy|sy| |sy my ey];
    cbn; done.
Qed.

(** One coordinate of the clamp: the two tests of the code, in their
    order. *)
Lemma clamp_coordinate (half x : float32) :
  (F32.neg half <=? half)%f32 = true -> x <> S754_nan ->
  let x1 := if (x <? F32.neg half)%f32 then F32.neg half else x in
  let x2 := if (x1 >? half)%f32 then half else x1 in
  (F32.neg half <=? x2)%f32 = true /\ (x2 <=? half)%f32 = true.
Proof.
  unfold F32.leb, F32.ltb, F32.gtb. intros Hh Hx.
  destruct (SFleb_not_nan _ _ Hh) as [Hn Hp]. cbv zeta.
  destruct (SFltb x (F32.neg half)) eqn:H1.
  - rewrite (SFleb_ltb_false _ _ Hh). split; [by apply SFleb_refl|done].
  - destruct (SFltb half x) eqn:H2.
    + split; [done|by apply SFleb_refl].
    + split; by apply SFltb_false_leb.
Qed.

Lemma clamp_coordinate_inside (half x : float32) :
  (F32.neg half <=? x)%f32 = true -> (x <=? half)%f32 = true ->
  (if ((if (x <? F32.neg half)%f32 then F32.neg half else x) >? half)%f32
   then half
   else if (x <? F32.neg half)%f32 then F32.neg half else x) = x.
Proof.
  unfold F32.leb, F32.ltb, F32.gtb. intros H1 H2.
  by rewrite (SFleb_ltb_false _ _ H1), (SFleb_ltb_false _ _ H2).
Qed.

(** The clamp, coordinate by coordinate. *)
Lemma clampPlayerToStageBounds_eq (stage : StageType) (margin : float32)
    (p : Player.t) :
  let half :=
    if stage =? StageArena then (F32.of_int 18 - margin)%f32
    else if stage =? StageMaze then (F32.of_int 28 - margin)%f32
    else if stage =? StageHazard then (F32.of_int 29 - margin)%f32
    else (F32.of_int 30 - margin)%f32 in
  let clamp1 x :=
    let x1 := if (x <? F32.neg half)%f32 then F32.neg half else x in
    if (x1 >? half)%f32 then half else x1 in
  clampPlayerToStageBounds stage margin p
  = Player.with_position
      (Vector3.New (clamp1 (Vector3.X (Player.position p)))
         (Vector3.Y (Player.position p))
         (clamp1 (Vector3.Z (Player.position p)))) p.
Proof.
  unfold clampPlayerToStageBounds. cbv zeta.
  generalize (if stage =? StageArena then (F32.of_int 18 - margin)%f32
              else if stage =? StageMaze then (F32.of_int 28 - margin)%f32
              else if stage =? StageHazard then (F32.of_int 29 - margin)%f32
              else (F32.of_int 30 - margin)%f32).
  intros half. destruct p as [[x y z] ang h st ls sks id].
  cbn [Player.position Player.with_position Vector3.X Vector3.Y Vector3.Z].
  f_equal.
  cbv [Vector3.X Vector3.Y Vector3.Z Vector3.with_X Vector3.with_Z].
  destruct (x <? F32.neg half)%f32;
    cbv [Vector3.X Vector3.Y Vector3.Z Vector3.with_X Vector3.with_Z];
    [destruct (F32.neg half >? half)%f32|destruct (x >? half)%f32];
    cbv [Vector3.X Vector3.Y Vector3.Z Vector3.with_X Vector3.with_Z];
    (destruct (z <? F32.neg half)%f32;
     cbv [Vector3.X Vector3.Y Vector3.Z Vector3.with_X Vector3.with_Z];
     [destruct (F32.neg half >? half)%f32|destruct (z >? half)%f32];
     reflexivity).
Qed.

(** X12.  [clampPlayerToStageBounds] puts the X and Z coordinates of the
    player between [-half] and [half], where [half] is 18, 28, 29 or 30
    minus the margin for the Arena, Maze, Hazard and other stages, when
    [half] is not negative and the coordinates are numbers.  It changes
    nothing else of the player, and a player inside the bounds stays
    where it is: clamping twice is clamping once. *)
Theorem clampPlayerToStageBounds_within (stage : StageType) (margin : float32)
    (p : Player.t) :
  let half :=
    if stage =? StageArena then (F32.of_int 18 - margin)%f32
    else if stage =? StageMaze then (F32.of_int 28 - margin)%f32
    else if stage =? StageHazard then (F32.of_int 29 - margin)%f32
    else (F32.of_int 30 - margin)%f32 in
  let p' := clampPlayerToStageBounds stage margin p in
  (F32.neg half <=? half)%f32 = true ->
  Vector3.X (Player.position p) <> S754_nan ->
  Vector3.Z (Player.position p) <> S754_nan ->
  ((F32.neg half <=? Vector3.X (Player.position p'))%f32 = true
   /\ (Vector3.X (Player.position p') <=? half)%f32 = true
   /\ (F32.neg half <=? Vector3.Z (Player.position p'))%f32 = true
   /\ (Vector3.Z (Player.position p') <=? half)%f32 = true)
  /\ Vector3.Y (Player.position p') = Vector3.Y (Player.position p)
  /\ p' = Player.with_position (Player.position p') p
  /\ clampPlayerToStageBounds stage margin p' = p'.
Proof.
  intros half p' Hh Hx Hz.
  pose proof (clampPlayerToStageBounds_eq stage margin p) as E.
  cbv zeta in E. fold half in E.
  pose proof (clamp_coordinate half _ Hh Hx) as [Hx1 Hx2].
  pose proof (clamp_coordinate half _ Hh Hz) as [Hz1 Hz2].
  cbv zeta in Hx1, Hx2, Hz1, Hz2.
  pose proof (clampPlayerToStageBounds_eq stage margin p') as E'.
  cbv zeta in E'. fold half in E'.
  subst p'. rewrite E in *. clear E.
  destruct p as [[x y z] ang h st ls sks id].
  cbn [Player.position Player.with_position Vector3.X Vector3.Y Vector3.Z] in *.
  split; [done|]. split; [done|]. split; [done|].
  rewrite E'.
  cbv [Player.with_position Player.angle Player.health Player.stats
       Player.lastShot Player.skills Player.id].
  f_equal. f_equal; by apply clamp_coordinate_inside.
Qed.

(** The state that [StartGame] leaves. *)
Lemma StartGame_post (coopMode : bool) (g : Game.t) :
  exists g' : Game.t,
    StartGame coopMode g = Ok g'
    /\ Game.state g' = StatePlaying /\ Game.coopMode g' = coopMode
    /\ map Player.id (Game.players g') = (if coopMode then [0; 1] else [0])
    /\ map Player.position (Game.players g')
       = (if coopMode
          then [vec3 (F32.of_int (-3)) (F32.lit 1 2) (F32.of_int 0);
                vec3 (F32.of_int 3) (F32.lit 1 2) (F32.of_int 0)]
          else [vec3 (F32.of_int 0) (F32.lit 1 2) (F32.of_int 0)])
    /\ Forall (fun p => length (Player.skills p) = 3%nat
                        /\ Player.health p
                           = PlayerStats.maxHealth (Player.stats p))
         (Game.players g')
    /\ Game.level g' = 1 /\ Game.score g' = 0
    /\ Game.menuSelection g' = Game.menuSelection g
    /\ Game.highScore g' = Game.highScore g
    /\ Game.settings g' = Game.settings g.
Proof.
  unfold StartGame. cbv zeta. rewrite ResetGame_eq. unfold GenerateStage.
  destruct g as [st ps es bs pts pus obs sett sc hs lv spt spi ek gt ba bsp
                 uc cm ms ss cs rp].
  destruct coopMode; gsimpl_goal;
    (destruct (Settings.difficulty sett =? 0) eqn:Hd0;
     [|destruct (Settings.difficulty sett =? 2) eqn:Hd2]); gnorm;
    change (stage_of_level 1) with StageBasic;
    change (StageBasic =? StageMaze) with false;
    change (StageBasic =? StageHazard) with false;
    change (StageBasic =? StageArena) with false;
    cbv beta iota;
    (eexists; split; [reflexivity|]); gsimpl_goal;
    repeat (split; [reflexivity|]);
    (split; [by repeat constructor|done]).
Qed.

(** X13.  [StartGame] always returns.  It enters the Playing state with
    one player, or two in co-op mode, numbered from 0 and placed at
    [(0, 0.5, 0)], or at [(-3, 0.5, 0)] and [(3, 0.5, 0)]; every player
    has three skills and full health, the skill slots satisfy their
    invariant, and the run starts at level 1 with score 0. *)
Theorem StartGame_creates_players (coopMode : bool) (g : Game.t) :
  exists g' : Game.t,
    StartGame coopMode g = Ok g'
    /\ Game.state g' = StatePlaying /\ Game.coopMode g' = coopMode
    /\ map Player.id (Game.players g') = (if coopMode then [0; 1] else [0])
    /\ map Player.position (Game.players g')
       = (if coopMode
          then [vec3 (F32.of_int (-3)) (F32.lit 1 2) (F32.of_int 0);
                vec3 (F32.of_int 3) (F32.lit 1 2) (F32.of_int 0)]
          else [vec3 (F32.of_int 0) (F32.lit 1 2) (F32.of_int 0)])
    /\ Forall (fun p => length (Player.skills p) = 3%nat
                        /\ Player.health p
                           = PlayerStats.maxHealth (Player.stats p))
         (Game.players g')
    /\ skills_inv g' /\ Game.level g' = 1 /\ Game.score g' = 0.
Proof.
  destruct (StartGame_post coopMode g)
    as (g' & H & H1 & H2 & H3 & H4 & H5 & H6 & H7 & _).
  exists g'. repeat (split; [assumption|]).
  split; [by eapply StartGame_skills_inv|done].
Qed.

(** ** Menu and settings *)

Lemma Int_add_small (a b : Z) : Int.in_range (a + b) -> Int.add a b = a + b.
Proof. apply wrap_small. Qed.

Lemma Int_sub_small (a b : Z) : Int.in_range (a - b) -> Int.sub a b = a - b.
Proof. apply wrap_small. Qed.

(** Additions and subtractions that stay in the range of [int]. *)
Ltac int_small :=
  repeat match goal with
  | |- context [Int.add ?a ?b] =>
      rewrite (Int_add_small a b)
        by (unfold Int.in_range, Int.min_int, Int.max_int; lia)
  | |- context [Int.sub ?a ?b] =>
      rewrite (Int_sub_small a b)
        by (unfold Int.in_range, Int.min_int, Int.max_int; lia)
  end.

Lemma change_setting_difficulty (right : bool) (sel : Z) (s : Settings.t) :
  0 <= Settings.difficulty s <= 2 ->
  0 <= Settings.difficulty (change_setting right sel s) <= 2.
Proof.
  destruct s as [se me sv mv d]. cbn [Settings.difficulty]. intros Hd.
  unfold change_setting.
  destruct (sel =? 0); [done|]. destruct (sel =? 1); [done|].
  destruct (sel =? 2); [by destruct right|].
  destruct (sel =? 3); [by destruct right|].
  destruct (sel =? 4); [|done].
  destruct right;
    cbn [Settings.difficulty Settings.with_difficulty]; int_small.
  - rewrite Z.gtb_ltb. destruct (Z.ltb_spec 2 (d + 1)); cbn; lia.
  - destruct (Z.ltb_spec (d - 1) 0); cbn; lia.
Qed.

(** X14.  [UpdateSettings] keeps the selected row within 0..5 and the
    difficulty within 0..2 (the arrows wrap around the rows and stop at
    the ends of the difficulty scale); it writes the settings, the
    selected row and the game state only, and the state either stays or
    becomes Menu. *)
Theorem UpdateSettings_keeps_ranges (inp : Input) (g : Game.t) :
  0 <= Game.settingsSelection g <= 5 ->
  0 <= Settings.difficulty (Game.settings g) <= 2 ->
  0 <= Game.settingsSelection (UpdateSettings inp g) <= 5
  /\ 0 <= Settings.difficulty (Game.settings (UpdateSettings inp g)) <= 2
  /\ (Game.state (UpdateSettings inp g) = Game.state g
      \/ Game.state (UpdateSettings inp g) = StateMenu)
  /\ UpdateSettings inp g
     = Game.with_state (Game.state (UpdateSettings inp g))
         (Game.with_settings (Game.settings (UpdateSettings inp g))
            (Game.with_settingsSelection
               (Game.settingsSelection (UpdateSettings inp g)) g)).
Proof.
  destruct g as [st ps es bs pts pus obs sett sc hs lv spt spi ek gt
                 ba bsp uc cm ms ss cs rp].
  cbn [Game.settingsSelection Game.settings Game.state].
  intros Hs Hd. unfold UpdateSettings. cbv zeta.
  destruct (IsKeyPressed inp KeyUp); gsimpl_goal; int_small.
  all: try (destruct (Z.ltb_spec (ss - 1) 0); gsimpl_goal).
  all: destruct (IsKeyPressed inp KeyDown); gsimpl_goal; int_small.
  all: try rewrite Z.gtb_ltb.
  all: repeat match goal with
         | |- context [(?a <? ?b)] => destruct (Z.ltb_spec a b); gsimpl_goal
         end.
  all: destruct (_ || _); gsimpl_goal.
  all: repeat match goal with
         | |- context [if ?c then _ else _] => destruct c; gsimpl_goal
         end.
  all: split; [lia|].
  all: split; [first [by apply change_setting_difficulty | lia]|].
  all: split; [by auto|reflexivity].
Qed.

(** X15.  [UpdateMenu] never panics.  For a selected row within 0..3, Up
    and Down move the row with wrap-around (Up first, then Down), and
    Enter or Space act on the row reached: rows 0 and 1 start a
    single-player or a co-op game, row 2 opens the settings, and row 3,
    and only row 3, exits the program.  Without Enter or Space only the
    selected row changes. *)
Theorem UpdateMenu_rows (inp : Input) (g : Game.t) :
  0 <= Game.menuSelection g <= 3 ->
  let row1 := if IsKeyPressed inp KeyUp
              then (if Game.menuSelection g =? 0 then 3
                    else Game.menuSelection g - 1)
              else Game.menuSelection g in
  let row := if IsKeyPressed inp KeyDown
             then (if row1 =? 3 then 0 else row1 + 1)
             else row1 in
  0 <= row <= 3
  /\ if IsKeyPressed inp KeyEnter || IsKeyPressed inp KeySpace then
       (row = 0 ->
        exists g', UpdateMenu inp g = Ok g' /\ Game.state g' = StatePlaying
                   /\ Game.coopMode g' = false /\ Game.menuSelection g' = row)
       /\ (row = 1 ->
           exists g', UpdateMenu inp g = Ok g' /\ Game.state g' = StatePlaying
                      /\ Game.coopMode g' = true /\ Game.menuSelection g' = row)
       /\ (row = 2 ->
           UpdateMenu inp g
           = Ok (Game.with_state StateSettings (Game.with_menuSelection row g)))
       /\ (UpdateMenu inp g = Exit <-> row = 3)
     else UpdateMenu inp g = Ok (Game.with_menuSelection row g).
Proof.
  destruct g as [st ps es bs pts pus obs sett sc hs lv spt spi ek gt
                 ba bsp uc cm ms ss cs rp].
  intros Hm row1 row. cbn [Game.menuSelection] in Hm, row1.
  assert (Hrow : 0 <= row <= 3).
  { subst row row1. destruct (IsKeyPressed inp KeyUp), (IsKeyPressed inp KeyDown);
      repeat match goal with
             | |- context [(?a =? ?b)] => destruct (Z.eqb_spec a b)
             end; lia. }
  split; [exact Hrow|].
  assert (E : UpdateMenu inp
                (Game.mk st ps es bs pts pus obs sett sc hs lv spt spi ek gt
                   ba bsp uc cm ms ss cs rp)
              = (let g := Game.mk st ps es bs pts pus obs sett sc hs lv spt spi
                            ek gt ba bsp uc cm row ss cs rp in
                 if IsKeyPressed inp KeyEnter || IsKeyPressed inp KeySpace then
                   if row =? 0 then StartGame false g
                   else if row =? 1 then StartGame true g
                   else if row =? 2 then Ok (Game.with_state StateSettings g)
                   else if row =? 3 then Exit
                   else Ok g
                 else Ok g)).
  { unfold UpdateMenu. cbv zeta. subst row row1.
    destruct (IsKeyPressed inp KeyUp); gsimpl_goal; int_small.
    all: try (destruct (Z.ltb_spec (ms - 1) 0); destruct (Z.eqb_spec ms 0);
              try lia; gsimpl_goal).
    all: destruct (IsKeyPressed inp KeyDown); gsimpl_goal; int_small.
    all: try rewrite Z.gtb_ltb.
    all: repeat match goal with
           | |- context [(?a <? ?b)] => destruct (Z.ltb_spec a b); gsimpl_goal
           end.
    all: repeat match goal with
           | |- context [(?a =? 3)] => destruct (Z.eqb_spec a 3); gsimpl_goal
           end.
    all: try lia.
    all: try reflexivity.
    all: repeat match goal with
           | H : ?a = 3 |- _ => rewrite H
           | H : ?a + 1 = _ |- _ => rewrite H
           end; try reflexivity.
    all: match goal with
         | |- context [Game.mk _ _ _ _ _ _ _ _ _ _ _ _ _ _ _ _ _ _ _ ?r _ _ _] =>
             replace r with 0 by lia
         end; reflexivity. }
  rewrite E. clear E. cbv zeta. generalize dependent row. clear row1 Hm.
  intros row Hrow.
  destruct (_ || _); [|reflexivity].
  split; [|split; [|split]].
  - intros ->. cbn [Z.eqb].
    destruct (StartGame_post false
                (Game.mk st ps es bs pts pus obs sett sc hs lv spt spi ek gt
                   ba bsp uc cm 0 ss cs rp))
      as (g' & H & H1 & H2 & _ & _ & _ & _ & _ & H3 & _).
    exists g'. by rewrite H.
  - intros ->. cbn [Z.eqb].
    destruct (StartGame_post true
                (Game.mk st ps es bs pts pus obs sett sc hs lv spt spi ek gt
                   ba bsp uc cm 1 ss cs rp))
      as (g' & H & H1 & H2 & _ & _ & _ & _ & _ & H3 & _).
    exists g'. by rewrite H.
  - intros ->. reflexivity.
  - destruct (Z.eqb_spec row 0) as [->|H0].
    { destruct (StartGame_post false
                  (Game.mk st ps es bs pts pus obs sett sc hs lv spt spi ek gt
                     ba bsp uc cm 0 ss cs rp)) as (g' & H & _).
      rewrite H. split; [done|lia]. }
    destruct (Z.eqb_spec row 1) as [->|H1].
    { destruct (StartGame_post true
                  (Game.mk st ps es bs pts pus obs sett sc hs lv spt spi ek gt
                     ba bsp uc cm 1 ss cs rp)) as (g' & H & _).
      rewrite H. split; [done|lia]. }
    destruct (Z.eqb_spec row 2) as [->|H2]; [split; [done|lia]|].
    destruct (Z.eqb_spec row 3) as [->|H3]; [done|lia].
Qed.

(** ** A frame does not fail *)

Lemma for_range_total {S : Type} (I : S -> Prop) (body : nat -> S -> result S) :
  forall (n lo : nat) (s : S),
    I s ->
    (forall i s, I s -> (lo <= i < lo + n)%nat ->
                 exists s', body i s = Ok s' /\ I s') ->
    exists s', for_range body lo n s = Ok s' /\ I s'.
Proof.
  induction n as [|n IH]; intros lo s Hs Hbody; cbn [for_range].
  - by exists s.
  - destruct (Hbody lo s Hs ltac:(lia)) as (s1 & E1 & H1). rewrite E1.
    cbn [mbind result_bind]. apply IH; [done|].
    intros i s0 Hs0 Hi. apply Hbody; [done|lia].
Qed.

Lemma for_range_break_total {S : Type} (I : S -> Prop)
    (body : nat -> S -> result (bool * S)) :
  forall (n lo : nat) (s : S),
    I s ->
    (forall i s, I s -> (lo <= i < lo + n)%nat ->
                 exists b s', body i s = Ok (b, s') /\ I s') ->
    exists s', for_range_break body lo n s = Ok s' /\ I s'.
Proof.
  induction n as [|n IH]; intros lo s Hs Hbody; cbn [for_range_break].
  - by exists s.
  - destruct (Hbody lo s Hs ltac:(lia)) as (b & s1 & E1 & H1). rewrite E1.
    cbn [mbind result_bind]. destruct b; [by exists s1|].
    apply IH; [done|]. intros i s0 Hs0 Hi. apply Hbody; [done|lia].
Qed.

Lemma elem_at_total {A : Type} (xs : list A) (i : nat) :
  (i < length xs)%nat -> exists x, elem_at xs i = Ok x /\ xs !! i = Some x.
Proof.
  intros H. destruct (lookup_lt_is_Some_2 xs i H) as [x Hx].
  exists x. unfold elem_at. by rewrite Hx.
Qed.

Lemma pstep_skills_length (dt : float32) (p p' : Player.t) :
  pstep dt p p' -> length (Player.skills p') = length (Player.skills p).
Proof.
  intros H. destruct H; destruct p; cbn; try done.
  - apply length_map.
  - apply length_insert.
Qed.

Lemma psteps_skills_length (dt : float32) (n : nat) (p p' : Player.t) :
  psteps dt n p p' -> length (Player.skills p') = length (Player.skills p).
Proof.
  induction 1 as [n p|n p p' p'' _ IH Hs|n p p' d _ IH Hd].
  - done.
  - rewrite <- IH. by eapply pstep_skills_length.
  - rewrite <- IH. by destruct p'.
Qed.

Lemma same_shape_refl (g : Game.t) : well_formed g -> same_shape g g.
Proof. intros H. split; [done|]. split; [apply same_pools_refl|done]. Qed.

Lemma tick_rel_same_shape (dt : float32) (n : nat) (g0 g g' : Game.t) :
  same_shape g0 g -> tick_rel dt n g g' -> same_shape g0 g'.
Proof.
  intros (Hl & Hp & Hn & Hsk & Ho) Ht.
  pose proof (tick_rel_players_length _ _ _ _ Ht) as Hl'.
  destruct Ht as [HF Hp']. split; [congruence|].
  split; [by eapply same_pools_trans|].
  split; [lia|]. split.
  - clear Hl Hl' Hn. revert Hsk HF.
    generalize (Game.players g) (Game.players g'). intros ps ps' Hsk HF.
    induction HF as [|p p' ps ps' Hpp _ IH]; [constructor|].
    apply Forall_cons in Hsk as [H1 H2]. constructor; [|by apply IH].
    by rewrite (psteps_skills_length _ _ _ _ Hpp).
  - destruct Hp' as (_ & _ & _ & _ & Hob). lia.
Qed.

Lemma core_eq_same_shape (g0 g g' : Game.t) :
  same_shape g0 g -> core_eq g g' -> same_shape g0 g'.
Proof.
  intros Hs Hc. apply (tick_rel_same_shape F32.zero 0 g0 g g' Hs).
  by apply core_eq_tick_rel.
Qed.

(** The sizes that a shape fixes. *)
Lemma same_shape_lengths (g0 g : Game.t) :
  same_shape g0 g ->
  length (Game.players g) = length (Game.players g0)
  /\ length (Game.enemies g) = length (Game.enemies g0)
  /\ length (Game.bullets g) = length (Game.bullets g0)
  /\ length (Game.powerUps g) = length (Game.powerUps g0)
  /\ (10 <= length (Game.obstacles g))%nat
  /\ (1 <= length (Game.players g))%nat.
Proof.
  intros (Hl & (H1 & H2 & _ & H4 & _) & Hn & _ & Ho). done.
Qed.

Lemma ShootBullet_total (pIdx : nat) (g : Game.t) :
  (pIdx < length (Game.players g))%nat -> exists g', ShootBullet pIdx g = Ok g'.
Proof.
  intros H. destruct (elem_at_total _ _ H) as (p & E & _).
  unfold ShootBullet. rewrite E. cbn [mbind result_bind].
  destruct (F32.ltb _ _); [by eexists|].
  destruct (first_slot _ _); [|by eexists].
  unfold rand_Float32. cbv beta iota zeta. by eexists.
Qed.

Lemma KillEnemy_total (index : nat) (g : Game.t) :
  (index < length (Game.enemies g))%nat ->
  (10 <= length (Game.obstacles g))%nat ->
  exists g', KillEnemy index g = Ok g'.
Proof.
  intros Hi Ho. destruct (lookup_lt_is_Some_2 _ _ Hi) as [e He].
  destruct (KillEnemy_spec index g e He Ho)
    as (sc & ba & lv & bs & st & si & obs & cs & ps & pus & r & H & _).
  eauto.
Qed.

(** [KillEnemy] on a state that comes from [g] by writes that keep the
    pools. *)
Ltac kill_total g Hi Ho :=
  match goal with
  | |- exists g', KillEnemy ?i ?x = Ok g' =>
      let Hc := fresh "Hc" in
      assert (Hc : core_eq g x) by core_auto;
      destruct Hc as [_ (Hc & _ & _ & _ & ?)];
      apply KillEnemy_total; [rewrite Hc; exact Hi|lia]
  end.

Lemma explosion_hit_total (player : Player.t) (i : nat) (g : Game.t) :
  (i < length (Game.enemies g))%nat ->
  (10 <= length (Game.obstacles g))%nat ->
  exists g', explosion_hit player i g = Ok g'.
Proof.
  intros Hi Ho. destruct (elem_at_total _ _ Hi) as (e & E & _).
  unfold explosion_hit. rewrite E. cbn [mbind result_bind].
  destruct (negb (Enemy.active e)); [by eexists|].
  destruct (negb _); [by eexists|].
  destruct (_ <=? 0); [|by eexists].
  kill_total g Hi Ho.
Qed.

Lemma skill_effect_total (pIdx : nat) (skillIndex : Z) (player : Player.t)
    (g : Game.t) :
  (10 <= length (Game.obstacles g))%nat ->
  exists g',
    (if skillIndex =? 0 then
       g ← for_range (explosion_hit player) O (length (Game.enemies g)) g;
       Ok (CreateExplosion (Player.position player) 30 g)
     else if skillIndex =? 1 then
       Ok (foldl (radial_shot player) g
             [0; 30; 60; 90; 120; 150; 180; 210; 240; 270; 300; 330])
     else if skillIndex =? 2 then
       let healAmount := 30 in
       let health :=
         int_min_via_float (Int.add (Player.health player) healAmount)
           (PlayerStats.maxHealth (Player.stats player)) in
       let g := store_player pIdx (Player.with_health health player) g in
       Ok (CreateExplosion (Player.position player) 20 g)
     else Ok g) = Ok g'.
Proof.
  intros Ho. destruct (skillIndex =? 0).
  - destruct (for_range_total (core_eq g) (explosion_hit player)
                (length (Game.enemies g)) O g (core_eq_refl g))
      as (g1 & E & _).
    { intros i s Hs Hi. destruct Hs as [Hp (He & Hb & Hpt & Hpu & Hob)].
      destruct (explosion_hit_total player i s) as [s' Es]; [lia|lia|].
      exists s'. split; [done|].
      eapply core_eq_trans; [|by eapply explosion_hit_core].
      by split. }
    rewrite E. by eexists.
  - destruct (skillIndex =? 1); [by eexists|].
    destruct (skillIndex =? 2); by eexists.
Qed.

Lemma UseSkill_total (pIdx : nat) (skillIndex : Z) (g : Game.t) :
  (pIdx < length (Game.players g))%nat ->
  Forall (fun p => (3 <= length (Player.skills p))%nat) (Game.players g) ->
  (10 <= length (Game.obstacles g))%nat ->
  0 <= skillIndex < 3 ->
  exists g', UseSkill pIdx skillIndex g = Ok g'.
Proof.
  intros Hp Hsk Ho Hk. destruct (elem_at_total _ _ Hp) as (player & E & Hl).
  assert (Hs : forall p : Player.t,
            (3 <= length (Player.skills p))%nat ->
            exists sk, skill_at p skillIndex = Ok sk).
  { intros p H3. unfold skill_at.
    destruct (Z.ltb_spec skillIndex 0) as [?|_]; [lia|].
    destruct (elem_at_total (Player.skills p) (Z.to_nat skillIndex))
      as (sk & Es & _); [lia|]. by exists sk. }
  destruct (Hs player (Forall_lookup_1 _ _ _ _ Hsk Hl)) as [sk Esk].
  unfold UseSkill. rewrite E. cbn [mbind result_bind].
  rewrite Esk. cbn [mbind result_bind].
  destruct (negb (Skill.ready sk)); [by eexists|].
  destruct (skill_effect_total pIdx skillIndex player g Ho) as [g1 E1].
  cbv zeta in E1. rewrite E1. cbn [mbind result_bind].
  apply (skill_effect_tick F32.zero) in E1; [|exact Hl].
  destruct E1 as [HF _].
  destruct (Forall2_lookup_l _ _ _ _ _ HF Hl) as (p1 & Hl1 & Hpp).
  unfold elem_at at 1. rewrite Hl1. cbn [mbind result_bind].
  destruct (Hs p1) as [sk1 Esk1].
  { rewrite (psteps_skills_length _ _ _ _ Hpp).
    exact (Forall_lookup_1 _ _ _ _ Hsk Hl). }
  rewrite Esk1. cbn [mbind result_bind]. by eexists.
Qed.

(** The steps of the player loop: each returns and keeps the shape. *)
Lemma UseSkill_step (b : bool) (pIdx : nat) (skillIndex : Z) (g0 g : Game.t) :
  same_shape g0 g -> (pIdx < length (Game.players g0))%nat ->
  0 <= skillIndex < 3 ->
  exists g', (if b then UseSkill pIdx skillIndex g else Ok g) = Ok g'
             /\ same_shape g0 g'.
Proof.
  intros Hs Hp Hk. destruct b; [|by exists g].
  pose proof Hs as (Hl & _ & _ & Hsk & Ho).
  destruct (UseSkill_total pIdx skillIndex g) as [g' E];
    [lia|done|done|done|].
  exists g'. split; [done|].
  eapply tick_rel_same_shape; [exact Hs|].
  by apply (UseSkill_tick F32.zero pIdx skillIndex).
Qed.

Ltac step_with lem :=
  let g1 := fresh "g" in
  let E := fresh "E" in
  let Hs := fresh "Hs" in
  destruct lem as (g1 & E & Hs); rewrite E; cbn [mbind result_bind].

Lemma skill_keys_step (pIdx : nat) (k0 k1 k2 : bool) (g0 g : Game.t) :
  same_shape g0 g -> (pIdx < length (Game.players g0))%nat ->
  exists g', skill_keys pIdx k0 k1 k2 g = Ok g' /\ same_shape g0 g'.
Proof.
  intros Hs Hp. unfold skill_keys.
  step_with (UseSkill_step k0 pIdx 0 g0 g Hs Hp ltac:(lia)).
  step_with (UseSkill_step k1 pIdx 1 g0 g1 Hs0 Hp ltac:(lia)).
  apply (UseSkill_step k2 pIdx 2 g0 g2 Hs1 Hp ltac:(lia)).
Qed.

Lemma ShootBullet_step (b : bool) (pIdx : nat) (g0 g : Game.t) :
  same_shape g0 g -> (pIdx < length (Game.players g0))%nat ->
  exists g', (if b then ShootBullet pIdx g else Ok g) = Ok g'
             /\ same_shape g0 g'.
Proof.
  intros Hs Hp. destruct b; [|by exists g].
  pose proof Hs as (Hl & _).
  destruct (ShootBullet_total pIdx g) as [g' E]; [lia|].
  exists g'. split; [done|].
  eapply tick_rel_same_shape; [exact Hs|].
  by apply (ShootBullet_tick F32.zero pIdx).
Qed.

Lemma aim_and_shoot_step (b : bool) (pIdx : nat) (angle : float32)
    (g0 g : Game.t) :
  same_shape g0 g -> (pIdx < length (Game.players g0))%nat ->
  exists g', (if b then aim_and_shoot pIdx angle g else Ok g) = Ok g'
             /\ same_shape g0 g'.
Proof.
  intros Hs Hp. destruct b; [|by exists g]. unfold aim_and_shoot.
  apply (ShootBullet_step true pIdx g0); [|done].
  eapply tick_rel_same_shape; [exact Hs|].
  apply (with_angle_tick F32.zero).
Qed.

Lemma controls_p1_step (inp : Input) (pIdx : nat) (g0 g : Game.t) :
  same_shape g0 g -> (pIdx < length (Game.players g0))%nat ->
  exists g', controls_p1 inp pIdx g = Ok g' /\ same_shape g0 g'.
Proof.
  intros Hs Hp. unfold controls_p1.
  step_with (ShootBullet_step (IsMouseLeftDown inp || IsKeyDown inp KeySpace)
               pIdx g0 g Hs Hp).
  pose proof Hs0 as (Hl & _).
  destruct (elem_at_total (Game.players g1) pIdx) as (p & Ep & _); [lia|].
  rewrite Ep. cbn [mbind result_bind]. eexists. split; [reflexivity|].
  eapply tick_rel_same_shape; [exact Hs0|].
  apply (with_angle_tick F32.zero).
Qed.

Lemma controls_p2_step (inp : Input) (pIdx : nat) (g0 g : Game.t) :
  same_shape g0 g -> (pIdx < length (Game.players g0))%nat ->
  exists g', controls_p2 inp pIdx g = Ok g' /\ same_shape g0 g'.
Proof.
  intros Hs Hp. unfold controls_p2.
  step_with (aim_and_shoot_step (IsKeyDown inp KeyKp8) pIdx
               (F32.neg F32.half_Pi) g0 g Hs Hp).
  step_with (aim_and_shoot_step (IsKeyDown inp KeyKp2) pIdx F32.half_Pi
               g0 g1 Hs0 Hp).
  step_with (aim_and_shoot_step (IsKeyDown inp KeyKp4) pIdx F32.Pi
               g0 g2 Hs1 Hp).
  step_with (aim_and_shoot_step (IsKeyDown inp KeyKp6) pIdx (F32.of_int 0)
               g0 g3 Hs2 Hp).
  destruct (IsKeyPressed inp KeyKp0); [|by exists g4].
  pose proof Hs3 as (Hl & _).
  destruct (elem_at_total (Game.players g4) pIdx) as (p & Ep & _); [lia|].
  rewrite Ep. cbn [mbind result_bind].
  destruct (nearest_enemy _ _); [|by exists g4].
  apply (aim_and_shoot_step true pIdx _ g0 g4 Hs3 Hp).
Qed.

Lemma update_player_step (inp : Input) (dt : float32) (pIdx : nat)
    (g0 g : Game.t) :
  same_shape g0 g -> (pIdx < length (Game.players g0))%nat ->
  exists g', update_player inp dt pIdx g = Ok g' /\ same_shape g0 g'.
Proof.
  intros Hs Hp. pose proof Hs as (Hl & _).
  destruct (elem_at_total (Game.players g) pIdx) as (p & Ep & _); [lia|].
  assert (Hm : forall (f : Player.t -> Player.t) (x : Game.t),
            (forall q, psteps dt 0 q (f q)) ->
            same_shape g0 x -> same_shape g0 (modify_player pIdx f x)).
  { intros f x Hf Hx. eapply tick_rel_same_shape; [exact Hx|].
    by apply tick_rel_modify_player. }
  assert (E : exists g', update_player inp dt pIdx g = Ok g').
  { unfold update_player. rewrite Ep. cbn [mbind result_bind].
    match goal with
    | |- context [controls_p1 inp pIdx ?y] =>
        assert (Hy : same_shape g0 y)
          by (apply Hm; [intros q; apply psteps_one; constructor|exact Hs]);
        generalize dependent y
    end.
    intros y Hy.
    assert (E1 : exists ng, (if Nat.eqb pIdx 0 then
                               g1 ← controls_p1 inp pIdx y;
                               Ok (move_keys inp KeyW KeyS KeyA KeyD
                                     (PlayerStats.speed (Player.stats p) * dt)%f32
                                     (Player.position p), g1)
                             else if Nat.eqb pIdx 1 && Game.coopMode y then
                               g1 ← controls_p2 inp pIdx y;
                               Ok (move_keys inp KeyUp KeyDown KeyLeft KeyRight
                                     (PlayerStats.speed (Player.stats p) * dt)%f32
                                     (Player.position p), g1)
                             else Ok (Player.position p, y)) = Ok ng
                            /\ same_shape g0 ng.2).
    { destruct (Nat.eqb pIdx 0).
      - destruct (controls_p1_step inp pIdx g0 y Hy Hp) as (g1 & E1 & H1).
        rewrite E1. by eexists.
      - destruct (_ && _); [|by eexists].
        destruct (controls_p2_step inp pIdx g0 y Hy Hp) as (g1 & E1 & H1).
        rewrite E1. by eexists. }
    destruct E1 as ([newPos g1] & E1 & H1). cbn [snd] in H1.
    rewrite E1. cbn [mbind result_bind].
    assert (E2 : exists g2,
              (if Nat.eqb pIdx 0 then
                 skill_keys pIdx (IsKeyPressed inp KeyQ) (IsKeyPressed inp KeyE)
                   (IsKeyPressed inp KeyF) g1
               else if Nat.eqb pIdx 1 && Game.coopMode g1 then
                 skill_keys pIdx
                   (IsKeyPressed inp KeyKp1 || IsKeyPressed inp KeyOne)
                   (IsKeyPressed inp KeyKp2 || IsKeyPressed inp KeyTwo)
                   (IsKeyPressed inp KeyKp3 || IsKeyPressed inp KeyThree) g1
               else Ok g1) = Ok g2).
    { destruct (Nat.eqb pIdx 0).
      - destruct (skill_keys_step pIdx (IsKeyPressed inp KeyQ)
                    (IsKeyPressed inp KeyE) (IsKeyPressed inp KeyF) g0 g1 H1 Hp)
          as (g2 & E2 & _). by exists g2.
      - destruct (_ && Game.coopMode g1); [|exists g1; reflexivity].
        destruct (skill_keys_step pIdx
                    (IsKeyPressed inp KeyKp1 || IsKeyPressed inp KeyOne)
                    (IsKeyPressed inp KeyKp2 || IsKeyPressed inp KeyTwo)
                    (IsKeyPressed inp KeyKp3 || IsKeyPressed inp KeyThree)
                    g0 g1 H1 Hp) as (g2 & E2 & _). by exists g2. }
    destruct E2 as (g2 & E2). rewrite E2. cbn [mbind result_bind].
    by eexists. }
  destruct E as [g' E]. exists g'. split; [exact E|].
  eapply tick_rel_same_shape; [exact Hs|].
  by apply (update_player_tick inp dt pIdx).
Qed.

Lemma update_bullet_step (dt : float32) (i : nat) (g0 g : Game.t) :
  same_shape g0 g -> (i < length (Game.bullets g0))%nat ->
  exists g', update_bullet dt i g = Ok g' /\ same_shape g0 g'.
Proof.
  intros Hs Hi. destruct (same_shape_lengths _ _ Hs) as (_ & _ & Hb & _).
  destruct (elem_at_total (Game.bullets g) i) as (b & Eb & _); [lia|].
  assert (E : exists g', update_bullet dt i g = Ok g').
  { unfold update_bullet. rewrite Eb. cbn [mbind result_bind].
    destruct (negb _); [by eexists|].
    destruct (CheckObstacleCollision _ _ _); by eexists. }
  destruct E as [g' E]. exists g'. split; [exact E|].
  eapply core_eq_same_shape; [exact Hs|by eapply update_bullet_core].
Qed.

Lemma players_with_randPos (r : nat) (g : Game.t) :
  Game.players (Game.with_randPos r g) = Game.players g.
Proof. by destruct g. Qed.

Lemma spawn_enemy_scan_total (slots : list Enemy.t) :
  rand_in_range env ->
  forall (i : nat) (g : Game.t),
    (1 <= length (Game.players g))%nat ->
    exists g', spawn_enemy_scan slots i g = Ok g'.
Proof.
  intros Hr. induction slots as [|slot rest IH]; intros i g Hp;
    cbn [spawn_enemy_scan].
  - by eexists.
  - destruct (Enemy.active slot); [by apply IH|].
    unfold rand_Float64. cbv beta iota zeta.
    destruct (CheckObstacleCollision _ _ _).
    { apply IH. by rewrite !players_with_randPos. }
    unfold rand_Intn. rewrite !players_with_randPos.
    destruct (Z.leb_spec (Z.of_nat (length (Game.players g))) 0) as [?|Hpos];
      [lia|].
    cbn [mbind result_bind].
    pose proof (Hr (Game.randPos
                      (Game.with_randPos (S (Game.randPos (Game.with_randPos (S (Game.randPos g)) g)))
                         (Game.with_randPos (S (Game.randPos g)) g)))
                  (Z.of_nat (length (Game.players g))) Hpos) as Hk.
    destruct (Z.ltb_spec
                (randIntn env
                   (Game.randPos
                      (Game.with_randPos (S (Game.randPos (Game.with_randPos (S (Game.randPos g)) g)))
                         (Game.with_randPos (S (Game.randPos g)) g)))
                   (Z.of_nat (length (Game.players g)))) 0) as [?|_]; [lia|].
    match goal with
    | |- context [elem_at ?l ?k] =>
        destruct (elem_at_total l k) as (tp & Etp & _);
          [rewrite !players_with_randPos; lia|rewrite Etp]
    end.
    cbn [mbind result_bind]. unfold rand_Float32, rand_Float64.
    cbv beta iota zeta. by eexists.
Qed.

Lemma update_spawn_step (dt : float32) (g0 g : Game.t) :
  rand_in_range env -> same_shape g0 g ->
  exists g', update_spawn dt g = Ok g' /\ same_shape g0 g'.
Proof.
  intros Hr Hs. destruct (same_shape_lengths _ _ Hs) as (_ & _ & _ & _ & _ & Hp).
  assert (E : exists g', update_spawn dt g = Ok g').
  { unfold update_spawn. destruct (negb _); [|by eexists]. cbv zeta.
    destruct (F32.gtb _ _); [|by eexists].
    destruct (_ <? _); [|by eexists].
    unfold SpawnEnemy. apply spawn_enemy_scan_total; [done|]. by destruct g. }
  destruct E as [g' E]. exists g'. split; [exact E|].
  eapply core_eq_same_shape; [exact Hs|by eapply update_spawn_core].
Qed.

Lemma enemy_contact_step (dt : float32) (i pIdx : nat) (g0 g : Game.t) :
  same_shape g0 g ->
  (i < length (Game.enemies g0))%nat -> (pIdx < length (Game.players g0))%nat ->
  exists g', enemy_contact i pIdx g = Ok g' /\ same_shape g0 g'.
Proof.
  intros Hs Hi Hp. destruct (same_shape_lengths _ _ Hs) as (Hlp & Hle & _).
  destruct (elem_at_total (Game.players g) pIdx) as (p & Ep & _); [lia|].
  destruct (elem_at_total (Game.enemies g) i) as (e & Ee & _); [lia|].
  assert (E : exists g', enemy_contact i pIdx g = Ok g').
  { unfold enemy_contact. rewrite Ep. cbn [mbind result_bind].
    rewrite Ee. cbn [mbind result_bind].
    destruct (F32.ltb _ _); [|by eexists].
    destruct (_ <=? 0); by eexists. }
  destruct E as [g' E]. exists g'. split; [exact E|].
  eapply tick_rel_same_shape; [exact Hs|].
  by apply (enemy_contact_tick dt i pIdx).
Qed.

Lemma enemy_bullet_step (i j : nat) (g0 g : Game.t) :
  same_shape g0 g ->
  (i < length (Game.enemies g0))%nat -> (j < length (Game.bullets g0))%nat ->
  exists g', enemy_bullet i j g = Ok g' /\ same_shape g0 g'.
Proof.
  intros Hs Hi Hj.
  destruct (same_shape_lengths _ _ Hs) as (_ & Hle & Hlb & _ & Ho & _).
  destruct (elem_at_total (Game.bullets g) j) as (b & Eb & _); [lia|].
  destruct (elem_at_total (Game.enemies g) i) as (e & Ee & _); [lia|].
  assert (E : exists g', enemy_bullet i j g = Ok g').
  { unfold enemy_bullet. rewrite Eb. cbn [mbind result_bind].
    destruct (negb _); [by eexists|].
    rewrite Ee. cbn [mbind result_bind].
    destruct (F64.ltb _ _); [|by eexists].
    destruct (_ <=? 0); [|by eexists].
    assert (Hi' : (i < length (Game.enemies g))%nat) by lia.
    kill_total g Hi' Ho. }
  destruct E as [g' E]. exists g'. split; [exact E|].
  eapply core_eq_same_shape; [exact Hs|by eapply enemy_bullet_core].
Qed.

Lemma nearest_player_scan_bound (pos : Vector3.t) (players : list Player.t) :
  forall (pIdx : nat) (minDist : float32) (nearest : nat),
    (nearest < pIdx + length players)%nat ->
    (nearest_player_scan pos players pIdx minDist nearest
     < pIdx + length players)%nat.
Proof.
  induction players as [|p rest IH]; intros pIdx minDist nearest Hn;
    cbn [nearest_player_scan length] in *.
  - done.
  - cbv zeta. destruct (F32.ltb _ _).
    + replace (pIdx + S (length rest))%nat with (S pIdx + length rest)%nat by lia.
      apply IH. lia.
    + replace (pIdx + S (length rest))%nat with (S pIdx + length rest)%nat by lia.
      apply IH. lia.
Qed.

Lemma update_enemy_step (dt : float32) (i : nat) (g0 g : Game.t) :
  same_shape g0 g -> (i < length (Game.enemies g0))%nat ->
  exists g', update_enemy dt i g = Ok g' /\ same_shape g0 g'.
Proof.
  intros Hs Hi.
  destruct (same_shape_lengths _ _ Hs) as (Hlp & Hle & Hlb & _ & _ & Hp).
  destruct (elem_at_total (Game.enemies g) i) as (e & Ee & _); [lia|].
  destruct (elem_at_total (Game.players g) 0) as (p0 & Ep0 & _); [lia|].
  unfold update_enemy. rewrite Ee. cbn [mbind result_bind].
  destruct (negb _); [by exists g|].
  rewrite Ep0. cbn [mbind result_bind].
  destruct (elem_at_total (Game.players g)
              (nearest_player_scan (Enemy.position e) (Game.players g) 0
                 (F32.of_int 999999) 0)) as (np & Enp & _).
  { apply (nearest_player_scan_bound _ _ 0). lia. }
  rewrite Enp. cbn [mbind result_bind].
  match goal with
  | |- context [for_range (enemy_contact i) 0 _ ?y] =>
      assert (Hy : same_shape g0 y)
        by (eapply core_eq_same_shape;
            [exact Hs|apply core_eq_with_enemies, length_insert]);
      generalize dependent y
  end.
  intros y Hy.
  destruct (for_range_total (same_shape g0) (enemy_contact i)
              (length (Game.players y)) O y Hy) as (g1 & E1 & H1).
  { intros k s Hk Hlt. destruct (same_shape_lengths _ _ Hy) as (Hl' & _).
    apply (enemy_contact_step dt); [done|done|lia]. }
  rewrite E1. cbn [mbind result_bind].
  apply (for_range_total (same_shape g0) (enemy_bullet i)); [done|].
  intros k s Hk Hlt. destruct (same_shape_lengths _ _ H1) as (_ & _ & Hb' & _).
  apply enemy_bullet_step; [done|done|lia].
Qed.

Lemma pickup_contact_step (dt : float32) (i pIdx : nat) (g0 g : Game.t) :
  same_shape g0 g ->
  (i < length (Game.powerUps g0))%nat -> (pIdx < length (Game.players g0))%nat ->
  exists b g', pickup_contact i pIdx g = Ok (b, g') /\ same_shape g0 g'.
Proof.
  intros Hs Hi Hp.
  destruct (same_shape_lengths _ _ Hs) as (Hlp & _ & _ & Hlu & _).
  destruct (elem_at_total (Game.players g) pIdx) as (p & Ep & _); [lia|].
  destruct (elem_at_total (Game.powerUps g) i) as (pu & Eu & _); [lia|].
  assert (E : exists b g', pickup_contact i pIdx g = Ok (b, g')).
  { unfold pickup_contact. rewrite Ep. cbn [mbind result_bind].
    rewrite Eu. cbn [mbind result_bind].
    destruct (F64.ltb _ _); by eexists _, _. }
  destruct E as (b & g' & E). exists b, g'. split; [exact E|].
  eapply tick_rel_same_shape; [exact Hs|].
  by apply (pickup_contact_tick dt i pIdx b).
Qed.

Lemma update_powerUp_step (dt : float32) (i : nat) (g0 g : Game.t) :
  same_shape g0 g -> (i < length (Game.powerUps g0))%nat ->
  exists g', update_powerUp dt i g = Ok g' /\ same_shape g0 g'.
Proof.
  intros Hs Hi. destruct (same_shape_lengths _ _ Hs) as (_ & _ & _ & Hlu & _).
  destruct (elem_at_total (Game.powerUps g) i) as (pu & Eu & _); [lia|].
  unfold update_powerUp. rewrite Eu. cbn [mbind result_bind].
  destruct (negb _); [by exists g|].
  match goal with
  | |- context [for_range_break (pickup_contact i) 0 _ ?y] =>
      assert (Hy : same_shape g0 y)
        by (eapply core_eq_same_shape;
            [exact Hs|apply core_eq_with_powerUps, length_insert]);
      generalize dependent y
  end.
  intros y Hy.
  apply (for_range_break_total (same_shape g0) (pickup_contact i)); [done|].
  intros k s Hk Hlt. destruct (same_shape_lengths _ _ Hy) as (Hl' & _).
  apply (pickup_contact_step dt); [done|done|lia].
Qed.

(** The simulation step returns in a well-formed state. *)
Lemma update_playing_total (inp : Input) (dt : float32) (g : Game.t) :
  rand_in_range env -> well_formed g ->
  exists g', update_playing inp dt g = Ok g' /\ same_shape g g'.
Proof.
  intros Hr Hw. unfold update_playing.
  match goal with
  | |- context [for_range (update_player inp dt) 0 _ ?y] =>
      assert (Hy : same_shape g y)
        by (eapply core_eq_same_shape;
            [by apply same_shape_refl|apply core_eq_with_gameTime]);
      generalize dependent y
  end.
  intros y Hy.
  destruct (for_range_total (same_shape g) (update_player inp dt)
              (length (Game.players y)) O y Hy) as (g1 & E1 & H1).
  { intros k s Hk Hlt. destruct (same_shape_lengths _ _ Hy) as (Hl' & _).
    apply update_player_step; [done|lia]. }
  rewrite E1. cbn [mbind result_bind].
  destruct (for_range_total (same_shape g) (update_bullet dt)
              (length (Game.bullets g1)) O g1 H1) as (g2 & E2 & H2).
  { intros k s Hk Hlt. destruct (same_shape_lengths _ _ H1) as (_ & _ & Hb & _).
    apply update_bullet_step; [done|lia]. }
  rewrite E2. cbn [mbind result_bind].
  match goal with
  | |- context [update_spawn dt ?z] =>
      assert (Hz : same_shape g z)
        by (destruct (_ && _);
            [eapply core_eq_same_shape; [exact H2|apply SpawnBoss_core]
            |exact H2]);
      generalize dependent z
  end.
  intros z Hz.
  destruct (update_spawn_step dt g z Hr Hz) as (g3 & E3 & H3).
  rewrite E3. cbn [mbind result_bind].
  destruct (for_range_total (same_shape g) (update_enemy dt)
              (length (Game.enemies g3)) O g3 H3) as (g4 & E4 & H4).
  { intros k s Hk Hlt. destruct (same_shape_lengths _ _ H3) as (_ & He & _).
    apply update_enemy_step; [done|lia]. }
  rewrite E4. cbn [mbind result_bind].
  match goal with
  | |- context [for_range (update_powerUp dt) 0 _ ?w] =>
      assert (Hw' : same_shape g w)
        by (eapply core_eq_same_shape;
            [exact H4|apply core_eq_with_particles, length_map]);
      generalize dependent w
  end.
  intros w Hw'.
  apply (for_range_total (same_shape g) (update_powerUp dt)); [done|].
  intros k s Hk Hlt. destruct (same_shape_lengths _ _ Hw') as (_ & _ & _ & Hu & _).
  apply update_powerUp_step; [done|lia].
Qed.

Lemma UpdateMenu_total (inp : Input) (g : Game.t) :
  (exists g', UpdateMenu inp g = Ok g')
  \/ (UpdateMenu inp g = Exit
      /\ IsKeyPressed inp KeyEnter || IsKeyPressed inp KeySpace = true).
Proof.
  unfold UpdateMenu. cbv zeta.
  match goal with
  | |- (exists g', (if _ then (if _ then StartGame _ ?y else _) else _) = _) \/ _ =>
      generalize y
  end.
  intros y. destruct (_ || _); [|left; by eexists].
  destruct (_ =? 0).
  { left. destruct (StartGame_post false y) as (g' & H & _). by exists g'. }
  destruct (_ =? 1).
  { left. destruct (StartGame_post true y) as (g' & H & _). by exists g'. }
  destruct (_ =? 2); [left; by eexists|].
  destruct (_ =? 3); [by right|left; by eexists].
Qed.

(** X16.  [Update] never panics: no slice is indexed out of range and
    [rand.Intn] is never called with 0, in every state of the game, when
    a frame of the Playing state starts with at least one player, three
    skill slots per player and an obstacle pool of at least 10 slots, and
    [rand.Intn(n)] yields a value in [[0, n)].  The call returns, and in
    the Playing state it leaves a state of the same kind with the same
    number of players; the one exception is the exit from the menu, which
    needs Enter or Space. *)
Theorem Update_never_panics (inp : Input) (dt : float32) (g : Game.t) :
  rand_in_range env ->
  (Game.state g = StatePlaying -> well_formed g) ->
  (exists g' : Game.t,
     Update inp dt g = Ok g'
     /\ (Game.state g = StatePlaying ->
         well_formed g'
         /\ length (Game.players g') = length (Game.players g)))
  \/ (Update inp dt g = Exit
      /\ Game.state g = StateMenu
      /\ IsKeyPressed inp KeyEnter || IsKeyPressed inp KeySpace = true).
Proof.
  intros Hr Hw. unfold Update. destruct (Game.state g) eqn:Hs.
  - destruct (UpdateMenu_total inp g) as [[g' E]|[E Hk]].
    + left. exists g'. split; [exact E|done].
    + right. done.
  - left. eexists. split; [reflexivity|done].
  - left. specialize (Hw eq_refl). destruct (IsKeyPressed inp KeyP).
    + eexists. split; [reflexivity|]. intros _.
      assert (Hc : same_shape g (Game.with_state StatePaused g))
        by (eapply core_eq_same_shape;
            [by apply same_shape_refl|apply core_eq_with_state]).
      by destruct Hc as (Hl & _ & Hw').
    + destruct (update_playing_total inp dt g Hr Hw) as (g' & E & Hl & _ & Hw').
      exists g'. done.
  - left. eexists. split; [reflexivity|done].
  - left. eexists. split; [reflexivity|done].
  - left. destruct (IsKeyPressed inp KeyR).
    + destruct (ResetGame_post g) as (g' & E & _). rewrite E.
      cbn [mbind result_bind]. eexists. split; [reflexivity|done].
    + cbn [mbind result_bind]. eexists. split; [reflexivity|done].
Qed.

(** X17.  In the GameOver state nothing happens until R or Escape is
    pressed.  R restarts: the call returns in the Playing state (or in
    the Menu state when Escape is pressed in the same frame) with score
    0, level 1, kill count 0, no enemy or bullet in play and every player
    at full health, and it keeps the high score, the settings and the
    number of players. *)
Theorem Update_game_over_restart (inp : Input) (dt : float32) (g : Game.t) :
  Game.state g = StateGameOver ->
  (IsKeyPressed inp KeyR = false -> IsKeyPressed inp KeyEscape = false ->
   Update inp dt g = Ok g)
  /\ (IsKeyPressed inp KeyR = true ->
      exists g' : Game.t,
        Update inp dt g = Ok g'
        /\ Game.state g'
           = (if IsKeyPressed inp KeyEscape then StateMenu else StatePlaying)
        /\ Game.score g' = 0 /\ Game.level g' = 1 /\ Game.enemiesKilled g' = 0
        /\ Forall (fun e => Enemy.active e = false) (Game.enemies g')
        /\ Forall (fun b => Bullet.active b = false) (Game.bullets g')
        /\ Forall (fun p => Player.health p
                            = PlayerStats.maxHealth (Player.stats p))
             (Game.players g')
        /\ length (Game.players g') = length (Game.players g)
        /\ Game.highScore g' = Game.highScore g
        /\ Game.settings g' = Game.settings g).
Proof.
  intros Hs. unfold Update, press. rewrite Hs. split.
  - intros -> ->. reflexivity.
  - intros ->.
    destruct (ResetGame_post g)
      as (g' & E & Hsc & Hlv & Hek & _ & _ & _ & _ & _ & _ & _ & He & Hb & _ & _
          & _ & Hl & Hp & _ & Hh & Hse & _).
    rewrite E. cbn [mbind result_bind].
    assert (Hp' : Forall (fun p => Player.health p
                                   = PlayerStats.maxHealth (Player.stats p))
                    (Game.players g'))
      by (eapply Forall_impl; [exact Hp|]; by intros p [H _]).
    clear Hp E. destruct g'.
    destruct (IsKeyPressed inp KeyEscape); eexists; (split; [reflexivity|]);
      cbn in *; done.
Qed.

(** ** Stage layouts *)

Lemma with_obstacles_twice (xs ys : list Obstacle.t) (g : Game.t) :
  Game.with_obstacles xs (Game.with_obstacles ys g) = Game.with_obstacles xs g.
Proof. by destruct g. Qed.

Lemma obstacles_with_obstacles (xs : list Obstacle.t) (g : Game.t) :
  Game.obstacles (Game.with_obstacles xs g) = xs.
Proof. by destruct g. Qed.

Lemma with_obstacles_eta (g : Game.t) :
  Game.with_obstacles (Game.obstacles g) g = g.
Proof. by destruct g. Qed.

(** A wall loop that fits into the pool stores its walls from slot [i]
    on. *)
Lemma place_walls_spec (walls : list (Vector3.t * Vector3.t)) :
  forall (i : nat) (g : Game.t),
    (i + length walls <= length (Game.obstacles g))%nat ->
    (i + length walls <= maxObstacles)%nat ->
    place_walls walls i g
    = Ok ((i + length walls)%nat,
          Game.with_obstacles
            (take i (Game.obstacles g)
             ++ map (fun w => Obstacle.mk w.1 w.2 true 0) walls
             ++ drop (i + length walls) (Game.obstacles g)) g).
Proof.
  induction walls as [|[pos size] rest IH]; intros i g H1 H2;
    cbn [place_walls length map] in *.
  - rewrite Nat.add_0_r. cbn [app]. by rewrite take_drop, with_obstacles_eta.
  - destruct (Nat.leb_spec maxObstacles i); [lia|].
    rewrite store_obstacle_ok by lia. cbn [mbind result_bind].
    rewrite IH;
      [|rewrite obstacles_with_obstacles, length_insert; lia|lia].
    rewrite obstacles_with_obstacles, with_obstacles_twice.
    rewrite (take_S_r _ i (Obstacle.mk pos size true 0))
      by (apply list_lookup_insert_eq; lia).
    rewrite take_insert_ge by lia. rewrite drop_insert_lt by lia.
    rewrite <- app_assoc. cbn [app fst snd].
    replace (S i + length rest)%nat with (i + S (length rest))%nat by lia.
    done.
Qed.

(** The hazard loop stores [n] hazards from slot [i] on and makes two
    draws for each. *)
Lemma hazards_loop_spec (n : nat) :
  forall (i : nat) (g : Game.t),
    (i + n <= length (Game.obstacles g))%nat ->
    (i + n <= maxObstacles)%nat ->
    exists hazards : list Obstacle.t,
      hazards_loop n i g
      = Ok (Game.with_randPos (Game.randPos g + 2 * n)
              (Game.with_obstacles
                 (take i (Game.obstacles g) ++ hazards
                  ++ drop (i + n) (Game.obstacles g)) g))
      /\ length hazards = n
      /\ Forall (fun o => Obstacle.active o = true /\ Obstacle.obsType o = 1)
           hazards.
Proof.
  induction n as [|n IH]; intros i g H1 H2; cbn [hazards_loop].
  - exists []. rewrite !Nat.add_0_r. cbn [app].
    rewrite take_drop. split; [by destruct g|done].
  - destruct (Nat.ltb_spec i maxObstacles); [|lia]. cbn [negb].
    unfold rand_Float64. cbv beta iota zeta.
    destruct g as [st ps es bs pts pus obs sett sc hs lv spt spi ek gt ba bsp
                   uc cm ms ss cs rp].
    cbn [Game.obstacles Game.randPos Game.with_randPos] in *.
    rewrite store_obstacle_ok by (gsimpl_goal; lia).
    gnorm. cbn [mbind result_bind].
    match goal with
    | |- context [hazards_loop n (S i) ?g1] =>
        destruct (IH (S i) g1) as (hz & E & Hl & HF);
          [cbn [Game.obstacles]; rewrite length_insert; lia|lia|]
    end.
    rewrite E. gnorm.
    match goal with
    | |- context [<[i := ?o]> obs] => exists (o :: hz)
    end.
    split; [|split; [cbn; lia|by constructor]].
    f_equal. f_equal; [|lia].
    erewrite take_S_r by (apply list_lookup_insert_eq; lia).
    rewrite take_insert_ge by lia. rewrite drop_insert_lt by lia.
    rewrite <- app_assoc. cbn [app].
    replace (S i + n)%nat with (i + S n)%nat by lia. done.
Qed.

Lemma map_drop_deactivate (k : nat) (obs : list Obstacle.t) :
  drop k (map (Obstacle.with_active false) obs)
  = map (Obstacle.with_active false) (drop k obs).
Proof. apply skipn_map. Qed.

Ltac pool_norm :=
  do 3 (rewrite ?take_0, ?drop_0, ?drop_drop, ?map_drop_deactivate;
        cbn [firstn skipn app Nat.add length map fst snd]).

(** X18.  [GenerateStage] clears the obstacle pool and lays out the stage
    of the level in its first slots: 9 walls for the Maze, 10 hazards
    (kind 1, two random draws each) for the Hazard stage, 4 walls for the
    Arena and nothing for the Basic stage.  The other slots are
    inactive, and nothing but the obstacles, the stage type and the
    position in the random source changes.  The pool has at least 10
    slots. *)
Theorem GenerateStage_layout (g : Game.t) :
  (10 <= length (Game.obstacles g))%nat ->
  let cs := stage_of_level (Game.level g) in
  let k := if cs =? StageMaze then 9%nat
           else if cs =? StageHazard then 10%nat
           else if cs =? StageArena then 4%nat else 0%nat in
  exists (layout : list Obstacle.t) (r : nat),
    GenerateStage g
    = Ok (Game.with_randPos r
            (Game.with_currentStage cs
               (Game.with_obstacles
                  (layout
                   ++ map (Obstacle.with_active false)
                        (drop k (Game.obstacles g))) g)))
    /\ length layout = k
    /\ Forall (fun o => Obstacle.active o = true) layout
    /\ (if cs =? StageHazard
        then r = (Game.randPos g + 20)%nat
             /\ Forall (fun o => Obstacle.obsType o = 1) layout
        else r = Game.randPos g
             /\ Forall (fun o => Obstacle.obsType o = 0) layout).
Proof.
  intros Hlen cs k. unfold GenerateStage. cbv zeta.
  destruct g as [st ps es bs pts pus obs sett sc hs lv spt spi ek gt ba bsp
                 uc cm ms ss cs0 rp].
  gnorm. cbn [Game.obstacles Game.level Game.randPos] in *.
  fold cs. subst k.
  assert (Hl : length (map (Obstacle.with_active false) obs) = length obs)
    by apply length_map.
  destruct (cs =? StageMaze) eqn:HM.
  { assert (HH : (cs =? StageHazard) = false)
      by (apply Z.eqb_eq in HM; rewrite HM; reflexivity).
    rewrite HH. unfold GenerateMaze.
    rewrite place_walls_spec
      by (gnorm; cbn [length map]; unfold maxObstacles; lia).
    gnorm. cbn [mbind result_bind]. pool_norm.
    rewrite place_walls_spec
      by (gnorm; cbn [length map]; rewrite ?length_map, ?length_drop;
          unfold maxObstacles; lia).
    gnorm. cbn [mbind result_bind]. pool_norm.
    eexists (_ :: _ :: _ :: _ :: _ :: _ :: _ :: _ :: _ :: []), rp.
    split; [reflexivity|]. split; [reflexivity|].
    split; [by repeat constructor|]. split; [done|by repeat constructor]. }
  destruct (cs =? StageHazard) eqn:HH.
  { unfold GenerateHazards.
    destruct (hazards_loop_spec 10 0
                (Game.mk st ps es bs pts pus
                   (map (Obstacle.with_active false) obs) sett sc hs lv spt spi
                   ek gt ba bsp uc cm ms ss cs rp))
      as (hz & E & Hhz & HF);
      [cbn [Game.obstacles]; lia|unfold maxObstacles; lia|].
    rewrite E. exists hz, (rp + 20)%nat.
    gnorm. pool_norm.
    split; [reflexivity|]. split; [done|].
    split; [eapply Forall_impl; [exact HF|]; by intros o [Ha _]|].
    split; [done|]. eapply Forall_impl; [exact HF|]. by intros o [_ Ht]. }
  destruct (cs =? StageArena) eqn:HA.
  { unfold GenerateArena.
    rewrite place_walls_spec
      by (gnorm; cbn [length]; unfold maxObstacles; lia).
    gnorm. cbn [mbind result_bind]. pool_norm.
    eexists (_ :: _ :: _ :: _ :: []), rp.
    split; [reflexivity|]. split; [reflexivity|].
    split; [by repeat constructor|]. split; [done|by repeat constructor]. }
  exists [], rp. cbn [app drop]. rewrite drop_0. done.
Qed.

(** ** Frames without a regular spawn *)
































(** *** Stage generation and kills *)







(** *** The player loop *)














(** *** Bullets, enemies and pickups *)










(** *** The whole frame *)




(** ** Health bounds *)




(** ** The invariant of the skill slots *)





End Properties.

(** * Concrete runs *)

(** ** C9 *)

Lemma stage_archetype_periodic_witness :
  1 <= Game.level (sample_game 7 0 [])
  /\ Game.level (sample_game 7 0 []) + 4 * stageInterval <= Int.max_int
  /\ (10 <= length (Game.obstacles (sample_game 7 0 [])))%nat
  /\ exists g' : Game.t,
       GenerateStage sample_env (sample_game 7 0 []) = Ok g'
       /\ Game.currentStage g' = StageBasic
       /\ stage_of_level (7 + 4 * stageInterval) = StageBasic.
Proof.
  assert (H1 : 1 <= Game.level (sample_game 7 0 [])) by (vm_compute; discriminate).
  assert (H2 : Game.level (sample_game 7 0 []) + 4 * stageInterval <= Int.max_int)
    by (vm_compute; discriminate).
  assert (H3 : (10 <= length (Game.obstacles (sample_game 7 0 [])))%nat)
    by (vm_compute; lia).
  split; [exact H1|]. split; [exact H2|]. split; [exact H3|].
  destruct (stage_archetype_periodic sample_env _ H1 H2 H3)
    as (g' & Hg & Hcs & _ & _ & _ & Hper).
  exists g'. split; [exact Hg|]. split; [rewrite Hcs; reflexivity|].
  exact Hper.
Defined.

(** ** C6 *)

Lemma KillEnemy_boss_and_score_witness :
  Game.enemies (sample_game 10 0 [sample_boss]) !! O = Some sample_boss
  /\ (10 <= length (Game.obstacles (sample_game 10 0 [sample_boss])))%nat
  /\ exists g' : Game.t,
       KillEnemy sample_env 0 (sample_game 10 0 [sample_boss]) = Ok g'
       /\ Game.score g' = 500 /\ Game.level g' = 11
       /\ Game.bossActive g' = false /\ Game.bossSpawned g' = false
       /\ Game.currentStage g' = StageMaze
       /\ Game.state g' = StatePlaying.
Proof.
  assert (H1 : Game.enemies (sample_game 10 0 [sample_boss]) !! O = Some sample_boss)
    by reflexivity.
  assert (H2 : (10 <= length (Game.obstacles (sample_game 10 0 [sample_boss])))%nat)
    by (vm_compute; lia).
  split; [exact H1|]. split; [exact H2|].
  destruct (KillEnemy_boss_and_score sample_env 0 _ _ H1 H2)
    as (g' & Hg & _ & Hboss & _).
  destruct (Hboss eq_refl) as (Hsc & Hba & Hlv & Hbs & Hstage & Hst & _).
  exists g'. split; [exact Hg|].
  rewrite Hlv in Hstage, Hst.
  change (stage_gate (Int.add (Game.level (sample_game 10 0 [sample_boss])) 1))
    with true in Hstage.
  change (upgrade_gate (Int.add (Game.level (sample_game 10 0 [sample_boss])) 1))
    with false in Hst.
  destruct Hstage as (Hcs & _).
  repeat split; [exact Hsc|exact Hlv|exact Hba|exact Hbs|exact Hcs|exact Hst].
Defined.

(** ** C1 *)

(** At level 9 the twentieth kill raises the level to 10, a multiple of
    the stage interval; at level 10 the twentieth kill leaves the level at
    10 although 11 is no multiple of it. *)
Lemma kill_count_gate_counterexample :
  (exists g' : Game.t,
     KillEnemy sample_env 0 (sample_game 9 19 [sample_minion 20]) = Ok g'
     /\ Game.enemiesKilled g' = 20
     /\ Game.level g' = 10
     /\ Z.rem (Game.level g') stageInterval = 0)
  /\ (exists g' : Game.t,
        KillEnemy sample_env 0 (sample_game 10 19 [sample_minion 20]) = Ok g'
        /\ Game.enemiesKilled g' = 20
        /\ Game.level g' = 10
        /\ Z.rem (10 + 1) stageInterval <> 0).
Proof.
  split.
  - eexists. split; [vm_compute; reflexivity|]. by vm_compute.
  - eexists. split; [vm_compute; reflexivity|]. by vm_compute.
Qed.

Lemma KillEnemy_kill_count_level_witness :
  Game.enemies (sample_game 9 19 [sample_minion 20]) !! O = Some (sample_minion 20)
  /\ (10 <= length (Game.obstacles (sample_game 9 19 [sample_minion 20])))%nat
  /\ Enemy.isBoss (sample_minion 20) = false
  /\ exists g' : Game.t,
       KillEnemy sample_env 0 (sample_game 9 19 [sample_minion 20]) = Ok g'
       /\ Game.level g' = 10
       /\ Game.spawnInterval g' = F32.of_int 1.
Proof.
  assert (H1 : Game.enemies (sample_game 9 19 [sample_minion 20]) !! O
               = Some (sample_minion 20)) by reflexivity.
  assert (H2 : (10 <= length (Game.obstacles (sample_game 9 19 [sample_minion 20])))%nat)
    by (vm_compute; lia).
  split; [exact H1|]. split; [exact H2|]. split; [reflexivity|].
  destruct (KillEnemy_kill_count_level sample_env 0 _ _ H1 H2 eq_refl)
    as (g' & Hg & Hk & Hup & _).
  exists g'. split; [exact Hg|].
  rewrite Hk in Hup.
  destruct (Hup eq_refl ltac:(vm_compute; discriminate)) as (Hlv & Hsi).
  split; [exact Hlv|]. rewrite Hsi, Hlv. reflexivity.
Defined.

(** ** C2 *)

(** Near a corner the code reports a collision although the circle stays
    clear of the rectangle: the wall covers [-1, 1] x [-1, 1], the circle
    of radius 1 sits at (1.75, 1.75), at distance 1.06 from the corner. *)
Lemma circle_test_counterexample :
  CheckObstacleCollision corner_game corner_point (F32.of_int 1) = true
  /\ ~ (exists (i : nat) (obs : Obstacle.t),
          Game.obstacles corner_game !! i = Some obs
          /\ Obstacle.active obs = true
          /\ circle_meets_rectangle corner_point (F32.of_int 1) obs).
Proof.
  split; [reflexivity|].
  intros (i & obs & Hi & _ & x & z & H).
  destruct i as [|i]; [|by destruct i].
  injection Hi as <-. vm_compute SF2Q in H.
  destruct H as (Hx1 & Hx2 & Hz1 & Hz2 & Hd). nra.
Qed.

Lemma CheckObstacleCollision_box_test_witness :
  CheckObstacleCollision corner_game corner_point (F32.of_int 1) = true
  /\ exists (i : nat) (obs : Obstacle.t),
       Game.obstacles corner_game !! i = Some obs
       /\ Obstacle.active obs = true
       /\ aabb_hit corner_point (F32.of_int 1) obs = true.
Proof.
  assert (H : CheckObstacleCollision corner_game corner_point (F32.of_int 1) = true)
    by reflexivity.
  split; [exact H|].
  exact (proj1 (proj1 (CheckObstacleCollision_box_test corner_game corner_point
                         (F32.of_int 1))) H).
Defined.

(** ** C4 *)

(** The first candidate (25, 0.75, 0) hits the block; the scan goes on
    and the second candidate (27.5, 0.75, 0) is spawned in the next
    slot. *)
Lemma spawn_retry_counterexample :
  CheckObstacleCollision ring_game (spawn_candidate retry_env O) (F32.of_int 1)
  = true
  /\ (forall e : Enemy.t, e ∈ Game.enemies ring_game -> Enemy.active e = false)
  /\ exists (g' : Game.t) (e : Enemy.t),
       SpawnEnemy retry_env ring_game = Ok g'
       /\ Game.enemies g' !! 1%nat = Some e
       /\ Enemy.active e = true
       /\ Enemy.isBoss e = false
       /\ Enemy.position e
          = vec3 (F32.lit 55 2) (F32.lit 3 4) (F32.of_int 0).
Proof.
  split; [reflexivity|]. split.
  - intros e He. vm_compute in He.
    repeat (apply elem_of_cons in He as [->|He]; [reflexivity|]).
    by apply elem_of_nil in He.
  - eexists _, _. split; [vm_compute; reflexivity|].
    split; [reflexivity|]. by vm_compute.
Qed.

Lemma SpawnEnemy_retries_next_slot_witness :
  exists g' : Game.t,
    spawn_enemy_scan retry_env (Game.enemies ring_game) O ring_game
    = spawn_enemy_scan retry_env (drop 1 (Game.enemies ring_game)) 1
        (Game.with_randPos 2 ring_game)
    /\ SpawnEnemy retry_env ring_game = Ok g'.
Proof.
  pose proof (SpawnEnemy_retries_next_slot retry_env
                (Enemy.mk Vector3.zero Vector3.zero false 0 0 F32.zero false)
                (drop 1 (Game.enemies ring_game)) O ring_game) as (_ & H & _).
  specialize (H eq_refl eq_refl).
  eexists. split; [exact H|]. vm_compute. reflexivity.
Defined.

(** ** C5 *)

(** A fourth skill does not exist: the call panics. *)
Lemma skill_index_counterexample :
  UseSkill sample_env 0 3 (sample_game 1 0 []) = Panic
  /\ UseSkill sample_env 0 (-1) (sample_game 1 0 []) = Panic.
Proof. split; reflexivity. Qed.

Lemma UseSkill_guard_witness :
  Game.players (sample_game 1 0 []) !! O = Some sample_player
  /\ UseSkill sample_env 0 3 (sample_game 1 0 []) = Panic.
Proof.
  assert (H : Game.players (sample_game 1 0 []) !! O = Some sample_player)
    by reflexivity.
  split; [exact H|].
  apply (proj1 (UseSkill_guard sample_env 0 3 _ _ H)).
  right. vm_compute. discriminate.
Defined.

(** ** C7 *)

(** C7 (code defect).  A lethal contact does not end the run when a
    bullet kills an enemy later in the same frame and the kill opens the
    upgrade screen.  In the last stand the contact takes the last 20
    health of the player; the enemy loop goes on, the bullet kills the
    enemy, the 60th kill raises the level to 4, and [KillEnemy] writes
    the Upgrade state over GameOver.  The frame ends in the upgrade
    screen with score 1200 above the high score 1170, and after the
    choice of an upgrade the run goes on in the Playing state with a
    player at 0 health. *)
Theorem lethal_contact_overwritten :
  exists g' g'' : Game.t,
    Game.state last_stand_game = StatePlaying
    /\ map Player.health (Game.players last_stand_game) = [20]
    /\ Update sample_env no_input frame_dt last_stand_game = Ok g'
    /\ map Player.health (Game.players g') = [0]
    /\ Game.state g' = StateUpgrade
    /\ Game.score g' = 1200
    /\ Game.highScore g' = 1170
    /\ Update sample_env upgrade_two_key frame_dt g' = Ok g''
    /\ Game.state g'' = StatePlaying
    /\ map Player.health (Game.players g'') = [0].
Proof.
  eexists _, _. split; [reflexivity|]. split; [reflexivity|].
  split; [vm_compute; reflexivity|].
  split; [reflexivity|]. split; [reflexivity|]. split; [reflexivity|].
  split; [reflexivity|].
  split; [vm_compute; reflexivity|]. split; reflexivity.
Qed.

(** ** C10 *)



(** ** C3 *)



(** ** C8 *)


(** * Concrete runs of the further properties *)

Lemma Update_keeps_pool_sizes_witness :
  exists g' : Game.t,
    Update sample_env no_input frame_dt crowded_game = Ok g'
    /\ length (Game.enemies g') = length (Game.enemies crowded_game)
    /\ length (Game.bullets g') = length (Game.bullets crowded_game).
Proof.
  eexists. split; [vm_compute; reflexivity|].
  match goal with
  | |- length (Game.enemies ?x) = _ /\ _ =>
      destruct (Update_keeps_pool_sizes sample_env no_input frame_dt
                  crowded_game x) as (H1 & H2 & _);
        [vm_compute; reflexivity|]
  end.
  split; [exact H1|exact H2].
Defined.

Lemma Update_health_le_max_witness :
  exists g' : Game.t,
    Update sample_env no_input frame_dt crowded_game = Ok g'
    /\ Forall2 (fun p p' =>
                  PlayerStats.maxHealth (Player.stats p')
                  = PlayerStats.maxHealth (Player.stats p)
                  /\ health_le_max p')
         (Game.players crowded_game) (Game.players g').
Proof.
  eexists. split; [vm_compute; reflexivity|].
  apply (Update_health_le_max sample_env no_input frame_dt crowded_game).
  - reflexivity.
  - vm_compute. lia.
  - vm_compute. lia.
  - repeat constructor; vm_compute; congruence.
  - vm_compute. reflexivity.
Defined.

Lemma Update_keeps_cooldown_invariant_witness :
  exists g' : Game.t,
    Update sample_env no_input frame_dt crowded_game = Ok g'
    /\ skills_inv g'.
Proof.
  eexists. split; [vm_compute; reflexivity|].
  apply (Update_keeps_cooldown_invariant sample_env no_input frame_dt
           crowded_game).
  - reflexivity.
  - reflexivity.
  - repeat constructor.
  - vm_compute. reflexivity.
Defined.

Lemma ShootBullet_takes_first_free_slot_witness :
  Game.players crowded_game !! O = Some sample_player
  /\ Forall (fun b => Bullet.active b = true)
       (Game.bullets (Game.with_bullets [Bullet.mk Vector3.zero Vector3.zero true 1 0]
                        crowded_game))
  /\ ShootBullet sample_env 0
       (Game.with_bullets [Bullet.mk Vector3.zero Vector3.zero true 1 0]
          crowded_game)
     = Ok (Game.with_bullets [Bullet.mk Vector3.zero Vector3.zero true 1 0]
             crowded_game).
Proof.
  assert (H : Game.players
                (Game.with_bullets [Bullet.mk Vector3.zero Vector3.zero true 1 0]
                   crowded_game) !! O = Some sample_player) by reflexivity.
  assert (Hf : Forall (fun b => Bullet.active b = true)
                 (Game.bullets
                    (Game.with_bullets
                       [Bullet.mk Vector3.zero Vector3.zero true 1 0]
                       crowded_game)))
    by (repeat constructor).
  split; [reflexivity|]. split; [exact Hf|].
  exact (proj1 (proj2 (ShootBullet_takes_first_free_slot sample_env 0 _ _ H)) Hf).
Defined.

Lemma SpawnBoss_takes_first_free_slot_witness :
  first_slot (fun e => negb (Enemy.active e)) (Game.enemies crowded_game)
  = Some 6%nat
  /\ exists boss : Enemy.t,
       Game.enemies (SpawnBoss sample_env crowded_game)
       = <[6%nat := boss]> (Game.enemies crowded_game)
       /\ Enemy.health boss = 60.
Proof.
  assert (H : first_slot (fun e => negb (Enemy.active e))
                (Game.enemies crowded_game) = Some 6%nat) by reflexivity.
  split; [exact H|].
  destruct (proj1 (proj2 (SpawnBoss_takes_first_free_slot sample_env crowded_game))
              6%nat H) as (boss & He & _ & _ & Hh & _).
  exists boss. split; [exact He|]. rewrite Hh. reflexivity.
Defined.

Lemma CreateExplosion_cap_and_free_slots_witness :
  - 2 ^ 53 < 50 < 2 ^ 53
  /\ free_slots Particle.active
       (Game.particles (CreateExplosion sample_env Vector3.zero 50 crowded_game))
     = 185%nat
  /\ Game.randPos (CreateExplosion sample_env Vector3.zero 50 crowded_game)
     = (Game.randPos crowded_game + 60)%nat.
Proof.
  assert (H : - 2 ^ 53 < 50 < 2 ^ 53) by lia.
  split; [exact H|].
  destruct (CreateExplosion_cap_and_free_slots sample_env Vector3.zero 50
              crowded_game H) as (_ & _ & _ & Hf & Hr & _).
  split; [exact Hf|exact Hr].
Defined.

Lemma SpawnPowerUp_roll_and_free_slot_witness :
  exists old : PowerUp.t,
    Game.powerUps pickup_game !! 1%nat = Some old
    /\ PowerUp.active old = false
    /\ SpawnPowerUp sample_env Vector3.zero pickup_game
       = Game.with_powerUps
           (<[1%nat := PowerUp.mk (Vector3.with_Y (F32.of_int 1) Vector3.zero)
                         true 0 (PowerUp.rotation old)]>
              (Game.powerUps pickup_game))
           (Game.with_randPos (S (S (Game.randPos pickup_game))) pickup_game).
Proof.
  assert (Hroll : (randFloat32 sample_env (Game.randPos pickup_game)
                   >? F32.lit 3 10)%f32 = false) by (vm_compute; reflexivity).
  assert (Hfree : first_slot (fun p => negb (PowerUp.active p))
                    (Game.powerUps pickup_game) = Some 1%nat)
    by (vm_compute; reflexivity).
  exact (proj1 (proj2 (SpawnPowerUp_roll_and_free_slot sample_env Vector3.zero
                         pickup_game)) 1%nat Hroll Hfree).
Defined.

Lemma SpawnEnemy_writes_one_free_slot_witness :
  exists g' : Game.t,
    SpawnEnemy sample_env crowded_game = Ok g'
    /\ Game.players g' = Game.players crowded_game.
Proof.
  eexists. split; [vm_compute; reflexivity|].
  apply (SpawnEnemy_writes_one_free_slot sample_env crowded_game).
  vm_compute. reflexivity.
Defined.

Lemma KillEnemy_total_and_frame_witness :
  Game.enemies crowded_game !! O = Some (sample_minion 1)
  /\ (10 <= length (Game.obstacles crowded_game))%nat
  /\ exists g' : Game.t,
       KillEnemy sample_env 0 crowded_game = Ok g'
       /\ Game.enemiesKilled g' = 1.
Proof.
  assert (H1 : Game.enemies crowded_game !! O = Some (sample_minion 1))
    by reflexivity.
  assert (H2 : (10 <= length (Game.obstacles crowded_game))%nat)
    by (vm_compute; lia).
  split; [exact H1|]. split; [exact H2|].
  destruct (proj2 (KillEnemy_total_and_frame sample_env 0 crowded_game) _ H1 H2)
    as (g' & Hg & _ & Hk & _).
  exists g'. split; [exact Hg|]. rewrite Hk. reflexivity.
Defined.

Lemma UseSkill_starts_cooldown_witness :
  exists (g' : Game.t) (p' : Player.t) (sk' : Skill.t),
    UseSkill sample_env 0 1 crowded_game = Ok g'
    /\ Game.players g' !! O = Some p'
    /\ Player.skills p' !! 1%nat = Some sk'
    /\ Skill.ready sk' = false.
Proof.
  eexists.
  match goal with
  | |- exists p' sk', UseSkill _ _ _ _ = Ok ?x /\ _ =>
      destruct (UseSkill_starts_cooldown sample_env 0 1 crowded_game x
                  sample_player
                  (Skill.mk "Radial Shot" (F32.of_int 0) (F32.of_int 10) true))
        as (p' & sk' & Hp & Hs & _ & Hr & _);
        [reflexivity|lia|reflexivity|reflexivity|vm_compute; reflexivity|]
  end.
  exists p', sk'. split; [vm_compute; reflexivity|].
  split; [exact Hp|]. split; [exact Hs|exact Hr].
Defined.

Lemma clampPlayerToStageBounds_within_witness :
  (Vector3.X
     (Player.position
        (clampPlayerToStageBounds StageArena (F32.lit 9 10)
           (Player.with_position
              (vec3 (F32.of_int 100) (F32.lit 1 2) (F32.of_int (-100)))
              sample_player)))
   <=? F32.of_int 18 - F32.lit 9 10)%f32 = true.
Proof.
  destruct (clampPlayerToStageBounds_within StageArena (F32.lit 9 10)
              (Player.with_position
                 (vec3 (F32.of_int 100) (F32.lit 1 2) (F32.of_int (-100)))
                 sample_player))
    as [(_ & H & _) _].
  - vm_compute. reflexivity.
  - vm_compute. discriminate.
  - vm_compute. discriminate.
  - exact H.
Defined.

Lemma UpdateSettings_keeps_ranges_witness :
  0 <= Game.settingsSelection NewGame <= 5
  /\ 0 <= Settings.difficulty (Game.settings NewGame) <= 2
  /\ 0 <= Game.settingsSelection (UpdateSettings no_input NewGame) <= 5.
Proof.
  assert (H1 : 0 <= Game.settingsSelection NewGame <= 5) by (vm_compute; split; discriminate).
  assert (H2 : 0 <= Settings.difficulty (Game.settings NewGame) <= 2)
    by (vm_compute; split; discriminate).
  split; [exact H1|]. split; [exact H2|].
  exact (proj1 (UpdateSettings_keeps_ranges no_input NewGame H1 H2)).
Defined.

Lemma UpdateMenu_rows_witness :
  0 <= Game.menuSelection NewGame <= 3
  /\ UpdateMenu sample_env no_input NewGame = Ok (Game.with_menuSelection 0 NewGame).
Proof.
  assert (H1 : 0 <= Game.menuSelection NewGame <= 3) by (vm_compute; split; discriminate).
  split; [exact H1|].
  exact (proj2 (UpdateMenu_rows sample_env no_input NewGame H1)).
Defined.

Lemma Update_never_panics_witness :
  rand_in_range sample_env
  /\ well_formed crowded_game
  /\ exists g' : Game.t,
       Update sample_env no_input frame_dt crowded_game = Ok g'
       /\ well_formed g'.
Proof.
  assert (Hr : rand_in_range sample_env) by (intros k n Hn; cbn; lia).
  assert (Hw : well_formed crowded_game).
  { split; [cbn; lia|]. split; [repeat constructor|vm_compute; lia]. }
  split; [exact Hr|]. split; [exact Hw|].
  destruct (Update_never_panics sample_env no_input frame_dt crowded_game Hr
              (fun _ => Hw)) as [(g' & E & H)|(E & Hs & _)].
  - exists g'. split; [exact E|]. exact (proj1 (H eq_refl)).
  - discriminate Hs.
Defined.

Lemma Update_game_over_restart_witness :
  Game.state (Game.with_state StateGameOver crowded_game) = StateGameOver
  /\ Update sample_env no_input frame_dt
       (Game.with_state StateGameOver crowded_game)
     = Ok (Game.with_state StateGameOver crowded_game).
Proof.
  assert (H : Game.state (Game.with_state StateGameOver crowded_game)
              = StateGameOver) by reflexivity.
  split; [exact H|].
  exact (proj1 (Update_game_over_restart sample_env no_input frame_dt _ H)
           eq_refl eq_refl).
Defined.

Lemma GenerateStage_layout_witness :
  (10 <= length (Game.obstacles (sample_game 21 0 [])))%nat
  /\ exists (layout : list Obstacle.t) (r : nat),
       GenerateStage sample_env (sample_game 21 0 [])
       = Ok (Game.with_randPos r
               (Game.with_currentStage StageHazard
                  (Game.with_obstacles
                     (layout
                      ++ map (Obstacle.with_active false)
                           (drop 10 (Game.obstacles (sample_game 21 0 []))))
                     (sample_game 21 0 []))))
       /\ length layout = 10%nat
       /\ r = (Game.randPos (sample_game 21 0 []) + 20)%nat.
Proof.
  assert (H : (10 <= length (Game.obstacles (sample_game 21 0 [])))%nat)
    by (vm_compute; lia).
  split; [exact H|].
  destruct (GenerateStage_layout sample_env _ H)
    as (layout & r & E & Hl & _ & Hr & _).
  exists layout, r. split; [exact E|]. split; [exact Hl|exact Hr].
Defined.
